(** * hydrate-mongodb: the session (unit of work) of [src/sessionImpl.ts]

    A shallow embedding of [SessionImpl]: the identity table
    [_objectLinks], the [ObjectLinks] records it points to, the [_id]
    attribute the session stamps on entities, the tasks the public methods
    enqueue, the operations dispatched by [_execute] and the flush
    pipeline, followed by the properties proved about them.

    - JavaScript objects are shared and mutated in place.  The embedding
      keeps a store of [ObjectLinks] records addressed by reference and a
      store of the [_id] attributes of the entities; the identity table
      maps identifier strings to link references.
    - A method is a function from the session to the session it leaves
      and either a result or the exception it threw.
    - A method that reports through a callback returns what the callback
      received, or that it was never invoked.  [process.nextTick] only
      delays that invocation and is not represented; an operation runs
      from its dispatch to its callback without another one in between.
    - Collaborators whose code is outside the session (mappings,
      persisters, references, the batch, the graph walker) are parameters
      of the operations: what they answer is arbitrary. *)

From Stdlib Require Import ZArith.
From stdpp Require Import gmap strings list fin_maps.

Set Default Proof Using "Type".

(** ** Enumerations *)

(** [enum ObjectState] *)
Inductive ObjectState := Managed | Detached | Removed.

(** [enum ScheduledOperation]; [None] is the only falsy member (value 0). *)
Inductive ScheduledOperation := OpNone | Insert | Update | Delete | DirtyCheck.

(** [ChangeTracking] of a persister (mapping/changeTracking.ts, an enum
    whose three members the spec lists). *)
Inductive ChangeTracking := DeferredImplicit | DeferredExplicit | Observe.

#[global] Instance ObjectState_eq_dec : EqDecision ObjectState.
Proof. solve_decision. Defined.
#[global] Instance ScheduledOperation_eq_dec : EqDecision ScheduledOperation.
Proof. solve_decision. Defined.
#[global] Instance ChangeTracking_eq_dec : EqDecision ChangeTracking.
Proof. solve_decision. Defined.

(** [!links.scheduledOperation] *)
Definition op_falsy (op : ScheduledOperation) : bool :=
  match op with OpNone => true | _ => false end.

(** ** PropertyFlags (const enum, bit set) *)
Module PropertyFlags.
Local Open Scope Z_scope.
Definition None : Z := 0.
Definition Ignored : Z := 0x00000001.
Definition CascadeSave : Z := 0x00000002.
Definition CascadeRemove : Z := 0x00000004.
Definition CascadeDetach : Z := 0x00000008.
Definition CascadeRefresh : Z := 0x00000010.
Definition CascadeMerge : Z := 0x00000020.
Definition CascadeAll : Z :=
  Z.lor (Z.lor (Z.lor (Z.lor CascadeSave CascadeRemove) CascadeDetach)
               CascadeRefresh) CascadeMerge.
Definition InverseSide : Z := 0x00000040.
Definition Nullable : Z := 0x00000080.
Definition OrphanRemoval : Z := 0x00000100.
Definition Dereference : Z := 0x00000200.
End PropertyFlags.

(** ** Actions and their bit values ([enum Action]) *)
Inductive Action :=
  Save | Remove | Detach | Flush | Clear | Find | Refresh | Merge | Fetch.

#[global] Instance Action_eq_dec : EqDecision Action.
Proof. solve_decision. Defined.

Definition Action_value (a : Action) : Z :=
  match a with
  | Save => 0x00000001
  | Remove => 0x00000002
  | Detach => 0x00000004
  | Flush => 0x00000008
  | Clear => 0x00000010
  | Find => 0x00000020
  | Refresh => 0x00000040
  | Merge => 0x00000080
  | Fetch => 0x00000100
  end%Z.

(** [Action.All = Save | Remove | Detach | Flush | Clear | Find | Refresh
    | Merge | Fetch] *)
Definition Action_All : Z :=
  Z.lor (Z.lor (Z.lor (Z.lor (Z.lor (Z.lor (Z.lor (Z.lor
    (Action_value Save) (Action_value Remove)) (Action_value Detach))
    (Action_value Flush)) (Action_value Clear)) (Action_value Find))
    (Action_value Refresh)) (Action_value Merge)) (Action_value Fetch).

(** ** Values handled by the session *)

(** Entities are JavaScript objects; the session only compares them by
    reference and reads or writes their [_id] attribute. *)
Definition ObjRef := nat.
Definition LinkRef := nat.
Definition Document := nat.
Definition Error := string.
Definition Constructor := nat.

(** An [Identifier] is opaque to the session, which only calls
    [toString] on it (identifiers are objects, hence truthy). *)
Record Identifier := Id { toString : string }.

#[global] Instance Identifier_eq_dec : EqDecision Identifier.
Proof. solve_decision. Defined.

(** [Result<T>]: [{ error?, value }] returned by [dirtyCheck] and
    [insert]. *)
Record Result := { error : option Error; value : option Document }.

Record IdentityGenerator := {
  (** [generate()] is stateful; the n-th call of the program returns
      [generate n]. *)
  generate : nat -> Identifier;
  fromString : string -> Identifier
}.

(** What a [ResultCallback] receives besides an error: [undefined],
    [null] or an entity. *)
Inductive Value := VUndefined | VNull | VEntity (obj : ObjRef).

(** How an operation that takes a callback ends: the callback is never
    invoked, invoked with an error, or invoked without one. *)
Inductive Completion :=
  | NotCalled
  | Failed (err : Error)
  | Completed (result : Value).

(** The part of [Persister] the session calls.  The batch handed to
    [dirtyCheck], [insert] and [remove] is represented by the sequence of
    these calls (see [BatchCall]); what a call answers depends on the
    entity and, for [dirtyCheck], on the snapshot; [remove] answers
    nothing.  [refresh] and [findOneById] complete through a callback; the
    field is what the callback receives.  A persister that loads an entity
    hands it to the session through [registerManaged]. *)
Module Persister.
Record t := {
  changeTracking : ChangeTracking;
  identity : IdentityGenerator;
  dirtyCheck : ObjRef -> option Document -> Result;
  insert : ObjRef -> Result;
  refresh : ObjRef -> Error + Document;
  findOneById : Identifier -> Completion
}.
End Persister.

Record EntityMapping := { mapping_id : nat; mapping_identity : IdentityGenerator }.

(** A [Reference]: mapping (possibly missing) and identifier. *)
Record Reference := { ref_mapping : option EntityMapping; ref_id : Identifier }.

(** What [fetch] and [getReference] handle: an entity or a [Reference]
    ([Reference.isReference]). *)
Inductive Target := TEntity (obj : ObjRef) | TReference (r : Reference).

(** An [id] argument of [find]/[getReference]: a string
    ([typeof id === "string"]) or an identifier. *)
Inductive IdArg := IdString (s : string) | IdValue (i : Identifier).

(** The [arg] of a task, as the public methods build it. *)
Inductive Arg :=
  | ArgUndefined
  | ArgObject (obj : ObjRef)
  | ArgFind (ctr : Constructor) (id : IdArg)
  | ArgFetch (obj : Target) (paths : option (list string)).

(** ** Tasks handed to the queue

    [TaskQueue] itself is not part of the session; a task records the
    arguments of [this._queue.add(action, invalidates, arg, callback)]. *)
Record Task := { action : Action; invalidates : Z; arg : Arg }.

Definition _queue_add (a : Action) (mask : Z) (x : Arg) : Task :=
  {| action := a; invalidates := mask; arg := x |}.

Definition mask_without (bits : Z) : Z := Z.land Action_All (Z.lnot bits).

Definition save (obj : ObjRef) : Task :=
  _queue_add Save (mask_without (Action_value Save)) (ArgObject obj).

Definition remove (obj : ObjRef) : Task :=
  _queue_add Remove (mask_without (Action_value Remove)) (ArgObject obj).

Definition refresh (obj : ObjRef) : Task :=
  _queue_add Refresh (mask_without (Action_value Refresh)) (ArgObject obj).

Definition detach (obj : ObjRef) : Task :=
  _queue_add Detach (mask_without (Action_value Detach)) (ArgObject obj).

Definition clear : Task := _queue_add Clear Action_All ArgUndefined.

Definition flush : Task := _queue_add Flush Action_All ArgUndefined.

Definition find (ctr : Constructor) (id : IdArg) : Task :=
  _queue_add Find
    (mask_without (Z.lor (Action_value Find) (Action_value Fetch)))
    (ArgFind ctr id).

(** [pathsOrCallback] of [fetch]. *)
Inductive PathsOrCallback :=
  | PCallback
  | PString (s : string)
  | PArray (paths : list string)
  | PUndefined.

Definition fetch (obj : Target) (pathsOrCallback : PathsOrCallback) : Task :=
  let paths :=
    match pathsOrCallback with
    | PCallback => None
    | PString s => Some [s]
    | PArray ps => Some ps
    | PUndefined => None
    end in
  _queue_add Fetch
    (mask_without (Z.lor (Action_value Find) (Action_value Fetch)))
    (ArgFetch obj paths).

(** A task with mask [mask] excludes action [a] when [a]'s bit is set in
    the mask. *)
Definition excludes (mask : Z) (a : Action) : bool :=
  negb (Z.land mask (Action_value a) =? 0)%Z.

(** ** The session and the objects it shares with its callers *)

(** [interface ObjectLinks] *)
Record ObjectLinks := {
  state : ObjectState;
  scheduledOperation : ScheduledOperation;
  object : ObjRef;
  originalDocument : option Document;
  persister : Persister.t
}.

Definition set_state (st : ObjectState) (l : ObjectLinks) : ObjectLinks :=
  {| state := st; scheduledOperation := scheduledOperation l;
     object := object l; originalDocument := originalDocument l;
     persister := persister l |}.

Definition set_scheduledOperation (op : ScheduledOperation) (l : ObjectLinks)
  : ObjectLinks :=
  {| state := state l; scheduledOperation := op;
     object := object l; originalDocument := originalDocument l;
     persister := persister l |}.

Definition set_originalDocument (d : option Document) (l : ObjectLinks)
  : ObjectLinks :=
  {| state := state l; scheduledOperation := scheduledOperation l;
     object := object l; originalDocument := d;
     persister := persister l |}.

(** The identity table is a plain object ([= {}]): reading from it a
    property it does not hold itself gives the member of that name that
    it inherits from [Object.prototype], when there is one.  Every such
    member is truthy (a function; for [__proto__] the prototype itself)
    and has no [state], [object] or [scheduledOperation]. *)
Definition Object_prototype : list string :=
  ["constructor"; "toString"; "toLocaleString"; "valueOf";
   "hasOwnProperty"; "isPrototypeOf"; "propertyIsEnumerable";
   "__proto__"; "__defineGetter__"; "__defineSetter__";
   "__lookupGetter__"; "__lookupSetter__"].

(** [key] names a member of [Object.prototype]: [this._objectLinks[key]]
    is truthy even when the table holds no link under [key]. *)
Definition inherited (key : string) : bool :=
  bool_decide (key ∈ Object_prototype).

(** What [this._objectLinks[key]] gives when it is truthy: a link record
    of the table, or the member of [Object.prototype] named [key]. *)
Inductive Links := Linked (lr : LinkRef) | Member (key : string).

(** The mutable data the session works on.  [_objectLinks] and
    [_persisterByMapping] are the fields of [SessionImpl]; [links] holds
    the [ObjectLinks] records the table (and the local variables of the
    operations) refer to; [_id] is the [_id] attribute of every entity
    that has one; [generated] counts the calls of [identity.generate()]. *)
Record Session := {
  _objectLinks : gmap string LinkRef;
  _persisterByMapping : gmap nat Persister.t;
  links : gmap LinkRef ObjectLinks;
  _id : gmap ObjRef Identifier;
  generated : nat
}.

Definition with_objectLinks (f : gmap string LinkRef -> gmap string LinkRef)
    (s : Session) : Session :=
  {| _objectLinks := f (_objectLinks s);
     _persisterByMapping := _persisterByMapping s;
     links := links s; _id := _id s; generated := generated s |}.

Definition with_persisterByMapping
    (f : gmap nat Persister.t -> gmap nat Persister.t) (s : Session) : Session :=
  {| _objectLinks := _objectLinks s;
     _persisterByMapping := f (_persisterByMapping s);
     links := links s; _id := _id s; generated := generated s |}.

Definition with_links (f : gmap LinkRef ObjectLinks -> gmap LinkRef ObjectLinks)
    (s : Session) : Session :=
  {| _objectLinks := _objectLinks s;
     _persisterByMapping := _persisterByMapping s;
     links := f (links s); _id := _id s; generated := generated s |}.

Definition with_id (f : gmap ObjRef Identifier -> gmap ObjRef Identifier)
    (s : Session) : Session :=
  {| _objectLinks := _objectLinks s;
     _persisterByMapping := _persisterByMapping s;
     links := links s; _id := f (_id s); generated := generated s |}.

Definition with_generated (f : nat -> nat) (s : Session) : Session :=
  {| _objectLinks := _objectLinks s;
     _persisterByMapping := _persisterByMapping s;
     links := links s; _id := _id s; generated := f (generated s) |}.

(** A new session: empty table, empty persister cache.  The entities of
    the application may already carry identifiers. *)
Definition new_session (ids : gmap ObjRef Identifier) : Session :=
  {| _objectLinks := ∅; _persisterByMapping := ∅; links := ∅;
     _id := ids; generated := 0 |}.

(** ** Computations: state and exceptions

    A method either returns or throws; the changes made before a [throw]
    stay. *)
Inductive Outcome (A : Type) := Return (a : A) | Throw (e : Error).
Arguments Return {A} a.
Arguments Throw {A} e.

Definition M (A : Type) : Type := Session -> Session * Outcome A.

Definition ret {A} (a : A) : M A := fun s => (s, Return a).
Definition throw {A} (e : Error) : M A := fun s => (s, Throw e).
Definition bind {A B} (m : M A) (f : A -> M B) : M B :=
  fun s => match m s with
           | (s', Return a) => f a s'
           | (s', Throw e) => (s', Throw e)
           end.
Definition gets {A} (f : Session -> A) : M A := fun s => (s, Return (f s)).
Definition modify (f : Session -> Session) : M unit :=
  fun s => (f s, Return tt).

Declare Scope session_scope.
Delimit Scope session_scope with session.
Notation "'let*' x ':=' m 'in' k" := (bind m (fun x => k))
  (at level 10, x pattern, m at level 100, k at level 200) : session_scope.
Notation "m ';;;' k" := (bind m (fun _ => k))
  (at level 100, k at level 200, right associativity) : session_scope.
Local Open Scope session_scope.

(** [undefined.toString()] and the like. *)
Definition TypeError : Error := "TypeError".

(** Reading the fields of a link record, writing one.  A reference held
    by the table or by a local variable always leads to a record; the
    [None] branch only makes the function total. *)
Definition deref (lr : LinkRef) : M ObjectLinks :=
  fun s => match links s !! lr with
           | Some l => (s, Return l)
           | None => (s, Throw TypeError)
           end.

Definition update (lr : LinkRef) (f : ObjectLinks -> ObjectLinks) : M unit :=
  let* l := deref lr in
  modify (with_links (<[lr := f l]>)).

(** [{ state: ..., ... }]: a new record, at a reference not in use. *)
Definition alloc (l : ObjectLinks) : M LinkRef :=
  fun s => let lr := fresh (dom (links s)) in
           (with_links (<[lr := l]>) s, Return lr).

(** ** Collaborators of the session *)

(** [InternalSessionFactory]: the mapping registry and the persister
    constructor. *)
Record InternalSessionFactory := {
  getMappingForObject : ObjRef -> option EntityMapping;
  getMappingForConstructor : Constructor -> option EntityMapping;
  createPersister : EntityMapping -> Persister.t
}.

(** One call of a persister that was handed the batch of a flush. *)
Inductive BatchCall :=
  | CallDirtyCheck (obj : ObjRef) (originalDocument : option Document)
  | CallInsert (obj : ObjRef)
  | CallRemove (obj : ObjRef).

#[global] Instance BatchCall_eq_dec : EqDecision BatchCall.
Proof. solve_decision. Defined.

(** [Batch]: the calls made on it, oldest first. *)
Definition Batch := list BatchCall.

(** Everything outside the session.  [walk] answers for
    [EntityMapping.walk] together with the resolution of the references it
    finds, that is for what [_walk] passes to its callback: an error or
    the list of reached entities.  [Reference_fetch] is what
    [Reference.fetch] passes to its callback, [Batch_execute] what
    [batch.execute] passes to its callback.  These are answers only: an
    entity that a persister loads is linked by the persister's call of
    [registerManaged], which is a step of its own here and not part of
    the operation that asked for the entity. *)
Record Environment := {
  factory : InternalSessionFactory;
  walk : EntityMapping -> ObjRef -> Z -> Error + list ObjRef;
  Reference_fetch : Reference -> Error + ObjRef;
  Batch_execute : Batch -> option Error
}.

Section SessionImpl.

Variable env : Environment.

(** [getId] *)
Definition getId (obj : ObjRef) (s : Session) : option Identifier :=
  _id s !! obj.

(** [contains]: [links && links.state != ObjectState.Removed], as a
    boolean.  An inherited member has no [state], and [undefined] differs
    from [ObjectState.Removed]. *)
Definition contains (obj : ObjRef) (s : Session) : bool :=
  match _id s !! obj with
  | Some id =>
      match _objectLinks s !! toString id with
      | Some lr =>
          match links s !! lr with
          | Some l => bool_decide (state l ≠ Removed)
          | None => false
          end
      | None => inherited (toString id)
      end
  | None => false
  end.

(** [getObject].  For an inherited member [links.object] is
    [undefined], which is also the answer when nothing is found. *)
Definition getObject (id : Identifier) (s : Session) : Value :=
  match _objectLinks s !! toString id with
  | Some lr =>
      match links s !! lr with
      | Some l => if decide (state l = Removed) then VNull else VEntity (object l)
      | None => VUndefined
      end
  | None => VUndefined
  end.

(** [getReferenceInternal]: [this.getObject(id) || new Reference(...)] *)
Definition getReferenceInternal (mapping : option EntityMapping)
    (id : Identifier) (s : Session) : Target :=
  match getObject id s with
  | VEntity obj => TEntity obj
  | _ => TReference {| ref_mapping := mapping; ref_id := id |}
  end.

(** [getReference]; a string [id] that no mapping converts is used as it
    is. *)
Definition getReference (ctr : Constructor) (id : IdArg) (s : Session)
  : Target :=
  let mapping := getMappingForConstructor (factory env) ctr in
  let id' :=
    match id, mapping with
    | IdString str, Some m => fromString (mapping_identity m) str
    | IdString str, None => Id str
    | IdValue i, _ => i
    end in
  getReferenceInternal mapping id' s.

(** [getPersister]: one persister per mapping, created on first use. *)
Definition getPersister (mapping : EntityMapping) : M Persister.t :=
  let* cache := gets _persisterByMapping in
  match cache !! mapping_id mapping with
  | Some p => ret p
  | None =>
      let p := createPersister (factory env) mapping in
      modify (with_persisterByMapping (<[mapping_id mapping := p]>)) ;;;
      ret p
  end.

Definition _getPersisterForObject (obj : ObjRef) : M (option Persister.t) :=
  match getMappingForObject (factory env) obj with
  | Some mapping => let* p := getPersister mapping in ret (Some p)
  | None => ret None
  end.

Definition _getPersisterForConstructor (ctr : Constructor)
  : M (option Persister.t) :=
  match getMappingForConstructor (factory env) ctr with
  | Some mapping => let* p := getPersister mapping in ret (Some p)
  | None => ret None
  end.

Definition already_linked (id : string) : Error :=
  "Session already contains a managed entity with identifier '" +:+ id +:+ "'.".

(** [_linkObject]: [if(this._objectLinks[id])] holds for a key of the
    table and for the name of an inherited member alike. *)
Definition _linkObject (obj : ObjRef) (persister : Persister.t)
    (operation : ScheduledOperation) : M LinkRef :=
  let* oid := gets (getId obj) in
  match oid with
  | None => throw TypeError
  | Some i =>
      let id := toString i in
      let* table := gets _objectLinks in
      match table !! id with
      | Some _ => throw (already_linked id)
      | None =>
          if inherited id then throw (already_linked id)
          else
            let* lr := alloc {| state := Managed;
                                scheduledOperation := operation;
                                object := obj;
                                originalDocument := None;
                                persister := persister |} in
            modify (with_objectLinks (<[id := lr]>)) ;;;
            ret lr
      end
  end.

(** [_unlinkObject] *)
Definition _unlinkObject (lr : LinkRef) : M unit :=
  let* l := deref lr in
  let* oid := gets (getId (object l)) in
  match oid with
  | None => throw TypeError
  | Some i =>
      modify (with_objectLinks (delete (toString i))) ;;;
      if decide (scheduledOperation l = Insert ∨ state l = Removed)
      then modify (with_id (delete (object l)))
      else ret tt
  end.

(** [_getObjectLinks]: [None] is [undefined].  When the table has no
    link under the identifier and inherits a member of that name, the
    member is what [links] holds and what is returned. *)
Definition _getObjectLinks (obj : ObjRef) : M (option Links) :=
  let* oid := gets (getId obj) in
  match oid with
  | Some id =>
      let* table := gets _objectLinks in
      match table !! toString id with
      | Some lr => ret (Some (Linked lr))
      | None =>
          if inherited (toString id) then ret (Some (Member (toString id)))
          else
            let* p := _getPersisterForObject obj in
            match p with
            | None => ret None
            | Some persister =>
                let* lr := _linkObject obj persister OpNone in
                update lr (set_state Detached) ;;;
                ret (Some (Linked lr))
            end
      end
  | None => ret None
  end.

(** [registerManaged] *)
Definition registerManaged (persister : Persister.t) (entity : ObjRef)
    (document : Document) : M unit :=
  let* lr := _linkObject entity persister OpNone in
  update lr (set_originalDocument (Some document)).

Definition not_mapped : Error := "Object type is not mapped as an entity.".

(** [_findReferencedEntities]: an error or the reached entities. *)
Definition _findReferencedEntities (obj : ObjRef) (flags : Z)
  : Error + list ObjRef :=
  match getMappingForObject (factory env) obj with
  | None => inl not_mapped
  | Some mapping => walk env mapping obj flags
  end.

Definition detached_save : Error := "Cannot save a detached object.".
Definition detached_remove : Error := "Cannot remove a detached object.".

(** A [for] loop whose body may leave the method by [return] after
    having called the callback: the body answers [Some c] when it did,
    with [c] what the callback received, and the loop answers [None] when
    it ran to its end. *)
Fixpoint for_each {A} (body : A → M (option Completion)) (l : list A)
  : M (option Completion) :=
  match l with
  | [] => ret None
  | x :: rest =>
      let* r := body x in
      match r with
      | Some c => ret (Some c)
      | None => for_each body rest
      end
  end.

(** [callback()] after a loop that ran to its end. *)
Definition then_callback (r : option Completion) : Completion :=
  match r with
  | Some c => c
  | None => Completed VUndefined
  end.

(** The body of the loop of [_saveEntities].  The [switch] on
    [links.state] matches no case when [links] is an inherited member. *)
Definition _saveEntities_body (obj : ObjRef) : M (option Completion) :=
  let* links := _getObjectLinks obj in
  match links with
  | None =>
      let* p := _getPersisterForObject obj in
      match p with
      | None => ret (Some (Failed not_mapped))
      | Some persister =>
          let* n := gets generated in
          modify (with_generated S) ;;;
          modify (with_id
            (<[obj := generate (Persister.identity persister) n]>)) ;;;
          _linkObject obj persister Insert ;;;
          ret None
      end
  | Some (Linked lr) =>
      let* l := deref lr in
      match state l with
      | Managed =>
          (if decide (Persister.changeTracking (persister l)
                        = DeferredExplicit)
           then if op_falsy (scheduledOperation l)
                then update lr (set_scheduledOperation DirtyCheck)
                else ret tt
           else ret tt) ;;;
          ret None
      | Detached => ret (Some (Failed detached_save))
      | Removed =>
          update lr (set_scheduledOperation OpNone) ;;;
          update lr (set_state Managed) ;;;
          ret None
      end
  | Some (Member _) => ret None
  end.

(** [_saveEntities] *)
Definition _saveEntities (entities : list ObjRef) : M Completion :=
  let* r := for_each _saveEntities_body entities in
  ret (then_callback r).

(** [_save] *)
Definition _save (obj : ObjRef) : M Completion :=
  match _findReferencedEntities obj PropertyFlags.CascadeSave with
  | inl err => ret (Failed err)
  | inr entities => _saveEntities entities
  end.

(** The body of the loop of [_removeEntities]. *)
Definition _removeEntities_body (obj : ObjRef) : M (option Completion) :=
  let* links := _getObjectLinks obj in
  match links with
  | Some (Linked lr) =>
      let* l := deref lr in
      match state l with
      | Managed =>
          (if decide (scheduledOperation l = Insert)
           then _unlinkObject lr
           else update lr (set_scheduledOperation Delete) ;;;
                update lr (set_state Removed)) ;;;
          ret None
      | Detached => ret (Some (Failed detached_remove))
      | Removed => ret None
      end
  | Some (Member _) => ret None
  | None => ret None
  end.

(** [_removeEntities]: the loop runs from the last entity to the first. *)
Definition _removeEntities (entities : list ObjRef) : M Completion :=
  let* r := for_each _removeEntities_body (rev entities) in
  ret (then_callback r).

(** [_remove] *)
Definition _remove (obj : ObjRef) : M Completion :=
  match _findReferencedEntities obj
          (Z.lor PropertyFlags.CascadeRemove PropertyFlags.Dereference) with
  | inl err => ret (Failed err)
  | inr entities => _removeEntities entities
  end.

(** The body of the loop of [_detachEntities]. *)
Definition _detachEntities_body (obj : ObjRef) : M (option Completion) :=
  let* links := _getObjectLinks obj in
  match links with
  | Some (Linked lr) =>
      let* l := deref lr in
      (if decide (state l = Managed) then _unlinkObject lr else ret tt) ;;;
      ret None
  | Some (Member _) => ret None
  | None => ret None
  end.

(** [_detachEntities] *)
Definition _detachEntities (entities : list ObjRef) : M Completion :=
  let* r := for_each _detachEntities_body entities in
  ret (then_callback r).

(** [_detach] *)
Definition _detach (obj : ObjRef) : M Completion :=
  match _findReferencedEntities obj PropertyFlags.CascadeDetach with
  | inl err => ret (Failed err)
  | inr entities => _detachEntities entities
  end.

Definition not_managed : Error := "Object is not managed.".

(** [_refreshEntities] runs its iterator under [async.each]: the iterator
    is started for every entity in turn, and the final callback receives
    the first error reported, or nothing once every entity is done.
    [refresh_start] is the iterator up to the call of
    [links.persister.refresh]; [refresh_finish] is the callback of that
    call.  The calls are taken to complete in the order they were made. *)
Fixpoint refresh_start (entities : list ObjRef)
  : M (list (Error + LinkRef)) :=
  match entities with
  | [] => ret []
  | entity :: rest =>
      let* links := _getObjectLinks entity in
      let* r :=
        match links with
        | None => ret (inl not_managed)
        | Some (Linked lr) =>
            let* l := deref lr in
            if decide (state l = Managed) then ret (inr lr)
            else ret (inl not_managed)
        | Some (Member _) => ret (inl not_managed)
        end in
      let* rs := refresh_start rest in
      ret (r :: rs)
  end.

Fixpoint refresh_finish (started : list (Error + LinkRef))
  : M (list Error) :=
  match started with
  | [] => ret []
  | inl _ :: rest => refresh_finish rest
  | inr lr :: rest =>
      let* l := deref lr in
      match Persister.refresh (persister l) (object l) with
      | inl err =>
          let* errs := refresh_finish rest in ret (err :: errs)
      | inr document =>
          update lr (set_originalDocument (Some document)) ;;;
          refresh_finish rest
      end
  end.

Definition lefts {A B} (l : list (A + B)) : list A :=
  omap (fun x => match x with inl a => Some a | inr _ => None end) l.

Definition _refreshEntities (entities : list ObjRef) : M Completion :=
  let* started := refresh_start entities in
  let* late := refresh_finish started in
  match lefts started ++ late with
  | err :: _ => ret (Failed err)
  | [] => ret (Completed VUndefined)
  end.

(** [_refresh] *)
Definition _refresh (obj : ObjRef) : M Completion :=
  match _findReferencedEntities obj PropertyFlags.CascadeRefresh with
  | inl err => ret (Failed err)
  | inr entities => _refreshEntities entities
  end.

(** [_getAllObjectLinks]: the links of the table in the enumeration order
    of its keys, which the program does not control. *)
Definition _getAllObjectLinks (s : Session) : list LinkRef :=
  (map_to_list (_objectLinks s)).*2.

(** The test of the first loop of [_flush]. *)
Definition needs_dirtyCheck (l : ObjectLinks) : bool :=
  bool_decide (scheduledOperation l = DirtyCheck)
  || (bool_decide (Persister.changeTracking (persister l) = DeferredImplicit)
      && op_falsy (scheduledOperation l)).

(** The three loops of [_flush] over [list].  Each returns the batch and,
    when it left [_flush] through [return callback(result.error)], the
    error. *)
Fixpoint dirtyCheck_pass (list : list LinkRef) (batch : Batch)
  : M (Batch * option Error) :=
  match list with
  | [] => ret (batch, None)
  | lr :: rest =>
      let* l := deref lr in
      if needs_dirtyCheck l then
        let result :=
          Persister.dirtyCheck (persister l) (object l) (originalDocument l) in
        let batch' :=
          batch ++ [CallDirtyCheck (object l) (originalDocument l)] in
        match error result with
        | Some err => ret (batch', Some err)
        | None =>
            update lr (set_originalDocument (value result)) ;;;
            dirtyCheck_pass rest batch'
        end
      else dirtyCheck_pass rest batch
  end.

Fixpoint insert_pass (list : list LinkRef) (batch : Batch)
  : M (Batch * option Error) :=
  match list with
  | [] => ret (batch, None)
  | lr :: rest =>
      let* l := deref lr in
      if decide (scheduledOperation l = Insert) then
        let result := Persister.insert (persister l) (object l) in
        let batch' := batch ++ [CallInsert (object l)] in
        match error result with
        | Some err => ret (batch', Some err)
        | None =>
            update lr (set_originalDocument (value result)) ;;;
            insert_pass rest batch'
        end
      else insert_pass rest batch
  end.

Fixpoint remove_pass (list : list LinkRef) (batch : Batch) : M Batch :=
  match list with
  | [] => ret batch
  | lr :: rest =>
      let* l := deref lr in
      if decide (scheduledOperation l = Delete)
      then remove_pass rest (batch ++ [CallRemove (object l)])
      else remove_pass rest batch
  end.

(** The body of the loop run by the callback of [batch.execute] when
    there is no error. *)
Definition flush_executed_body (lr : LinkRef) : M (option Completion) :=
  let* l := deref lr in
  (if decide (scheduledOperation l = Delete)
   then _unlinkObject lr else ret tt) ;;;
  update lr (set_scheduledOperation OpNone) ;;;
  ret None.

(** The part of [_flush] before [batch.execute]: a new batch and the
    three loops in turn. *)
Definition _flush_assemble (list : list LinkRef) : M (Batch * option Error) :=
  let* r1 := dirtyCheck_pass list [] in
  match r1 with
  | (batch, Some err) => ret (batch, Some err)
  | (batch, None) =>
      let* r2 := insert_pass list batch in
      match r2 with
      | (batch, Some err) => ret (batch, Some err)
      | (batch, None) =>
          let* batch := remove_pass list batch in
          ret (batch, None)
      end
  end.

(** [_flush], returning the batch it built together with what its
    callback received. *)
Definition _flush : M (Batch * Completion) :=
  let* list := gets _getAllObjectLinks in
  let* r := _flush_assemble list in
  match r with
  | (batch, Some err) => ret (batch, Failed err)
  | (batch, None) =>
      match Batch_execute env batch with
      | Some err => ret (batch, Failed err)
      | None =>
          let* r := for_each flush_executed_body list in
          ret (batch, then_callback r)
      end
  end.

(** [_fetchPaths]: the callback is scheduled only when [paths] is missing
    or empty. *)
Definition _fetchPaths (obj : Value) (paths : option (list string))
  : Completion :=
  match paths with
  | None => Completed obj
  | Some [] => Completed obj
  | Some (_ :: _) => NotCalled
  end.

(** [_fetch] *)
Definition _fetch (obj : Target) (paths : option (list string))
  : Completion :=
  match obj with
  | TReference r =>
      match Reference_fetch env r with
      | inl err => Failed err
      | inr entity => _fetchPaths (VEntity entity) paths
      end
  | TEntity o => _fetchPaths (VEntity o) paths
  end.

(** [_clear] *)
Definition _clear : M Completion :=
  modify (with_objectLinks (fun _ => ∅)) ;;;
  ret (Completed VUndefined).

(** [_find] *)
Definition _find (ctr : Constructor) (id : IdArg) : M Completion :=
  let* p := _getPersisterForConstructor ctr in
  match p with
  | None => ret (Failed not_mapped)
  | Some persister =>
      let id' :=
        match id with
        | IdString str => fromString (Persister.identity persister) str
        | IdValue i => i
        end in
      ret (Persister.findOneById persister id')
  end.

(** [_execute]: the [switch] has no case for [Action.Refresh] (nor for
    [Action.Merge]), so such a task falls through it.  An [arg] of a shape
    that no public method pairs with the action is a [TypeError]. *)
Definition _execute (action : Action) (arg : Arg) : M Completion :=
  match action, arg with
  | Save, ArgObject obj => _save obj
  | Remove, ArgObject obj => _remove obj
  | Detach, ArgObject obj => _detach obj
  | Clear, _ => _clear
  | Flush, _ => let* r := _flush in ret r.2
  | Find, ArgFind ctr id => _find ctr id
  | Fetch, ArgFetch obj paths => ret (_fetch obj paths)
  | Refresh, _ => ret NotCalled
  | Merge, _ => ret NotCalled
  | _, _ => throw TypeError
  end.

(** What the queue does with a task when it dispatches it. *)
Definition run (t : Task) : M Completion := _execute (action t) (arg t).

End SessionImpl.

(** ** Vocabulary of the statements

    The sessions that the steps of the operations produce, written out,
    and the predicates the theorems speak about. *)

(** The cache of persisters after [getPersister], and its answer. *)
Definition cached (env : Environment) (mapping : EntityMapping) (s : Session)
  : Session :=
  match _persisterByMapping s !! mapping_id mapping with
  | Some _ => s
  | None =>
      with_persisterByMapping
        (<[mapping_id mapping := createPersister (factory env) mapping]>) s
  end.

Definition persister_of (env : Environment) (mapping : EntityMapping)
    (s : Session) : Persister.t :=
  match _persisterByMapping s !! mapping_id mapping with
  | Some p => p
  | None => createPersister (factory env) mapping
  end.

(** The link record [_linkObject] creates, and the session after it. *)
Definition new_link (obj : ObjRef) (p : Persister.t)
    (operation : ScheduledOperation) : ObjectLinks :=
  {| state := Managed; scheduledOperation := operation; object := obj;
     originalDocument := None; persister := p |}.

Definition linked (id : Identifier) (l : ObjectLinks) (s : Session) : Session :=
  let lr := fresh (dom (links s)) in
  with_objectLinks (<[toString id := lr]>) (with_links (<[lr := l]>) s).

(** The session after [_unlinkObject] of a link to an entity with
    identifier [id]. *)
Definition unlinked (l : ObjectLinks) (id : Identifier) (s : Session) : Session :=
  let s' := with_objectLinks (delete (toString id)) s in
  if decide (scheduledOperation l = Insert ∨ state l = Removed)
  then with_id (delete (object l)) s' else s'.

(** The link [_getObjectLinks] creates for an entity that has an
    identifier but no link. *)
Definition detached_link (obj : ObjRef) (p : Persister.t) : ObjectLinks :=
  set_state Detached (new_link obj p OpNone).

(** ** Well-formed sessions

    What the operations maintain: every key of the identity table leads to
    a link record whose entity carries an identifier that stringifies to
    that key; a link scheduled for [Delete] is [Removed]; a [Detached] link
    has nothing scheduled. *)
Definition link_ok (s : Session) (k : string) (l : ObjectLinks) : Prop :=
  (∃ id, _id s !! object l = Some id ∧ toString id = k) ∧
  (scheduledOperation l = Delete → state l = Removed) ∧
  (state l = Detached → scheduledOperation l = OpNone).

Definition wf (s : Session) : Prop :=
  ∀ k lr, _objectLinks s !! k = Some lr →
    ∃ l, links s !! lr = Some l ∧ link_ok s k l.

(** The states a session goes through, whatever its collaborators answer:
    tasks dispatched to [_execute] (those that [save], [remove],
    [refresh], [detach], [find], [fetch], [flush] and [clear] enqueue),
    persisters registering loaded entities, and code outside the session
    giving an identifier to an entity that has none.  [contains], [getId],
    [getObject] and [getReference] only read the session. *)
Inductive reachable : Session → Prop :=
  | reach_new ids : reachable (new_session ids)
  | reach_execute env a x s :
      reachable s → reachable (_execute env a x s).1
  | reach_registerManaged p entity document s :
      reachable s → reachable (registerManaged p entity document s).1
  | reach_assign obj id s :
      reachable s → _id s !! obj = None →
      reachable (with_id (<[obj := id]>) s).

(** The ways [_getObjectLinks] ends in a well-formed session: no link
    ([undefined]), the link found in the table, an inherited member, or a
    new [Detached] link stored in the table. *)
Inductive lookup_case (env : Environment) (obj : ObjRef) (s : Session)
  : Session * Outcome (option Links) → Prop :=
  | lookup_no_id :
      _id s !! obj = None → lookup_case env obj s (s, Return None)
  | lookup_unmapped id :
      _id s !! obj = Some id → _objectLinks s !! toString id = None →
      getMappingForObject (factory env) obj = None →
      lookup_case env obj s (s, Return None)
  | lookup_found id lr l :
      _id s !! obj = Some id → _objectLinks s !! toString id = Some lr →
      links s !! lr = Some l → link_ok s (toString id) l →
      lookup_case env obj s (s, Return (Some (Linked lr)))
  | lookup_member id :
      _id s !! obj = Some id → _objectLinks s !! toString id = None →
      inherited (toString id) = true →
      lookup_case env obj s (s, Return (Some (Member (toString id))))
  | lookup_detached id m :
      _id s !! obj = Some id → _objectLinks s !! toString id = None →
      inherited (toString id) = false →
      getMappingForObject (factory env) obj = Some m →
      lookup_case env obj s
        (linked id (detached_link obj (persister_of env m s)) (cached env m s),
         Return (Some (Linked (fresh (dom (links s)))))).

(** Two sessions that differ at most in the [originalDocument] of their
    link records. *)
Definition same_link (l l' : ObjectLinks) : Prop :=
  state l' = state l ∧ scheduledOperation l' = scheduledOperation l ∧
  object l' = object l ∧ persister l' = persister l.

Definition same_schedule (s s' : Session) : Prop :=
  _objectLinks s' = _objectLinks s ∧
  _persisterByMapping s' = _persisterByMapping s ∧
  _id s' = _id s ∧
  generated s' = generated s ∧
  ∀ lr, match links s !! lr, links s' !! lr with
        | Some l, Some l' => same_link l l'
        | None, None => True
        | _, _ => False
        end.

(** The persister calls a flush makes for one link record, as read when
    the flush starts. *)
Definition dirtyCheck_result (l : ObjectLinks) : Result :=
  Persister.dirtyCheck (persister l) (object l) (originalDocument l).

Definition insert_result (l : ObjectLinks) : Result :=
  Persister.insert (persister l) (object l).

(** The call one loop of [_flush] makes for the link [lr], if any: the
    loop tests the record with [test] and, when the test holds, makes the
    call [call]. *)
Definition pass_call (test : ObjectLinks → bool) (call : ObjectLinks → BatchCall)
    (s : Session) (lr : LinkRef) : option BatchCall :=
  match links s !! lr with
  | Some l => if test l then Some (call l) else None
  | None => None
  end.

Definition dirtyCheck_of (l : ObjectLinks) : BatchCall :=
  CallDirtyCheck (object l) (originalDocument l).
Definition insert_of (l : ObjectLinks) : BatchCall := CallInsert (object l).
Definition remove_of (l : ObjectLinks) : BatchCall := CallRemove (object l).

Definition scheduled (op : ScheduledOperation) (l : ObjectLinks) : bool :=
  bool_decide (scheduledOperation l = op).

Definition dirtyCheck_call : Session → LinkRef → option BatchCall :=
  pass_call needs_dirtyCheck dirtyCheck_of.
Definition insert_call : Session → LinkRef → option BatchCall :=
  pass_call (scheduled Insert) insert_of.
Definition remove_call : Session → LinkRef → option BatchCall :=
  pass_call (scheduled Delete) remove_of.

(** The common shape of the first two loops of [_flush]. *)
Fixpoint call_pass (test : ObjectLinks → bool) (call : ObjectLinks → BatchCall)
    (result : ObjectLinks → Result) (list : list LinkRef) (batch : Batch)
  : M (Batch * option Error) :=
  match list with
  | [] => ret (batch, None)
  | lr :: rest =>
      let* l := deref lr in
      if test l then
        match error (result l) with
        | Some err => ret (batch ++ [call l], Some err)
        | None =>
            update lr (set_originalDocument (value (result l))) ;;;
            call_pass test call result rest (batch ++ [call l])
        end
      else call_pass test call result rest batch
  end.

(** The batch of a flush that starts in [s]: the dirty checks, then the
    inserts, then the deletes, each group in the order of [list]. *)
Definition expected_batch (s : Session) (list : list LinkRef) : Batch :=
  omap (dirtyCheck_call s) list ++ omap (insert_call s) list
  ++ omap (remove_call s) list.

Definition is_dirtyCheck (c : BatchCall) : Prop :=
  match c with CallDirtyCheck _ _ => True | _ => False end.
Definition is_insert (c : BatchCall) : Prop :=
  match c with CallInsert _ => True | _ => False end.
Definition is_remove (c : BatchCall) : Prop :=
  match c with CallRemove _ => True | _ => False end.

(** No persister call of a flush over [list] that starts in [s] reports
    an error. *)
Definition no_persister_error (s : Session) (list : list LinkRef) : Prop :=
  ∀ lr l, lr ∈ list → links s !! lr = Some l →
    (needs_dirtyCheck l = true → error (dirtyCheck_result l) = None) ∧
    (scheduledOperation l = Insert → error (insert_result l) = None).

(** The entity a call on the batch is about. *)
Definition call_object (c : BatchCall) : ObjRef :=
  match c with
  | CallDirtyCheck obj _ => obj
  | CallInsert obj => obj
  | CallRemove obj => obj
  end.

(** No link of the identity table is a link to [obj]. *)
Definition not_linked (obj : ObjRef) (s : Session) : Prop :=
  ∀ k lr l, _objectLinks s !! k = Some lr → links s !! lr = Some l →
    object l ≠ obj.

(** The session after [_saveEntities] has met the entity [obj], which had
    no [_id], and has given it an identifier and a link. *)
Definition saved_new (env : Environment) (obj : ObjRef) (m : EntityMapping)
    (s : Session) : Session :=
  let p := persister_of env m s in
  let g := generate (Persister.identity p) (generated s) in
  linked g (new_link obj p Insert)
    (with_id (<[obj := g]>) (with_generated S (cached env m s))).

(** The entity [obj] carries the identifier [id], and the table holds
    under that identifier a link to [obj] in state [st], scheduled for
    [op]. *)
Definition linked_as (obj : ObjRef) (id : Identifier) (st : ObjectState)
    (op : ScheduledOperation) (s : Session) : Prop :=
  _id s !! obj = Some id ∧
  ∃ lr l, _objectLinks s !! toString id = Some lr ∧ links s !! lr = Some l ∧
          object l = obj ∧ state l = st ∧ scheduledOperation l = op.

(** ** A small application, for examples

    One mapped class whose identifiers are "a", "aa", "aaa", ...; every
    walk reaches the entity it starts from and nothing else. *)
Fixpoint letters (n : nat) : string :=
  match n with
  | 0 => "a"
  | S n => "a" +:+ letters n
  end.

Definition demo_identity : IdentityGenerator :=
  {| generate := fun n => Id (letters n); fromString := Id |}.

Definition demo_persister (tracking : ChangeTracking) : Persister.t :=
  {| Persister.changeTracking := tracking;
     Persister.identity := demo_identity;
     Persister.dirtyCheck := fun obj _ =>
       {| error := None; value := Some (100 + obj) |};
     Persister.insert := fun obj => {| error := None; value := Some obj |};
     Persister.refresh := fun obj => inr (200 + obj);
     Persister.findOneById := fun _ => Completed VUndefined |}.

Definition demo_mapping : EntityMapping :=
  {| mapping_id := 0; mapping_identity := demo_identity |}.

Definition demo_factory (tracking : ChangeTracking) : InternalSessionFactory :=
  {| getMappingForObject := fun _ => Some demo_mapping;
     getMappingForConstructor := fun _ => Some demo_mapping;
     createPersister := fun _ => demo_persister tracking |}.

(** [batch_error] is what every [batch.execute] reports. *)
Definition demo_env (tracking : ChangeTracking) (batch_error : option Error)
  : Environment :=
  {| factory := demo_factory tracking;
     walk := fun _ obj _ => inr [obj];
     Reference_fetch := fun _ => inl "Unable to resolve reference."%string;
     Batch_execute := fun _ => batch_error |}.

(** The session after each task of a sequence, over a list of tasks. *)
Definition run_all (env : Environment) (tasks : list Task) (s : Session)
  : Session :=
  foldl (fun s t => (run env t s).1) s tasks.

(** Entities 1 and 3 are saved and flushed; then 1 is saved again (under
    explicit change tracking this schedules a dirty check), 3 is removed
    and the new entity 2 is saved. *)
Definition demo_busy : Session :=
  run_all (demo_env DeferredExplicit None)
    [save 1; save 3; flush; save 1; remove 3; save 2] (new_session ∅).

(** Entity 1 was saved and not yet flushed. *)
Definition demo_unflushed : Session :=
  run_all (demo_env DeferredImplicit None) [save 1] (new_session ∅).

(** ** Further vocabulary

    How the state of a link and its scheduled operation go together: a
    [Removed] link is scheduled for [Delete], only a [Managed] link is
    scheduled for [Insert], and [Update] is never scheduled. *)
Definition schedule_ok (l : ObjectLinks) : Prop :=
  (state l = Removed → scheduledOperation l = Delete) ∧
  (scheduledOperation l = Insert → state l = Managed) ∧
  scheduledOperation l ≠ Update.

Definition schedules_ok (s : Session) : Prop :=
  ∀ k lr l, _objectLinks s !! k = Some lr → links s !! lr = Some l →
    schedule_ok l.

(** Entity 1 was saved and flushed, under explicit change tracking. *)
Definition demo_persisted : Session :=
  run_all (demo_env DeferredExplicit None) [save 1; flush] (new_session ∅).

(** The record of a link after the first two loops of [_flush]: a
    dirty-checked or inserted link has the value its persister returned
    as [originalDocument]. *)
Definition flush_snapshot (l : ObjectLinks) : ObjectLinks :=
  if needs_dirtyCheck l
  then set_originalDocument (value (dirtyCheck_result l)) l
  else if scheduled Insert l
       then set_originalDocument (value (insert_result l)) l
       else l.

(** ** BooleanMapping

    The values a mapping reads and writes, as far as [read] and [write]
    tell them apart, and the context they report errors to, represented
    by the messages passed to its [addError], in order. *)
Module BooleanMapping.

Inductive JsValue :=
  | JsUndefined
  | JsNull
  | JsBoolean (b : bool)
  | JsNumber (n : Z)
  | JsString (s : string)
  | JsObject (o : nat).

(** [typeof value] *)
Definition typeof (value : JsValue) : string :=
  match value with
  | JsUndefined => "undefined"
  | JsNull => "object"
  | JsBoolean _ => "boolean"
  | JsNumber _ => "number"
  | JsString _ => "string"
  | JsObject _ => "object"
  end.

(** [value == null] *)
Definition loosely_null (value : JsValue) : bool :=
  match value with
  | JsUndefined | JsNull => true
  | _ => false
  end.

Definition Context := list string.

Definition addError (message : string) (context : Context) : Context :=
  context ++ [message].

(** [read] *)
Definition read (context : Context) (value : JsValue) : Context * JsValue :=
  if loosely_null value then (context, JsNull)
  else if negb (String.eqb (typeof value) "boolean")
       then (addError "Expected boolean." context, JsUndefined)
       else (context, value).

(** [write] *)
Definition write (context : Context) (value : JsValue) : Context * JsValue :=
  if loosely_null value then (context, JsNull)
  else if negb (String.eqb (typeof value) "boolean")
       then (addError "Expected boolean." context, JsUndefined)
       else (context, value).

End BooleanMapping.

(** ** The earlier session

    The revision of [SessionImpl] that works synchronously: [_persist],
    [remove] and [detach] report by throwing, the session counts its
    links in [_objectLinksCount], and [flush] hands inserts, updates and
    deletes to a [DocumentPersister].  The operations on the object graph
    ([persist], [find], [_load] and the walkers) depend on the reflection
    library and on the collections and are not part of the embedding. *)
Module Legacy.

(** [TypeMapping], as far as these methods use it.  [generateIdentifier]
    takes the number of identifiers generated so far. *)
Record TypeMapping := {
  hasChangeTracking : ChangeTracking → bool;
  generateIdentifier : nat → Identifier
}.

(** [interface ObjectLinks]; [scheduledOperation] is of [enum Operation],
    which has the members of [ScheduledOperation]. *)
Record ObjectLinks := {
  state : ObjectState;
  scheduledOperation : ScheduledOperation;
  object : ObjRef;
  originalDocument : option Document;
  mapping : TypeMapping
}.

Definition set_state (st : ObjectState) (l : ObjectLinks) : ObjectLinks :=
  {| state := st; scheduledOperation := scheduledOperation l;
     object := object l; originalDocument := originalDocument l;
     mapping := mapping l |}.

Definition set_scheduledOperation (op : ScheduledOperation) (l : ObjectLinks)
  : ObjectLinks :=
  {| state := state l; scheduledOperation := op;
     object := object l; originalDocument := originalDocument l;
     mapping := mapping l |}.

Record Session := {
  _objectLinks : gmap string LinkRef;
  _objectLinksCount : Z;
  links : gmap LinkRef ObjectLinks;
  _id : gmap ObjRef Identifier;
  generated : nat
}.

Definition with_objectLinks (f : gmap string LinkRef → gmap string LinkRef)
    (s : Session) : Session :=
  {| _objectLinks := f (_objectLinks s);
     _objectLinksCount := _objectLinksCount s;
     links := links s; _id := _id s; generated := generated s |}.

Definition with_objectLinksCount (f : Z → Z) (s : Session) : Session :=
  {| _objectLinks := _objectLinks s;
     _objectLinksCount := f (_objectLinksCount s);
     links := links s; _id := _id s; generated := generated s |}.

Definition with_links (f : gmap LinkRef ObjectLinks → gmap LinkRef ObjectLinks)
    (s : Session) : Session :=
  {| _objectLinks := _objectLinks s;
     _objectLinksCount := _objectLinksCount s;
     links := f (links s); _id := _id s; generated := generated s |}.

Definition with_id (f : gmap ObjRef Identifier → gmap ObjRef Identifier)
    (s : Session) : Session :=
  {| _objectLinks := _objectLinks s;
     _objectLinksCount := _objectLinksCount s;
     links := links s; _id := f (_id s); generated := generated s |}.

Definition with_generated (f : nat → nat) (s : Session) : Session :=
  {| _objectLinks := _objectLinks s;
     _objectLinksCount := _objectLinksCount s;
     links := links s; _id := _id s; generated := f (generated s) |}.

Definition new_session (ids : gmap ObjRef Identifier) : Session :=
  {| _objectLinks := ∅; _objectLinksCount := 0; links := ∅;
     _id := ids; generated := 0 |}.

(** Computations over this session. *)
Definition M (A : Type) : Type := Session → Session * Outcome A.

Definition ret {A} (a : A) : M A := fun s => (s, Return a).
Definition throw {A} (e : Error) : M A := fun s => (s, Throw e).
Definition bind {A B} (m : M A) (f : A → M B) : M B :=
  fun s => match m s with
           | (s', Return a) => f a s'
           | (s', Throw e) => (s', Throw e)
           end.
Definition gets {A} (f : Session → A) : M A := fun s => (s, Return (f s)).
Definition modify (f : Session → Session) : M unit :=
  fun s => (f s, Return tt).

Declare Scope legacy_scope.
Delimit Scope legacy_scope with legacy.
Notation "'let*' x ':=' m 'in' k" := (bind m (fun x => k))
  (at level 10, x pattern, m at level 100, k at level 200) : legacy_scope.
Notation "m ';;;' k" := (bind m (fun _ => k))
  (at level 100, k at level 200, right associativity) : legacy_scope.
Local Open Scope legacy_scope.

Definition deref (lr : LinkRef) : M ObjectLinks :=
  fun s => match links s !! lr with
           | Some l => (s, Return l)
           | None => (s, Throw TypeError)
           end.

Definition update (lr : LinkRef) (f : ObjectLinks → ObjectLinks) : M unit :=
  let* l := deref lr in
  modify (with_links (<[lr := f l]>)).

Definition alloc (l : ObjectLinks) : M LinkRef :=
  fun s => let lr := fresh (dom (links s)) in
           (with_links (<[lr := l]>) s, Return lr).

(** The calls made on the [DocumentPersister] of a flush. *)
Inductive PersisterCall :=
  | AddInsert (obj : ObjRef) (mapping : TypeMapping)
  | AddUpdate (obj : ObjRef) (mapping : TypeMapping)
  | AddDelete (obj : ObjRef) (mapping : TypeMapping).

(** The mapping registry, and what [persister.execute] passes to its
    callback after the given calls. *)
Record Environment := {
  getMappingForObject : ObjRef → option TypeMapping;
  execute : list PersisterCall → Completion
}.

Definition not_mapped : Error := "Object is not mapped as a document type.".
Definition detached_persist : Error := "Cannot persist a detached object.".
Definition detached_remove : Error := "Cannot remove a detached object.".
Definition RangeError : Error := "RangeError".

Section SessionImpl.

Variable env : Environment.

(** [_linkObject]: the count is incremented before the key is computed,
    and a link already stored under the key is replaced. *)
Definition _linkObject (obj : ObjRef) (mapping : option TypeMapping)
    (operation : ScheduledOperation) : M LinkRef :=
  let* m :=
    match mapping with
    | Some m => ret m
    | None =>
        match getMappingForObject env obj with
        | Some m => ret m
        | None => throw not_mapped
        end
    end in
  let* lr := alloc {| state := Managed; scheduledOperation := operation;
                      object := obj; originalDocument := None;
                      mapping := m |} in
  modify (with_objectLinksCount (fun n => n + 1)%Z) ;;;
  let* oid := gets (fun s => _id s !! obj) in
  match oid with
  | None => throw TypeError
  | Some i =>
      modify (with_objectLinks (<[toString i := lr]>)) ;;;
      ret lr
  end.

(** [_clearIdentifier] *)
Definition _clearIdentifier (obj : ObjRef) : M unit :=
  modify (with_id (delete obj)).

(** [_unlinkObject] *)
Definition _unlinkObject (lr : LinkRef) : M unit :=
  modify (with_objectLinksCount (fun n => n - 1)%Z) ;;;
  let* l := deref lr in
  let* oid := gets (fun s => _id s !! object l) in
  match oid with
  | None => throw TypeError
  | Some i =>
      modify (with_objectLinks (delete (toString i))) ;;;
      if decide (scheduledOperation l = Insert ∨ state l = Removed)
      then _clearIdentifier (object l)
      else ret tt
  end.

(** [_getObjectLinks]: [None] is [undefined].  The table is a plain
    object here too: when it has no link under the identifier and
    inherits a member of that name, the member is returned. *)
Definition _getObjectLinks (obj : ObjRef) : M (option Links) :=
  let* oid := gets (fun s => _id s !! obj) in
  match oid with
  | Some id =>
      let* table := gets _objectLinks in
      match table !! toString id with
      | Some lr => ret (Some (Linked lr))
      | None =>
          if inherited (toString id) then ret (Some (Member (toString id)))
          else
            let* lr := _linkObject obj None OpNone in
            update lr (set_state Detached) ;;;
            ret (Some (Linked lr))
      end
  | None => ret None
  end.

(** [_persist]; the [switch] matches no case for an inherited
    member. *)
Definition _persist (obj : ObjRef) : M unit :=
  let* links := _getObjectLinks obj in
  match links with
  | None =>
      match getMappingForObject env obj with
      | None => throw not_mapped
      | Some mapping =>
          let* n := gets generated in
          modify (with_generated S) ;;;
          modify (with_id (<[obj := generateIdentifier mapping n]>)) ;;;
          _linkObject obj (Some mapping) Insert ;;;
          ret tt
      end
  | Some (Linked lr) =>
      let* l := deref lr in
      match state l with
      | Managed =>
          if hasChangeTracking (mapping l) DeferredExplicit
             && op_falsy (scheduledOperation l)
          then update lr (set_scheduledOperation DirtyCheck)
          else ret tt
      | Detached => throw detached_persist
      | Removed =>
          update lr (set_scheduledOperation OpNone) ;;;
          update lr (set_state Managed)
      end
  | Some (Member _) => ret tt
  end.

(** [remove] *)
Definition remove (obj : ObjRef) : M unit :=
  let* links := _getObjectLinks obj in
  match links with
  | None => ret tt
  | Some (Member _) => ret tt
  | Some (Linked lr) =>
      let* l := deref lr in
      match state l with
      | Managed =>
          if decide (scheduledOperation l = Insert)
          then _unlinkObject lr
          else update lr (set_scheduledOperation Delete) ;;;
               update lr (set_state Removed)
      | Detached => throw detached_remove
      | Removed => ret tt
      end
  end.

(** [detach] *)
Definition detach (obj : ObjRef) : M unit :=
  let* links := _getObjectLinks obj in
  match links with
  | None => ret tt
  | Some (Member _) => ret tt
  | Some (Linked lr) =>
      let* l := deref lr in
      if decide (state l = Managed) then _unlinkObject lr else ret tt
  end.

(** [_getAllObjectLinks]: an array of [_objectLinksCount] elements,
    filled from its start with the links of the table in the enumeration
    order of the keys; it grows when there are more keys than that, and
    keeps holes ([None]) at its end when there are fewer.  [new Array]
    of a negative length throws. *)
Definition _getAllObjectLinks : M (list (option LinkRef)) :=
  let* count := gets _objectLinksCount in
  if (count <? 0)%Z then throw RangeError
  else
    let* table := gets _objectLinks in
    let found := (map_to_list table).*2 in
    ret ((Some <$> found)
         ++ replicate (Z.to_nat count - length found) None).

(** One loop of [flush]: [list[i].scheduledOperation] of a hole
    throws. *)
Fixpoint add_pass (operation : ScheduledOperation)
    (add : ObjRef → TypeMapping → PersisterCall)
    (array : list (option LinkRef)) (calls : list PersisterCall)
  : M (list PersisterCall) :=
  match array with
  | [] => ret calls
  | None :: _ => throw TypeError
  | Some lr :: rest =>
      let* l := deref lr in
      if decide (scheduledOperation l = operation)
      then add_pass operation add rest (calls ++ [add (object l) (mapping l)])
      else add_pass operation add rest calls
  end.

(** [flush], returning the calls made on the persister together with
    what the callback received. *)
Definition flush : M (list PersisterCall * Completion) :=
  let* array := _getAllObjectLinks in
  let* calls := add_pass Insert AddInsert array [] in
  let* calls := add_pass Update AddUpdate array calls in
  let* calls := add_pass Delete AddDelete array calls in
  ret (calls, execute env calls).

End SessionImpl.

(** What the operations maintain when identifiers are generated fresh:
    every key of the table leads to a link record whose entity carries
    an identifier that stringifies to that key, [Update] is never
    scheduled, and [_objectLinksCount] is the number of keys. *)
Definition link_ok (s : Session) (k : string) (l : ObjectLinks) : Prop :=
  (∃ id, _id s !! object l = Some id ∧ toString id = k) ∧
  scheduledOperation l ≠ Update.

Definition wf (s : Session) : Prop :=
  (∀ k lr, _objectLinks s !! k = Some lr →
     ∃ l, links s !! lr = Some l ∧ link_ok s k l) ∧
  _objectLinksCount s = Z.of_nat (size (_objectLinks s)).

(** The session after [_linkObject] has stored the record [l] for an
    entity with identifier [id], and after [_unlinkObject] of the record
    [l] of such an entity. *)
Definition linked (id : Identifier) (l : ObjectLinks) (s : Session) : Session :=
  let lr := fresh (dom (links s)) in
  with_objectLinks (<[toString id := lr]>)
    (with_objectLinksCount (fun n => n + 1)%Z (with_links (<[lr := l]>) s)).

Definition unlinked (l : ObjectLinks) (id : Identifier) (s : Session) : Session :=
  let s' := with_objectLinks (delete (toString id))
              (with_objectLinksCount (fun n => n - 1)%Z s) in
  if decide (scheduledOperation l = Insert ∨ state l = Removed)
  then with_id (delete (object l)) s' else s'.

Definition new_link (obj : ObjRef) (m : TypeMapping)
    (operation : ScheduledOperation) : ObjectLinks :=
  {| state := Managed; scheduledOperation := operation; object := obj;
     originalDocument := None; mapping := m |}.

(** The identifier [_persist] would generate for [obj] is not a key of
    the table. *)
Definition generates_fresh (env : Environment) (obj : ObjRef) (s : Session)
  : Prop :=
  ∀ m, _id s !! obj = None → getMappingForObject env obj = Some m →
    _objectLinks s !! toString (generateIdentifier m (generated s)) = None.


(** The sessions reached by [_persist], [remove], [detach] and [flush]
    when the identifiers generated are not yet keys of the table. *)
Inductive reachable (env : Environment) : Session → Prop :=
  | reach_new ids : reachable env (new_session ids)
  | reach_persist obj s :
      reachable env s → generates_fresh env obj s →
      reachable env (_persist env obj s).1
  | reach_remove obj s :
      reachable env s → reachable env (remove env obj s).1
  | reach_detach obj s :
      reachable env s → reachable env (detach env obj s).1
  | reach_flush s :
      reachable env s → reachable env (flush env s).1.

(** An application with one mapping. *)
Definition demo_mapping : TypeMapping :=
  {| hasChangeTracking := fun t => bool_decide (t = DeferredImplicit);
     generateIdentifier := fun n => Id (letters n) |}.

Definition demo_env : Environment :=
  {| getMappingForObject := fun _ => Some demo_mapping;
     execute := fun _ => Completed VUndefined |}.

End Legacy.

(** The flags of [PropertyFlags] other than [None] and [CascadeAll], each
    with the number of its bit. *)
Definition PropertyFlags_bits : list (Z * Z) :=
  [(PropertyFlags.Ignored, 0); (PropertyFlags.CascadeSave, 1);
   (PropertyFlags.CascadeRemove, 2); (PropertyFlags.CascadeDetach, 3);
   (PropertyFlags.CascadeRefresh, 4); (PropertyFlags.CascadeMerge, 5);
   (PropertyFlags.InverseSide, 6); (PropertyFlags.Nullable, 7);
   (PropertyFlags.OrphanRemoval, 8); (PropertyFlags.Dereference, 9)]%Z.

(** A computation keeps [I] when it leads from a session that satisfies
    [I] to one that does. *)
Definition keeps {A} (I : Session → Prop) (m : M A) : Prop :=
  ∀ s, I s → I (m s).1.

(** The session caches the persisters of [c]. *)
Definition caches (c : gmap nat Persister.t) (s : Session) : Prop :=
  ∀ k p, c !! k = Some p → _persisterByMapping s !! k = Some p.

(** No key of the identity table is the name of a member the table
    object inherits. *)
Definition own_keys (s : Session) : Prop :=
  ∀ k lr, _objectLinks s !! k = Some lr → inherited k = false.

(** An application in which the class of object 0 is not mapped. *)
Definition demo_partial_env : Environment :=
  {| factory :=
       {| getMappingForObject := fun obj =>
            match obj with 0 => None | _ => Some demo_mapping end;
          getMappingForConstructor := fun ctr =>
            match ctr with 0 => None | _ => Some demo_mapping end;
          createPersister := fun _ => demo_persister DeferredImplicit |};
     walk := fun _ obj _ => inr [obj];
     Reference_fetch := fun _ => inl "Unable to resolve reference."%string;
     Batch_execute := fun _ => None |}.

(** ** Basic facts about well-formed sessions *)

Lemma wf_new ids : wf (new_session ids).
Proof. intros k lr H. simpl in H. by rewrite lookup_empty in H. Qed.

Lemma wf_ext s s' :
  _objectLinks s' = _objectLinks s → links s' = links s → _id s' = _id s →
  wf s → wf s'.
Proof.
  intros Ht Hl Hi Hwf k lr Hk. rewrite Ht in Hk.
  destruct (Hwf k lr Hk) as (l & Hlr & (id & Hid & Hs) & Hd & Hdet).
  exists l. rewrite Hl. split; [done|]. split; [|done].
  exists id. by rewrite Hi.
Qed.

Lemma wf_key s k lr l :
  wf s → _objectLinks s !! k = Some lr → links s !! lr = Some l →
  ∃ id, _id s !! object l = Some id ∧ toString id = k.
Proof.
  intros Hwf Hk Hl. destruct (Hwf k lr Hk) as (l' & Hl' & Hok & _).
  by simplify_eq.
Qed.

Lemma wf_inj s k1 k2 lr :
  wf s → _objectLinks s !! k1 = Some lr → _objectLinks s !! k2 = Some lr →
  k1 = k2.
Proof.
  intros Hwf H1 H2.
  destruct (Hwf k1 lr H1) as (l & Hl & (id & Hid & <-) & _).
  destruct (wf_key s k2 lr l Hwf H2 Hl) as (id' & Hid' & <-).
  by simplify_eq.
Qed.

Lemma wf_clear s : wf (with_objectLinks (fun _ => ∅) s).
Proof. intros k lr H. simpl in H. by rewrite lookup_empty in H. Qed.

Lemma wf_delete_key s k : wf s → wf (with_objectLinks (delete k) s).
Proof.
  intros Hwf k' lr Hk. simpl in *.
  apply lookup_delete_Some in Hk as [_ Hk]. by apply Hwf.
Qed.

Lemma wf_unlink s o id :
  wf s → _id s !! o = Some id →
  wf (with_id (delete o) (with_objectLinks (delete (toString id)) s)).
Proof.
  intros Hwf Ho k lr Hk. simpl in *.
  apply lookup_delete_Some in Hk as [Hne Hk].
  destruct (Hwf k lr Hk) as (l & Hl & (id' & Hid' & Hs) & Hrest).
  exists l. split; [done|]. split; [|done].
  exists id'. split; [|done]. simpl.
  rewrite lookup_delete_ne; [done|]. intros ->. simplify_eq.
Qed.

Lemma wf_update s lr l l' :
  wf s → links s !! lr = Some l → object l' = object l →
  ((scheduledOperation l = Delete → state l = Removed) →
   scheduledOperation l' = Delete → state l' = Removed) →
  ((state l = Detached → scheduledOperation l = OpNone) →
   state l' = Detached → scheduledOperation l' = OpNone) →
  wf (with_links (<[lr := l']>) s).
Proof.
  intros Hwf Hl Hobj Hd Hdet k lr' Hk. simpl in *.
  destruct (Hwf k lr' Hk) as (l0 & Hl0 & (id & Hid & Hs) & Hd0 & Hdet0).
  destruct (decide (lr = lr')) as [<-|Hne].
  - exists l'. rewrite lookup_insert_eq. split; [done|]. simplify_eq.
    split; [|by auto]. exists id. by rewrite Hobj.
  - exists l0. rewrite lookup_insert_ne; [|done]. split; [done|].
    split; [|done]. by exists id.
Qed.

Lemma wf_link s obj id lr l :
  wf s → _id s !! obj = Some id → links s !! lr = None →
  object l = obj →
  (scheduledOperation l = Delete → state l = Removed) →
  (state l = Detached → scheduledOperation l = OpNone) →
  wf (with_objectLinks (<[toString id := lr]>) (with_links (<[lr := l]>) s)).
Proof.
  intros Hwf Hid Hfresh Hobj Hd Hdet k lr' Hk. simpl in *.
  destruct (decide (toString id = k)) as [<-|Hne].
  - rewrite lookup_insert_eq in Hk. simplify_eq.
    exists l. rewrite lookup_insert_eq. split; [done|]. split; [|done].
    by exists id.
  - rewrite lookup_insert_ne in Hk; [|done].
    destruct (Hwf k lr' Hk) as (l0 & Hl0 & Hok).
    exists l0. rewrite lookup_insert_ne; [done|]. intros ->. congruence.
Qed.

Lemma wf_assign s obj id :
  wf s → _id s !! obj = None → wf (with_id (<[obj := id]>) s).
Proof.
  intros Hwf Hnone k lr Hk. simpl in *.
  destruct (Hwf k lr Hk) as (l & Hl & (id' & Hid' & Hs) & Hrest).
  exists l. split; [done|]. split; [|done]. exists id'. split; [|done].
  simpl. rewrite lookup_insert_ne; [done|]. intros ->. congruence.
Qed.

(** ** Equations for the primitive steps *)

Lemma bind_eq {A B} (m : M A) (f : A → M B) s :
  bind m f s = match m s with
               | (s', Return a) => f a s'
               | (s', Throw e) => (s', Throw e)
               end.
Proof. reflexivity. Qed.

Lemma bind_return {A B} (m : M A) (f : A → M B) s s' a :
  m s = (s', Return a) → bind m f s = f a s'.
Proof. intros H. by rewrite bind_eq, H. Qed.

Lemma bind_throw {A B} (m : M A) (f : A → M B) s s' e :
  m s = (s', Throw e) → bind m f s = (s', Throw e).
Proof. intros H. by rewrite bind_eq, H. Qed.

(** Run the leading [gets], [modify], [ret] and [throw] of a computation
    applied to a session. *)
Ltac mrun := repeat (rewrite bind_eq; cbn [gets modify ret throw]);
             cbn [gets modify ret throw].

Lemma deref_eq lr l s : links s !! lr = Some l → deref lr s = (s, Return l).
Proof. intros H. unfold deref. by rewrite H. Qed.

Lemma deref_none lr s :
  links s !! lr = None → deref lr s = (s, Throw TypeError).
Proof. intros H. unfold deref. by rewrite H. Qed.

Lemma update_eq lr f l s :
  links s !! lr = Some l →
  update lr f s = (with_links (<[lr := f l]>) s, Return tt).
Proof. intros H. unfold update. by rewrite (bind_return _ _ _ _ _ (deref_eq _ _ _ H)). Qed.

Lemma update_none lr f s :
  links s !! lr = None → update lr f s = (s, Throw TypeError).
Proof. intros H. unfold update. by rewrite (bind_throw _ _ _ _ _ (deref_none _ _ H)). Qed.

Lemma getPersister_eq env mapping s :
  getPersister env mapping s
  = (cached env mapping s, Return (persister_of env mapping s)).
Proof.
  unfold getPersister, cached, persister_of.
  rewrite bind_eq. simpl.
  by destruct (_persisterByMapping s !! mapping_id mapping).
Qed.

Lemma cached_objectLinks env m s : _objectLinks (cached env m s) = _objectLinks s.
Proof. unfold cached. by destruct (_ !! _). Qed.
Lemma cached_links env m s : links (cached env m s) = links s.
Proof. unfold cached. by destruct (_ !! _). Qed.
Lemma cached_id env m s : _id (cached env m s) = _id s.
Proof. unfold cached. by destruct (_ !! _). Qed.
Lemma cached_generated env m s : generated (cached env m s) = generated s.
Proof. unfold cached. by destruct (_ !! _). Qed.

Lemma wf_cached env m s : wf s → wf (cached env m s).
Proof.
  apply wf_ext; [apply cached_objectLinks|apply cached_links|apply cached_id].
Qed.

Lemma _getPersisterForObject_eq env obj s :
  _getPersisterForObject env obj s
  = match getMappingForObject (factory env) obj with
    | Some m => (cached env m s, Return (Some (persister_of env m s)))
    | None => (s, Return None)
    end.
Proof.
  unfold _getPersisterForObject.
  destruct (getMappingForObject _ _); [|done].
  by rewrite bind_eq, getPersister_eq.
Qed.

Lemma fresh_link s : links s !! fresh (dom (links s)) = None.
Proof. apply not_elem_of_dom, is_fresh. Qed.

Lemma _linkObject_eq obj p operation id s :
  _id s !! obj = Some id → _objectLinks s !! toString id = None →
  inherited (toString id) = false →
  _linkObject obj p operation s
  = (linked id (new_link obj p operation) s, Return (fresh (dom (links s)))).
Proof.
  intros Hid Hk Hown. unfold _linkObject.
  rewrite bind_eq. simpl. unfold getId. rewrite Hid.
  rewrite bind_eq. simpl. rewrite Hk, Hown. reflexivity.
Qed.

Lemma _linkObject_inherited obj p operation id s :
  _id s !! obj = Some id → inherited (toString id) = true →
  _linkObject obj p operation s = (s, Throw (already_linked (toString id))).
Proof.
  intros Hid Hin. unfold _linkObject.
  rewrite bind_eq. simpl. unfold getId. rewrite Hid.
  rewrite bind_eq. simpl. rewrite Hin.
  by destruct (_objectLinks s !! toString id).
Qed.

Lemma _linkObject_taken obj p operation id lr s :
  _id s !! obj = Some id → _objectLinks s !! toString id = Some lr →
  _linkObject obj p operation s = (s, Throw (already_linked (toString id))).
Proof.
  intros Hid Hk. unfold _linkObject.
  rewrite bind_eq. simpl. unfold getId. rewrite Hid.
  rewrite bind_eq. simpl. rewrite Hk. reflexivity.
Qed.

Lemma _linkObject_no_id obj p operation s :
  _id s !! obj = None → _linkObject obj p operation s = (s, Throw TypeError).
Proof.
  intros Hid. unfold _linkObject.
  rewrite bind_eq. simpl. unfold getId. by rewrite Hid.
Qed.

Lemma wf_linked s obj id l :
  wf s → _id s !! obj = Some id → object l = obj →
  (scheduledOperation l = Delete → state l = Removed) →
  (state l = Detached → scheduledOperation l = OpNone) →
  wf (linked id l s).
Proof.
  intros Hwf Hid Hobj Hd Hdet.
  apply (wf_link s obj id); auto using fresh_link.
Qed.

Lemma _unlinkObject_eq lr l id s :
  links s !! lr = Some l → _id s !! object l = Some id →
  _unlinkObject lr s = (unlinked l id s, Return tt).
Proof.
  intros Hl Hid. unfold _unlinkObject, unlinked.
  rewrite (bind_return _ _ _ _ _ (deref_eq _ _ _ Hl)).
  rewrite bind_eq. simpl. unfold getId. rewrite Hid.
  rewrite bind_eq. simpl. by destruct (decide _).
Qed.

Lemma _unlinkObject_no_id lr l s :
  links s !! lr = Some l → _id s !! object l = None →
  _unlinkObject lr s = (s, Throw TypeError).
Proof.
  intros Hl Hid. unfold _unlinkObject.
  rewrite (bind_return _ _ _ _ _ (deref_eq _ _ _ Hl)).
  rewrite bind_eq. simpl. unfold getId. by rewrite Hid.
Qed.

Lemma wf_unlinked s l id :
  wf s → _id s !! object l = Some id → wf (unlinked l id s).
Proof.
  intros Hwf Hid. unfold unlinked. destruct (decide _).
  - by apply wf_unlink.
  - by apply wf_delete_key.
Qed.

Lemma _getObjectLinks_no_id env obj s :
  _id s !! obj = None → _getObjectLinks env obj s = (s, Return None).
Proof.
  intros Hid. unfold _getObjectLinks. rewrite bind_eq. simpl.
  unfold getId. by rewrite Hid.
Qed.

Lemma _getObjectLinks_found env obj id lr s :
  _id s !! obj = Some id → _objectLinks s !! toString id = Some lr →
  _getObjectLinks env obj s = (s, Return (Some (Linked lr))).
Proof.
  intros Hid Hk. unfold _getObjectLinks. rewrite bind_eq. simpl.
  unfold getId. rewrite Hid. rewrite bind_eq. simpl. by rewrite Hk.
Qed.

Lemma _getObjectLinks_member env obj id s :
  _id s !! obj = Some id → _objectLinks s !! toString id = None →
  inherited (toString id) = true →
  _getObjectLinks env obj s = (s, Return (Some (Member (toString id)))).
Proof.
  intros Hid Hk Hin. unfold _getObjectLinks. rewrite bind_eq. simpl.
  unfold getId. rewrite Hid. rewrite bind_eq. simpl. by rewrite Hk, Hin.
Qed.

Lemma _getObjectLinks_unmapped env obj id s :
  _id s !! obj = Some id → _objectLinks s !! toString id = None →
  getMappingForObject (factory env) obj = None →
  inherited (toString id) = false →
  _getObjectLinks env obj s = (s, Return None).
Proof.
  intros Hid Hk Hm Hown. unfold _getObjectLinks. rewrite bind_eq. simpl.
  unfold getId. rewrite Hid. rewrite bind_eq. simpl. rewrite Hk, Hown.
  rewrite bind_eq, _getPersisterForObject_eq, Hm. reflexivity.
Qed.

Lemma _getObjectLinks_detached env obj id m s :
  _id s !! obj = Some id → _objectLinks s !! toString id = None →
  getMappingForObject (factory env) obj = Some m →
  inherited (toString id) = false →
  _getObjectLinks env obj s
  = (linked id (detached_link obj (persister_of env m s)) (cached env m s),
     Return (Some (Linked (fresh (dom (links s)))))).
Proof.
  intros Hid Hk Hm Hown. unfold _getObjectLinks. rewrite bind_eq. simpl.
  unfold getId. rewrite Hid. rewrite bind_eq. simpl. rewrite Hk, Hown.
  rewrite bind_eq, _getPersisterForObject_eq, Hm.
  rewrite bind_eq.
  rewrite (_linkObject_eq _ _ _ id); [| by rewrite cached_id
                                      | by rewrite cached_objectLinks
                                      | done].
  rewrite cached_links.
  rewrite bind_eq.
  erewrite update_eq; [| unfold linked; simpl; rewrite cached_links;
                         apply lookup_insert_eq].
  unfold linked, detached_link. simpl. rewrite cached_links.
  unfold ret, with_links, with_objectLinks. simpl.
  rewrite insert_insert_eq. reflexivity.
Qed.

Lemma linked_objectLinks id l s :
  _objectLinks (linked id l s)
  = <[toString id := fresh (dom (links s))]> (_objectLinks s).
Proof. reflexivity. Qed.
Lemma linked_links id l s :
  links (linked id l s) = <[fresh (dom (links s)) := l]> (links s).
Proof. reflexivity. Qed.
Lemma linked_id id l s : _id (linked id l s) = _id s.
Proof. reflexivity. Qed.
Lemma linked_lookup id l s :
  links (linked id l s) !! fresh (dom (links s)) = Some l.
Proof. rewrite linked_links. apply lookup_insert_eq. Qed.

Lemma _getObjectLinks_case env obj s :
  wf s → lookup_case env obj s (_getObjectLinks env obj s).
Proof.
  intros Hwf.
  destruct (_id s !! obj) as [id|] eqn:Hid.
  - destruct (_objectLinks s !! toString id) as [lr|] eqn:Hk.
    + rewrite (_getObjectLinks_found env obj id lr) by done.
      destruct (Hwf _ _ Hk) as (l & Hl & Hok). by eapply lookup_found.
    + destruct (inherited (toString id)) eqn:Hin.
      { rewrite (_getObjectLinks_member env obj id) by done.
        by apply lookup_member. }
      destruct (getMappingForObject (factory env) obj) as [m|] eqn:Hm.
      * rewrite (_getObjectLinks_detached env obj id m) by done.
        by apply lookup_detached.
      * rewrite (_getObjectLinks_unmapped env obj id) by done.
        by eapply lookup_unmapped.
  - rewrite _getObjectLinks_no_id by done. by apply lookup_no_id.
Qed.

Lemma wf_detached env obj id m s :
  wf s → _id s !! obj = Some id →
  wf (linked id (detached_link obj (persister_of env m s)) (cached env m s)).
Proof.
  intros Hwf Hid. apply (wf_linked _ obj); [by apply wf_cached| |done..].
  by rewrite cached_id.
Qed.

Lemma detached_lookup env id l m s :
  links (linked id l (cached env m s)) !! fresh (dom (links s)) = Some l.
Proof. rewrite linked_links, cached_links. apply lookup_insert_eq. Qed.

(** ** Loops *)

Lemma for_each_cons {A} (body : A → M (option Completion)) x rest s :
  for_each body (x :: rest) s
  = match body x s with
    | (s', Return (Some c)) => (s', Return (Some c))
    | (s', Return None) => for_each body rest s'
    | (s', Throw e) => (s', Throw e)
    end.
Proof.
  simpl. rewrite bind_eq. destruct (body x s) as [s' [[c|]|e]]; reflexivity.
Qed.

Lemma for_each_app {A} (body : A → M (option Completion)) xs ys s :
  for_each body (xs ++ ys) s
  = match for_each body xs s with
    | (s', Return None) => for_each body ys s'
    | r => r
    end.
Proof.
  revert s. induction xs as [|x xs IH]; intros s; [done|].
  rewrite <- app_comm_cons, !for_each_cons.
  destruct (body x s) as [s' [[c|]|e]]; [done| |done]. apply IH.
Qed.

(** A property kept by every run of the body is kept by the loop. *)
Lemma for_each_preserves {A} (I : Session → Prop)
    (body : A → M (option Completion)) :
  (∀ x s, I s → I (body x s).1) →
  ∀ l s, I s → I (for_each body l s).1.
Proof.
  intros Hbody l. induction l as [|x l IH]; intros s HI; [done|].
  rewrite for_each_cons. specialize (Hbody x s HI).
  destruct (body x s) as [s' [[c|]|e]]; simpl in *; [done| |done].
  by apply IH.
Qed.

(** ** The operations keep sessions well formed *)

Lemma _saveEntities_body_wf env obj s :
  wf s → wf (_saveEntities_body env obj s).1.
Proof.
  intros Hwf. unfold _saveEntities_body. rewrite bind_eq.
  destruct (_getObjectLinks_case env obj s Hwf)
    as [Hid|id Hid Hk Hm|id lr l Hid Hk Hl Hok|id Hid Hk Hin
       |id m Hid Hk Hown Hm].
  - rewrite bind_eq, _getPersisterForObject_eq.
    destruct (getMappingForObject (factory env) obj) as [m|]; [|done].
    mrun. set (g := generate _ _). set (s2 := with_id _ _).
    assert (wf s2) as Hwf2.
    { apply wf_assign; [|by simpl; rewrite cached_id].
      apply (wf_ext (cached env m s)); [done..|]. by apply wf_cached. }
    assert (_id s2 !! obj = Some g) as Hg by apply lookup_insert_eq.
    destruct (_objectLinks s2 !! toString g) as [lr'|] eqn:Hk'.
    + by erewrite _linkObject_taken.
    + destruct (inherited (toString g)) eqn:Hing.
      * by erewrite _linkObject_inherited.
      * erewrite _linkObject_eq by done. simpl.
        by apply (wf_linked _ obj).
  - rewrite bind_eq, _getPersisterForObject_eq, Hm. done.
  - rewrite bind_eq, (deref_eq _ _ _ Hl).
    destruct Hok as (Hkey & Hdel & Hdet).
    destruct (state l) eqn:Hst.
    + rewrite bind_eq. destruct (decide _); [|done].
      destruct (op_falsy _); [|done].
      rewrite (update_eq _ _ _ _ Hl). simpl.
      eapply wf_update; [done..| |]; simpl; intros; congruence.
    + done.
    + rewrite bind_eq, (update_eq _ _ _ _ Hl).
      rewrite bind_eq. erewrite update_eq; [|simpl; apply lookup_insert_eq].
      simpl. eapply wf_update; [| simpl; apply lookup_insert_eq | ..].
      * eapply wf_update; [done..| |]; simpl; intros; congruence.
      * done.
      * simpl. intros. congruence.
      * simpl. intros. congruence.
  - done.
  - rewrite bind_eq. erewrite deref_eq; [|apply detached_lookup]. simpl.
    by apply wf_detached.
Qed.

Lemma update_update_eq lr f g l s :
  links s !! lr = Some l →
  bind (update lr f) (fun _ => update lr g) s
  = (with_links (<[lr := g (f l)]>) s, Return tt).
Proof.
  intros Hl. rewrite bind_eq, (update_eq _ _ _ _ Hl).
  erewrite update_eq; [|simpl; apply lookup_insert_eq].
  unfold with_links. simpl. by rewrite insert_insert_eq.
Qed.

Lemma _removeEntities_body_wf env obj s :
  wf s → wf (_removeEntities_body env obj s).1.
Proof.
  intros Hwf. unfold _removeEntities_body. rewrite bind_eq.
  destruct (_getObjectLinks_case env obj s Hwf)
    as [Hid|id Hid Hk Hm|id lr l Hid Hk Hl Hok|id Hid Hk Hin
       |id m Hid Hk Hown Hm];
    [done|done| |done|].
  - rewrite bind_eq, (deref_eq _ _ _ Hl).
    destruct Hok as ((id' & Hid' & Hkey) & Hdel & Hdet).
    destruct (state l) eqn:Hst; [|done..].
    rewrite bind_eq. destruct (decide _).
    + rewrite (_unlinkObject_eq _ _ _ _ Hl Hid'). simpl.
      by apply wf_unlinked.
    + rewrite (update_update_eq _ _ _ _ _ Hl). simpl.
      eapply wf_update; [done..| |]; simpl; intros; congruence.
  - rewrite bind_eq. erewrite deref_eq; [|apply detached_lookup]. simpl.
    by apply wf_detached.
Qed.

Lemma _detachEntities_body_wf env obj s :
  wf s → wf (_detachEntities_body env obj s).1.
Proof.
  intros Hwf. unfold _detachEntities_body. rewrite bind_eq.
  destruct (_getObjectLinks_case env obj s Hwf)
    as [Hid|id Hid Hk Hm|id lr l Hid Hk Hl Hok|id Hid Hk Hin
       |id m Hid Hk Hown Hm];
    [done|done| |done|].
  - rewrite bind_eq, (deref_eq _ _ _ Hl).
    destruct Hok as ((id' & Hid' & Hkey) & Hdel & Hdet).
    rewrite bind_eq. destruct (decide _); [|done].
    rewrite (_unlinkObject_eq _ _ _ _ Hl Hid'). simpl.
    by apply wf_unlinked.
  - rewrite bind_eq. erewrite deref_eq; [|apply detached_lookup]. simpl.
    by apply wf_detached.
Qed.

Lemma unlinked_links l id s : links (unlinked l id s) = links s.
Proof. unfold unlinked. by destruct (decide _). Qed.

Lemma flush_executed_body_wf lr s :
  wf s → wf (flush_executed_body lr s).1.
Proof.
  intros Hwf. unfold flush_executed_body. rewrite bind_eq.
  destruct (links s !! lr) as [l|] eqn:Hl;
    [rewrite (deref_eq _ _ _ Hl)|by rewrite (deref_none _ _ Hl)].
  rewrite bind_eq. destruct (decide _) as [Hop|Hop].
  - destruct (_id s !! object l) as [id|] eqn:Hid;
      [|by rewrite (_unlinkObject_no_id _ _ _ Hl Hid)].
    rewrite (_unlinkObject_eq _ _ _ _ Hl Hid).
    rewrite bind_eq. erewrite update_eq; [|by rewrite unlinked_links].
    simpl. eapply wf_update; [by apply wf_unlinked|by rewrite unlinked_links
                             |done|..]; simpl; intros; congruence.
  - cbn [ret]. rewrite bind_eq, (update_eq _ _ _ _ Hl). simpl.
    eapply wf_update; [done..| |]; simpl; intros; congruence.
Qed.

Lemma dirtyCheck_pass_wf list : ∀ batch s,
  wf s → wf (dirtyCheck_pass list batch s).1.
Proof.
  induction list as [|lr rest IH]; intros batch s Hwf; [done|].
  simpl. rewrite bind_eq.
  destruct (links s !! lr) as [l|] eqn:Hl;
    [rewrite (deref_eq _ _ _ Hl)|by rewrite (deref_none _ _ Hl)].
  destruct (needs_dirtyCheck l); [|by apply IH].
  destruct (error _); [done|].
  rewrite bind_eq, (update_eq _ _ _ _ Hl). apply IH.
  eapply wf_update; [done..| |]; simpl; auto.
Qed.

Lemma insert_pass_wf list : ∀ batch s,
  wf s → wf (insert_pass list batch s).1.
Proof.
  induction list as [|lr rest IH]; intros batch s Hwf; [done|].
  simpl. rewrite bind_eq.
  destruct (links s !! lr) as [l|] eqn:Hl;
    [rewrite (deref_eq _ _ _ Hl)|by rewrite (deref_none _ _ Hl)].
  destruct (decide _); [|by apply IH].
  destruct (error _); [done|].
  rewrite bind_eq, (update_eq _ _ _ _ Hl). apply IH.
  eapply wf_update; [done..| |]; simpl; auto.
Qed.

Lemma remove_pass_state list : ∀ batch s, (remove_pass list batch s).1 = s.
Proof.
  induction list as [|lr rest IH]; intros batch s; [done|].
  simpl. rewrite bind_eq.
  destruct (links s !! lr) as [l|] eqn:Hl;
    [rewrite (deref_eq _ _ _ Hl)|by rewrite (deref_none _ _ Hl)].
  destruct (decide _); apply IH.
Qed.

Lemma _flush_assemble_wf list s : wf s → wf (_flush_assemble list s).1.
Proof.
  intros Hwf. unfold _flush_assemble. rewrite bind_eq.
  pose proof (dirtyCheck_pass_wf list [] s Hwf) as H1.
  destruct (dirtyCheck_pass _ _ _) as [s1 [[b1 [e1|]]|e1]]; simpl in H1;
    [done| |done].
  rewrite bind_eq.
  pose proof (insert_pass_wf list b1 s1 H1) as H2.
  destruct (insert_pass _ _ _) as [s2 [[b2 [e2|]]|e2]]; simpl in H2;
    [done| |done].
  rewrite bind_eq.
  pose proof (remove_pass_state list b2 s2) as H3.
  by destruct (remove_pass _ _ _) as [s3 [b3|e3]]; simpl in H3; subst s3.
Qed.

Lemma _flush_wf env s : wf s → wf (_flush env s).1.
Proof.
  intros Hwf. unfold _flush. rewrite bind_eq. cbn [gets].
  rewrite bind_eq.
  pose proof (_flush_assemble_wf (_getAllObjectLinks s) s Hwf) as H1.
  destruct (_flush_assemble _ _) as [s1 [[b1 [e1|]]|e1]]; simpl in H1;
    [done| |done].
  destruct (Batch_execute env b1); [done|].
  rewrite bind_eq.
  pose proof (for_each_preserves wf flush_executed_body
                flush_executed_body_wf (_getAllObjectLinks s) s1 H1) as H4.
  by destruct (for_each _ _ _) as [s4 [r|e]].
Qed.

Lemma then_callback_wf {A} (m : M A) (f : A → Completion) s :
  wf (m s).1 → wf (bind m (fun r => ret (f r)) s).1.
Proof. rewrite bind_eq. by destruct (m s) as [s' [r|e]]. Qed.

Lemma _save_wf env obj s : wf s → wf (_save env obj s).1.
Proof.
  intros Hwf. unfold _save. destruct (_findReferencedEntities _ _ _); [done|].
  apply then_callback_wf, for_each_preserves; [|done].
  apply _saveEntities_body_wf.
Qed.

Lemma _remove_wf env obj s : wf s → wf (_remove env obj s).1.
Proof.
  intros Hwf. unfold _remove. destruct (_findReferencedEntities _ _ _); [done|].
  apply then_callback_wf, for_each_preserves; [|done].
  apply _removeEntities_body_wf.
Qed.

Lemma _detach_wf env obj s : wf s → wf (_detach env obj s).1.
Proof.
  intros Hwf. unfold _detach. destruct (_findReferencedEntities _ _ _); [done|].
  apply then_callback_wf, for_each_preserves; [|done].
  apply _detachEntities_body_wf.
Qed.

Lemma _find_wf env ctr id s : wf s → wf (_find env ctr id s).1.
Proof.
  intros Hwf. unfold _find. rewrite bind_eq. unfold _getPersisterForConstructor.
  destruct (getMappingForConstructor _ _); [|done].
  rewrite bind_eq, getPersister_eq. simpl. by apply wf_cached.
Qed.

Lemma _execute_wf env a x s : wf s → wf (_execute env a x s).1.
Proof.
  intros Hwf.
  destruct a, x; simpl; try done;
    auto using _save_wf, _remove_wf, _detach_wf, _find_wf, wf_clear;
    apply (then_callback_wf (_flush env) snd), _flush_wf, Hwf.
Qed.

Lemma registerManaged_wf p entity document s :
  wf s → wf (registerManaged p entity document s).1.
Proof.
  intros Hwf. unfold registerManaged. rewrite bind_eq.
  destruct (_id s !! entity) as [id|] eqn:Hid;
    [|by rewrite _linkObject_no_id].
  destruct (_objectLinks s !! toString id) as [lr|] eqn:Hk;
    [by erewrite _linkObject_taken|].
  destruct (inherited (toString id)) eqn:Hin;
    [by erewrite _linkObject_inherited|].
  rewrite (_linkObject_eq _ _ _ id) by done.
  erewrite update_eq by apply linked_lookup. simpl.
  eapply wf_update; [|apply linked_lookup|done|simpl; auto..].
  by apply (wf_linked _ entity).
Qed.

(** Every state a session goes through is well formed. *)
Lemma reachable_wf s : reachable s → wf s.
Proof.
  induction 1.
  - apply wf_new.
  - by apply _execute_wf.
  - by apply registerManaged_wf.
  - by apply wf_assign.
Qed.

(** ** The masks of the tasks *)

(** C8 (counterexample).  The claim has [find] and [fetch] enqueue a mask
    that excludes all actions, each other apart.  The mask that [find]
    enqueues does not exclude [Find], and the mask that [fetch] enqueues
    does not exclude [Fetch]. *)
Lemma find_does_not_exclude_find :
  excludes (invalidates (find 0 (IdString "54b8a19659731ff8ccfc2fe5"))) Find
    = false
  ∧ excludes (invalidates (fetch (TEntity 0) (PString "children"))) Fetch
    = false.
Proof. split; reflexivity. Qed.

(** C8 (amended).  Every public operation enqueues its own action with
    this mask: [save], [remove], [refresh] and [detach] exclude every
    action except their own; [flush] and [clear] exclude every action;
    [find] and [fetch] exclude every action except [Find] and [Fetch], so
    that neither excludes itself nor the other. *)
Theorem invalidates_masks :
  (∀ obj, action (save obj) = Save ∧
     ∀ a, excludes (invalidates (save obj)) a = bool_decide (a ≠ Save)) ∧
  (∀ obj, action (remove obj) = Remove ∧
     ∀ a, excludes (invalidates (remove obj)) a = bool_decide (a ≠ Remove)) ∧
  (∀ obj, action (refresh obj) = Refresh ∧
     ∀ a, excludes (invalidates (refresh obj)) a = bool_decide (a ≠ Refresh)) ∧
  (∀ obj, action (detach obj) = Detach ∧
     ∀ a, excludes (invalidates (detach obj)) a = bool_decide (a ≠ Detach)) ∧
  (action flush = Flush ∧ ∀ a, excludes (invalidates flush) a = true) ∧
  (action clear = Clear ∧ ∀ a, excludes (invalidates clear) a = true) ∧
  (∀ ctr id, action (find ctr id) = Find ∧
     ∀ a, excludes (invalidates (find ctr id)) a
          = bool_decide (a ≠ Find ∧ a ≠ Fetch)) ∧
  (∀ obj paths, action (fetch obj paths) = Fetch ∧
     ∀ a, excludes (invalidates (fetch obj paths)) a
          = bool_decide (a ≠ Find ∧ a ≠ Fetch)).
Proof.
  repeat split; try reflexivity; intros a; destruct a; reflexivity.
Qed.

(** ** Dispatch *)

(** C1.  A [refresh] task is dispatched to [_execute], whose [switch] has
    no case for [Action.Refresh]: the session is left as it was, no
    persister is asked to reload anything and the callback is never
    invoked, whatever the entity and the state of the session.  [_refresh]
    is never reached, although for a [Managed] entity whose walk reaches
    only itself it would replace the [originalDocument] of the link by the
    document the persister reloads and complete without error. *)
Theorem refresh_is_not_dispatched env obj s :
  run env (refresh obj) s = (s, Return NotCalled) ∧
  ∀ id lr l m document,
    _id s !! obj = Some id → _objectLinks s !! toString id = Some lr →
    links s !! lr = Some l → state l = Managed →
    getMappingForObject (factory env) obj = Some m →
    walk env m obj PropertyFlags.CascadeRefresh = inr [obj] →
    Persister.refresh (persister l) (object l) = inr document →
    _refresh env obj s
    = (with_links (<[lr := set_originalDocument (Some document) l]>) s,
       Return (Completed VUndefined)) ∧
    _refresh env obj s ≠ run env (refresh obj) s.
Proof.
  split; [reflexivity|].
  intros id lr l m document Hid Hk Hl Hst Hm Hwalk Hreload.
  assert (_refresh env obj s
          = (with_links (<[lr := set_originalDocument (Some document) l]>) s,
             Return (Completed VUndefined))) as Heq.
  { unfold _refresh, _findReferencedEntities. rewrite Hm, Hwalk.
    unfold _refreshEntities, refresh_start, refresh_finish, _getObjectLinks,
      update, deref, bind, ret, gets, modify, getId, lefts.
    rewrite Hid, Hk, Hl. rewrite decide_True by done. cbn [omap list_omap app].
    by rewrite Hl, Hreload, Hl. }
  split; [exact Heq|]. rewrite Heq. intros [= Hs].
Qed.

Lemma refresh_is_not_dispatched_witness :
  let env := demo_env DeferredImplicit None in
  let s := run_all env [save 1; flush] (new_session ∅) in
  originalDocument <$> links s !! 0 = Some (Some 1) ∧
  originalDocument <$> links (_refresh env 1 s).1 !! 0 = Some (Some 201) ∧
  (_refresh env 1 s).2 = Return (Completed VUndefined) ∧
  run env (refresh 1) s = (s, Return NotCalled).
Proof.
  intros env s. split; [vm_compute; reflexivity|].
  destruct (refresh_is_not_dispatched env 1 s) as [Hrun Hrefresh].
  destruct (Hrefresh (Id "a") 0
              (set_originalDocument (Some 1)
                 (set_scheduledOperation OpNone
                    (new_link 1 (demo_persister DeferredImplicit) Insert)))
              demo_mapping 201) as [Heq _];
    [vm_compute; reflexivity..|].
  rewrite Heq. split; [vm_compute; reflexivity|]. split; [reflexivity|].
  exact Hrun.
Defined.

(** C9.  [fetch] with a non-empty array of paths: once the target is an
    entity (given as such, or obtained from a reference that resolved),
    the session is left as it was and the callback is never invoked; a
    reference that fails to resolve passes its error to the callback.
    [_fetchPaths] invokes the callback exactly when [paths] is missing or
    empty. *)
Theorem fetch_with_paths_never_completes env obj path paths s :
  run env (fetch obj (PArray (path :: paths))) s
  = (s, Return
          match obj with
          | TEntity _ => NotCalled
          | TReference r =>
              match Reference_fetch env r with
              | inl err => Failed err
              | inr _ => NotCalled
              end
          end)
  ∧ ∀ entity ps,
      _fetchPaths entity ps ≠ NotCalled ↔ (ps = None ∨ ps = Some []).
Proof.
  split.
  - destruct obj as [o|r]; [reflexivity|].
    unfold run, fetch, _queue_add, _execute, _fetch, ret. simpl.
    by destruct (Reference_fetch env r).
  - intros entity [[|p ps]|]; simpl; split; intros Hps;
      try done; auto; by destruct Hps.
Qed.

(** ** A flush that fails *)

Lemma same_schedule_refl s : same_schedule s s.
Proof.
  repeat split. intros lr. by destruct (links s !! lr).
Qed.

Lemma same_schedule_trans s1 s2 s3 :
  same_schedule s1 s2 → same_schedule s2 s3 → same_schedule s1 s3.
Proof.
  intros (Ht & Hc & Hi & Hg & Hl) (Ht' & Hc' & Hi' & Hg' & Hl').
  repeat split; try congruence.
  intros lr. specialize (Hl lr). specialize (Hl' lr).
  destruct (links s1 !! lr), (links s2 !! lr), (links s3 !! lr); try done.
  unfold same_link in *. intuition congruence.
Qed.

Lemma same_schedule_update s lr l d :
  links s !! lr = Some l →
  same_schedule s (with_links (<[lr := set_originalDocument d l]>) s).
Proof.
  intros Hl. repeat split. intros lr'. simpl.
  destruct (decide (lr = lr')) as [<-|Hne].
  - by rewrite lookup_insert_eq, Hl.
  - rewrite lookup_insert_ne by done. by destruct (links s !! lr').
Qed.

Lemma same_schedule_lookup s s' lr l :
  same_schedule s s' → links s !! lr = Some l →
  ∃ l', links s' !! lr = Some l' ∧ same_link l l'.
Proof.
  intros (_ & _ & _ & _ & Hl) Hlr. specialize (Hl lr). rewrite Hlr in Hl.
  destruct (links s' !! lr) as [l'|]; [|done]. by exists l'.
Qed.

Lemma dirtyCheck_pass_same list : ∀ batch s,
  same_schedule s (dirtyCheck_pass list batch s).1.
Proof.
  induction list as [|lr rest IH]; intros batch s;
    [apply same_schedule_refl|].
  simpl. rewrite bind_eq.
  destruct (links s !! lr) as [l|] eqn:Hl;
    [rewrite (deref_eq _ _ _ Hl)
    |rewrite (deref_none _ _ Hl); apply same_schedule_refl].
  destruct (needs_dirtyCheck l); [|by apply IH].
  destruct (error _); [apply same_schedule_refl|].
  rewrite bind_eq, (update_eq _ _ _ _ Hl).
  eapply same_schedule_trans; [by apply same_schedule_update|apply IH].
Qed.

Lemma insert_pass_same list : ∀ batch s,
  same_schedule s (insert_pass list batch s).1.
Proof.
  induction list as [|lr rest IH]; intros batch s;
    [apply same_schedule_refl|].
  simpl. rewrite bind_eq.
  destruct (links s !! lr) as [l|] eqn:Hl;
    [rewrite (deref_eq _ _ _ Hl)
    |rewrite (deref_none _ _ Hl); apply same_schedule_refl].
  destruct (decide _); [|by apply IH].
  destruct (error _); [apply same_schedule_refl|].
  rewrite bind_eq, (update_eq _ _ _ _ Hl).
  eapply same_schedule_trans; [by apply same_schedule_update|apply IH].
Qed.

Lemma _flush_assemble_same list s :
  same_schedule s (_flush_assemble list s).1.
Proof.
  unfold _flush_assemble. rewrite bind_eq.
  pose proof (dirtyCheck_pass_same list [] s) as H1.
  destruct (dirtyCheck_pass _ _ _) as [s1 [[b1 [e1|]]|e1]]; simpl in H1;
    [done| |done].
  rewrite bind_eq.
  pose proof (insert_pass_same list b1 s1) as H2.
  destruct (insert_pass _ _ _) as [s2 [[b2 [e2|]]|e2]]; simpl in H2;
    [by eapply same_schedule_trans| |by eapply same_schedule_trans].
  rewrite bind_eq.
  pose proof (remove_pass_state list b2 s2) as H3.
  destruct (remove_pass _ _ _) as [s3 [b3|e3]]; simpl in H3; subst s3;
    by eapply same_schedule_trans.
Qed.

Lemma flush_executed_body_result lr s s' r :
  flush_executed_body lr s = (s', Return r) → r = None.
Proof.
  unfold flush_executed_body. rewrite bind_eq.
  destruct (deref lr s) as [s1 [l|e]]; [|done].
  rewrite bind_eq.
  destruct (if decide (scheduledOperation l = Delete)
            then _unlinkObject lr else ret tt) as [s2 [[]|e]]; [|done].
  rewrite bind_eq.
  destruct (update lr _ s2) as [s3 [[]|e]]; [|done].
  unfold ret. intros H. by simplify_eq.
Qed.

Lemma flush_executed_result list : ∀ s s' r,
  for_each flush_executed_body list s = (s', Return r) → r = None.
Proof.
  induction list as [|lr rest IH]; intros s s' r;
    [unfold for_each, ret; intros H; by simplify_eq|].
  rewrite for_each_cons.
  destruct (flush_executed_body lr s) as [s1 [[c|]|e]] eqn:Hb; [|by eauto|done].
  by apply flush_executed_body_result in Hb.
Qed.

(** A failed flush differs from the session before it at most in
    [originalDocument]s. *)
Lemma failed_flush_same env s s' batch err :
  _flush env s = (s', Return (batch, Failed err)) → same_schedule s s'.
Proof.
  unfold _flush. rewrite bind_eq. cbn [gets]. rewrite bind_eq.
  pose proof (_flush_assemble_same (_getAllObjectLinks s) s) as H1.
  destruct (_flush_assemble _ _) as [s1 [[b1 [e1|]]|e1]]; simpl in H1;
    [unfold ret; intros H; by simplify_eq| |done].
  destruct (Batch_execute env b1); [unfold ret; intros H; by simplify_eq|].
  rewrite bind_eq.
  destruct (for_each _ _ _) as [s2 [r|e]] eqn:Hloop; [|done].
  apply flush_executed_result in Hloop as ->. unfold ret, then_callback.
  intros H. by simplify_eq.
Qed.

(** C5.  When the callback of [_flush] receives an error, from a
    [dirtyCheck], from an [insert] or from [batch.execute], the identity
    table and the [_id] of every entity are as before the flush, and every
    link record has the scheduled operation, the state and the entity it
    had: nothing was reset to [None] and no link scheduled for [Delete]
    left the table. *)
Theorem failed_flush_keeps_schedule env s s' batch err :
  _flush env s = (s', Return (batch, Failed err)) →
  _objectLinks s' = _objectLinks s ∧
  _id s' = _id s ∧
  (∀ lr l, links s !! lr = Some l →
     ∃ l', links s' !! lr = Some l' ∧
           scheduledOperation l' = scheduledOperation l ∧
           state l' = state l ∧ object l' = object l) ∧
  (∀ k lr l, _objectLinks s !! k = Some lr → links s !! lr = Some l →
     scheduledOperation l = Delete → _objectLinks s' !! k = Some lr).
Proof.
  intros Hflush. pose proof (failed_flush_same _ _ _ _ _ Hflush) as Hsame.
  destruct Hsame as (Ht & Hc & Hi & Hg & Hl).
  split; [done|]. split; [done|]. split.
  - intros lr l Hlr. specialize (Hl lr). rewrite Hlr in Hl.
    destruct (links s' !! lr) as [l'|]; [|done].
    exists l'. by destruct Hl as (? & ? & ? & ?).
  - intros k lr l Hk _ _. by rewrite Ht.
Qed.

Lemma failed_flush_keeps_schedule_witness :
  let env := demo_env DeferredExplicit (Some "E11000 duplicate key"%string) in
  let r := _flush env demo_busy in
  r.2 = Return ([CallDirtyCheck 1 (Some 1); CallInsert 2; CallRemove 3],
                Failed "E11000 duplicate key") ∧
  _objectLinks r.1 = _objectLinks demo_busy ∧
  _id r.1 = _id demo_busy ∧
  (∀ lr l, links demo_busy !! lr = Some l →
     ∃ l', links r.1 !! lr = Some l' ∧
           scheduledOperation l' = scheduledOperation l ∧
           state l' = state l ∧ object l' = object l) ∧
  (∀ k lr l, _objectLinks demo_busy !! k = Some lr →
     links demo_busy !! lr = Some l →
     scheduledOperation l = Delete → _objectLinks r.1 !! k = Some lr).
Proof.
  intros env r. split; [vm_compute; reflexivity|].
  apply (failed_flush_keeps_schedule env demo_busy r.1
           [CallDirtyCheck 1 (Some 1); CallInsert 2; CallRemove 3]
           "E11000 duplicate key").
  vm_compute. reflexivity.
Defined.

(** ** The batch a flush assembles *)

Lemma list_links_NoDup s : wf s → NoDup (_getAllObjectLinks s).
Proof.
  intros Hwf. unfold _getAllObjectLinks.
  apply NoDup_fmap_2_strong; [|apply NoDup_map_to_list].
  intros [k1 lr1] [k2 lr2] H1 H2 Heq. simpl in Heq. subst lr2.
  apply elem_of_map_to_list in H1, H2.
  by rewrite (wf_inj s k1 k2 lr1).
Qed.

Lemma list_links_elem s lr :
  lr ∈ _getAllObjectLinks s ↔ ∃ k, _objectLinks s !! k = Some lr.
Proof.
  unfold _getAllObjectLinks. rewrite list_elem_of_fmap. split.
  - intros ([k lr'] & -> & Hin). exists k. by apply elem_of_map_to_list.
  - intros (k & Hk). exists (k, lr). split; [done|].
    by apply elem_of_map_to_list.
Qed.

Lemma list_links_Some s lr :
  wf s → lr ∈ _getAllObjectLinks s → is_Some (links s !! lr).
Proof.
  intros Hwf (k & Hk)%list_links_elem.
  destruct (Hwf k lr Hk) as (l & Hl & _). by exists l.
Qed.

Lemma omap_cons_eq {A B} (f : A → option B) x (l : list A) :
  omap f (x :: l)
  = match f x with Some y => y :: omap f l | None => omap f l end.
Proof. reflexivity. Qed.

Lemma omap_ext_in {A B} (f g : A → option B) (l : list A) :
  (∀ x, x ∈ l → f x = g x) → omap f l = omap g l.
Proof.
  induction l as [|x l IH]; intros Hfg; [done|].
  rewrite !omap_cons_eq, (Hfg x) by apply list_elem_of_here.
  rewrite IH; [done|]. intros y Hy. apply Hfg. by apply list_elem_of_further.
Qed.

Lemma dirtyCheck_pass_eq list : ∀ batch s,
  dirtyCheck_pass list batch s
  = call_pass needs_dirtyCheck dirtyCheck_of dirtyCheck_result list batch s.
Proof.
  induction list as [|lr rest IH]; intros batch s; [done|].
  cbn [dirtyCheck_pass call_pass]. rewrite !bind_eq.
  destruct (deref lr s) as [s1 [l|e]]; [|done].
  destruct (needs_dirtyCheck l); [|apply IH].
  fold (dirtyCheck_result l). fold (dirtyCheck_of l).
  destruct (error (dirtyCheck_result l)); [done|].
  rewrite !bind_eq. destruct (update _ _ _) as [s2 [[]|e]]; [apply IH|done].
Qed.

Lemma insert_pass_eq list : ∀ batch s,
  insert_pass list batch s
  = call_pass (scheduled Insert) insert_of insert_result list batch s.
Proof.
  induction list as [|lr rest IH]; intros batch s; [done|].
  cbn [insert_pass call_pass]. rewrite !bind_eq.
  destruct (deref lr s) as [s1 [l|e]]; [|done].
  unfold scheduled at 1.
  destruct (decide (scheduledOperation l = Insert)) as [Hop|Hop].
  - rewrite bool_decide_eq_true_2 by done.
    fold (insert_result l). fold (insert_of l).
    destruct (error (insert_result l)); [done|].
    rewrite !bind_eq. destruct (update _ _ _) as [s2 [[]|e]]; [apply IH|done].
  - rewrite bool_decide_eq_false_2 by done. apply IH.
Qed.

Lemma remove_pass_eq list : ∀ batch s,
  (∀ lr, lr ∈ list → is_Some (links s !! lr)) →
  remove_pass list batch s = (s, Return (batch ++ omap (remove_call s) list)).
Proof.
  induction list as [|lr rest IH]; intros batch s Hsome.
  - cbn [remove_pass ret]. by rewrite app_nil_r.
  - destruct (Hsome lr) as [l Hl]; [apply list_elem_of_here|].
    cbn [remove_pass]. rewrite bind_eq, (deref_eq _ _ _ Hl).
    rewrite omap_cons_eq. unfold remove_call at 1, pass_call, scheduled.
    rewrite Hl.
    destruct (decide (scheduledOperation l = Delete)) as [Hop|Hop].
    + rewrite bool_decide_eq_true_2 by done.
      rewrite IH; [by rewrite <- app_assoc|].
      intros lr' Hin. by apply Hsome, list_elem_of_further.
    + rewrite bool_decide_eq_false_2 by done.
      apply IH. intros lr' Hin. by apply Hsome, list_elem_of_further.
Qed.

(** What a loop of [_flush] does over a list of distinct links: the calls
    it adds to the batch and the records it leaves. *)
Lemma call_pass_run test call result list : ∀ batch s,
  NoDup list → (∀ lr, lr ∈ list → is_Some (links s !! lr)) →
  ∃ s1 b e,
    call_pass test call result list batch s = (s1, Return (b, e)) ∧
    (∀ lr, lr ∉ list → links s1 !! lr = links s !! lr) ∧
    (∃ calls more, b = batch ++ calls ∧
                   omap (pass_call test call s) list = calls ++ more) ∧
    match e with
    | None =>
        b = batch ++ omap (pass_call test call s) list ∧
        ∀ lr l, lr ∈ list → links s !! lr = Some l →
          links s1 !! lr
          = Some (if test l
                  then set_originalDocument (value (result l)) l else l)
    | Some err =>
        ∃ lr l, lr ∈ list ∧ links s !! lr = Some l ∧
                test l = true ∧ error (result l) = Some err
    end.
Proof.
  induction list as [|lr rest IH]; intros batch s Hnd Hsome.
  - exists s, batch, None. cbn [call_pass ret omap list_omap].
    rewrite app_nil_r.
    repeat split; [by exists [], []; rewrite app_nil_r|].
    intros lr l Hin. by apply elem_of_nil in Hin.
  - apply NoDup_cons in Hnd as [Hnotin Hnd].
    destruct (Hsome lr) as [l Hl]; [apply list_elem_of_here|].
    assert (pass_call test call s lr = if test l then Some (call l) else None)
      as Hcall by (unfold pass_call; by rewrite Hl).
    cbn [call_pass]. rewrite bind_eq, (deref_eq _ _ _ Hl).
    rewrite omap_cons_eq, Hcall.
    destruct (test l) eqn:Htest.
    + destruct (error (result l)) as [err|] eqn:Herr.
      * exists s, (batch ++ [call l]), (Some err).
        split; [done|]. split; [done|].
        split; [by exists [call l], (omap (pass_call test call s) rest)|].
        exists lr, l. split; [apply list_elem_of_here|done].
      * rewrite bind_eq, (update_eq _ _ _ _ Hl).
        set (s' := with_links _ s).
        assert (∀ lr', lr' ∈ rest → links s' !! lr' = links s !! lr') as Hsame.
        { intros lr' Hin. subst s'. simpl. apply lookup_insert_ne.
          intros ->. done. }
        destruct (IH (batch ++ [call l]) s' Hnd)
          as (s1 & b & e & Hrun & Hframe & Hpre & Hpost).
        { intros lr' Hin. rewrite Hsame by done. apply Hsome.
          by apply list_elem_of_further. }
        assert (omap (pass_call test call s') rest
                = omap (pass_call test call s) rest) as Hcalls.
        { apply omap_ext_in. intros lr' Hin. unfold pass_call.
          by rewrite Hsame. }
        rewrite Hcalls in Hpre, Hpost.
        exists s1, b, e. split; [done|]. split.
        { intros lr' Hn. rewrite Hframe.
          - subst s'. simpl. apply lookup_insert_ne. intros ->.
            apply Hn, list_elem_of_here.
          - intros Hin. by apply Hn, list_elem_of_further. }
        split.
        { destruct Hpre as (calls & more & -> & Hmore).
          exists (call l :: calls), more.
          split; [by rewrite <- app_assoc|]. by rewrite Hmore. }
        destruct e as [err|].
        -- destruct Hpost as (lr' & l' & Hin & Hl' & Hn' & He').
           exists lr', l'. split; [by apply list_elem_of_further|].
           by rewrite <- Hsame.
        -- destruct Hpost as [-> Hpost]. split; [by rewrite <- app_assoc|].
           intros lr' l' Hin Hl'. apply elem_of_cons in Hin as [->|Hin].
           ++ rewrite Hframe by done. subst s'. simpl.
              rewrite lookup_insert_eq. simplify_eq. by rewrite Htest.
           ++ apply Hpost; [done|]. by rewrite Hsame.
    + destruct (IH batch s Hnd) as (s1 & b & e & Hrun & Hframe & Hpre & Hpost).
      { intros lr' Hin. by apply Hsome, list_elem_of_further. }
      exists s1, b, e. split; [done|]. split.
      { intros lr' Hn. apply Hframe. intros Hin.
        by apply Hn, list_elem_of_further. }
      split; [done|].
      destruct e as [err|].
      * destruct Hpost as (lr' & l' & Hin & Hrest).
        exists lr', l'. split; [by apply list_elem_of_further|done].
      * destruct Hpost as [-> Hpost]. split; [done|].
        intros lr' l' Hin Hl'. apply elem_of_cons in Hin as [->|Hin].
        -- rewrite Hframe by done. simplify_eq. by rewrite Htest.
        -- by apply Hpost.
Qed.

Lemma pass_call_Forall test call (P : BatchCall → Prop) s list :
  (∀ l, P (call l)) → Forall P (omap (pass_call test call s) list).
Proof.
  intros HP. induction list as [|lr rest IH]; [constructor|].
  rewrite omap_cons_eq. unfold pass_call at 1.
  destruct (links s !! lr) as [l|]; [|done].
  destruct (test l); [|done]. by constructor.
Qed.

Lemma needs_dirtyCheck_not_insert l :
  needs_dirtyCheck l = true → scheduled Insert l = false.
Proof.
  unfold needs_dirtyCheck, scheduled. intros H.
  apply bool_decide_eq_false_2. intros Hop. rewrite Hop in H.
  by rewrite bool_decide_eq_false_2, andb_false_r in H.
Qed.

(** The record of a link after the first two loops of a flush that met no
    persister error. *)
Lemma _flush_assemble_run list s :
  NoDup list → (∀ lr, lr ∈ list → is_Some (links s !! lr)) →
  ∃ s1 batch e,
    _flush_assemble list s = (s1, Return (batch, e)) ∧
    (∃ more, expected_batch s list = batch ++ more) ∧
    (no_persister_error s list → e = None) ∧
    (e = None →
     batch = expected_batch s list ∧
     ∀ lr l, lr ∈ list → links s !! lr = Some l →
       needs_dirtyCheck l = true →
       ∃ l1, links s1 !! lr = Some l1 ∧
             originalDocument l1 = value (dirtyCheck_result l)).
Proof.
  intros Hnd Hsome. unfold _flush_assemble, expected_batch.
  rewrite bind_eq, dirtyCheck_pass_eq.
  destruct (call_pass_run needs_dirtyCheck dirtyCheck_of dirtyCheck_result
              list [] s Hnd Hsome)
    as (s1 & b1 & e1 & -> & Hframe1 & (c1 & m1 & -> & Hm1) & Hpost1).
  fold dirtyCheck_call in Hm1, Hpost1. simpl in *.
  destruct e1 as [err|].
  { exists s1, c1, (Some err). split; [done|]. split.
    - exists (m1 ++ omap (insert_call s) list ++ omap (remove_call s) list).
      by rewrite Hm1, <- app_assoc.
    - split; [|done]. intros Hnone.
      destruct Hpost1 as (lr & l & Hin & Hl & Hn & He).
      destruct (Hnone lr l Hin Hl) as [Hdc _]. rewrite Hdc in He; done. }
  destruct Hpost1 as [-> Hlinks1].
  assert (∀ lr, lr ∈ list → is_Some (links s1 !! lr)) as Hsome1.
  { intros lr Hin. destruct (Hsome lr Hin) as [l Hl].
    rewrite (Hlinks1 lr l Hin Hl). by eexists. }
  assert (∀ test call, (∀ l d, test (set_originalDocument d l) = test l) →
            (∀ l d, call (set_originalDocument d l) = call l) →
            omap (pass_call test call s1) list
            = omap (pass_call test call s) list) as Hcalls.
  { intros test call Ht Hc. apply omap_ext_in. intros lr Hin.
    destruct (Hsome lr Hin) as [l Hl]. unfold pass_call.
    rewrite (Hlinks1 lr l Hin Hl), Hl.
    destruct (needs_dirtyCheck l); [|done]. by rewrite Ht, Hc. }
  rewrite bind_eq, insert_pass_eq.
  destruct (call_pass_run (scheduled Insert) insert_of insert_result
              list (omap (dirtyCheck_call s) list) s1 Hnd Hsome1)
    as (s2 & b2 & e2 & -> & Hframe2 & (c2 & m2 & -> & Hm2) & Hpost2).
  rewrite (Hcalls (scheduled Insert) insert_of) in Hm2, Hpost2 by done.
  fold insert_call in Hm2, Hpost2.
  destruct e2 as [err|].
  { exists s2, (omap (dirtyCheck_call s) list ++ c2), (Some err).
    split; [done|]. split.
    - exists (m2 ++ omap (remove_call s) list).
      by rewrite Hm2, <- !app_assoc.
    - split; [|done]. intros Hnone.
      destruct Hpost2 as (lr & l1 & Hin & Hl1 & Hn & He).
      destruct (Hsome lr Hin) as [l Hl].
      rewrite (Hlinks1 lr l Hin Hl) in Hl1.
      destruct (Hnone lr l Hin Hl) as [_ Hins].
      assert (scheduled Insert l = true ∧ insert_result l1 = insert_result l)
        as [Hop Hres].
      { destruct (needs_dirtyCheck l); by simplify_eq. }
      rewrite Hres, Hins in He; [done|].
      by apply bool_decide_eq_true_1 in Hop. }
  destruct Hpost2 as [-> Hlinks2].
  assert (∀ lr, lr ∈ list → is_Some (links s2 !! lr)) as Hsome2.
  { intros lr Hin. destruct (Hsome1 lr Hin) as [l Hl].
    rewrite (Hlinks2 lr l Hin Hl). by eexists. }
  rewrite bind_eq, remove_pass_eq by done. cbn [ret].
  assert (omap (remove_call s2) list = omap (remove_call s) list) as ->.
  { unfold remove_call.
    rewrite <- (Hcalls (scheduled Delete) remove_of) by done.
    apply omap_ext_in. intros lr Hin.
    destruct (Hsome1 lr Hin) as [l1 Hl1]. unfold pass_call.
    rewrite (Hlinks2 lr l1 Hin Hl1), Hl1.
    by destruct (scheduled Insert l1). }
  eexists s2, _, None. split; [by rewrite <- app_assoc|].
  split; [by exists []; rewrite app_nil_r|]. split; [done|].
  intros _. split; [done|].
  intros lr l Hin Hl Hneeds.
  pose proof (Hlinks1 lr l Hin Hl) as Hl1. rewrite Hneeds in Hl1.
  pose proof (Hlinks2 lr _ Hin Hl1) as Hl2.
  assert (scheduled Insert
            (set_originalDocument (value (dirtyCheck_result l)) l) = false)
    as Hni by by apply needs_dirtyCheck_not_insert.
  rewrite Hni in Hl2. by eexists.
Qed.

Lemma run_all_reachable env tasks : ∀ s,
  reachable s → reachable (run_all env tasks s).
Proof.
  induction tasks as [|t tasks IH]; intros s Hs; [done|].
  apply IH. by apply reach_execute.
Qed.

Lemma _flush_batch env s s1 batch e s' b c :
  _flush_assemble (_getAllObjectLinks s) s = (s1, Return (batch, e)) →
  _flush env s = (s', Return (b, c)) → b = batch.
Proof.
  intros Hasm. unfold _flush. rewrite bind_eq. cbn [gets].
  rewrite bind_eq, Hasm.
  destruct e as [err|]; [unfold ret; intros H; by simplify_eq|].
  destruct (Batch_execute env batch);
    [unfold ret; intros H; by simplify_eq|].
  rewrite bind_eq. destruct (for_each _ _ _) as [s2 [r|err]]; [|done].
  unfold ret. intros H. by simplify_eq.
Qed.

(** C4.  In a well-formed session (every reachable one is), [_flush]
    builds its batch by three loops over the links the table holds when it
    starts: the dirty checks of exactly the links scheduled for
    [DirtyCheck], or under [DeferredImplicit] tracking with nothing
    scheduled; then the inserts of the links scheduled for [Insert]; then
    the deletes of the links scheduled for [Delete].  The batch is always
    an initial segment of that sequence, in which every dirty check comes
    before every insert and every insert before every delete; it is the
    whole sequence when no persister call reports an error, and then every
    dirty-checked link has the snapshot its persister returned as its
    [originalDocument]. *)
Theorem flush_assembles_in_three_passes env s :
  wf s →
  let list := _getAllObjectLinks s in
  ∃ s1 batch e,
    _flush_assemble list s = (s1, Return (batch, e)) ∧
    (∀ s' b c, _flush env s = (s', Return (b, c)) → b = batch) ∧
    (∃ more, expected_batch s list = batch ++ more) ∧
    Forall is_dirtyCheck (omap (dirtyCheck_call s) list) ∧
    Forall is_insert (omap (insert_call s) list) ∧
    Forall is_remove (omap (remove_call s) list) ∧
    (∀ l, needs_dirtyCheck l = true ↔
          scheduledOperation l = DirtyCheck ∨
          (Persister.changeTracking (persister l) = DeferredImplicit ∧
           scheduledOperation l = OpNone)) ∧
    (no_persister_error s list → e = None) ∧
    (e = None →
     batch = expected_batch s list ∧
     ∀ k lr l, _objectLinks s !! k = Some lr → links s !! lr = Some l →
       needs_dirtyCheck l = true →
       ∃ l1, links s1 !! lr = Some l1 ∧
             originalDocument l1 = value (dirtyCheck_result l)).
Proof.
  intros Hwf list.
  destruct (_flush_assemble_run list s (list_links_NoDup s Hwf))
    as (s1 & batch & e & Hrun & Hpre & Hnone & Hfull).
  { intros lr Hin. by apply list_links_Some. }
  exists s1, batch, e. split; [done|].
  split; [intros s' b c; by apply _flush_batch with (e := e) (s1 := s1)|].
  split; [done|].
  split; [by apply pass_call_Forall|].
  split; [by apply pass_call_Forall|].
  split; [by apply pass_call_Forall|].
  split.
  { intros l. unfold needs_dirtyCheck.
    rewrite orb_true_iff, andb_true_iff, !bool_decide_eq_true.
    by destruct (scheduledOperation l); simpl; intuition. }
  split; [done|].
  intros He. destruct (Hfull He) as [-> Hdocs]. split; [done|].
  intros k lr l Hk Hl Hneeds. apply Hdocs; [|done..].
  apply list_links_elem. by exists k.
Qed.

Lemma flush_assembles_in_three_passes_witness :
  wf demo_busy ∧
  ∃ s1 batch e,
    _flush_assemble (_getAllObjectLinks demo_busy) demo_busy
      = (s1, Return (batch, e)) ∧
    expected_batch demo_busy (_getAllObjectLinks demo_busy)
      = [CallDirtyCheck 1 (Some 1); CallInsert 2; CallRemove 3] ∧
    (e = None → batch = expected_batch demo_busy (_getAllObjectLinks demo_busy)).
Proof.
  assert (wf demo_busy) as Hwf.
  { apply reachable_wf, run_all_reachable, reach_new. }
  split; [exact Hwf|].
  destruct (flush_assembles_in_three_passes
              (demo_env DeferredExplicit None) demo_busy Hwf)
    as (s1 & batch & e & Hrun & _ & _ & _ & _ & _ & _ & _ & Hfull).
  exists s1, batch, e. split; [exact Hrun|].
  split; [vm_compute; reflexivity|].
  intros He. exact (proj1 (Hfull He)).
Defined.

(** ** A flush that succeeds *)

Lemma flush_executed_body_eq lr l s :
  links s !! lr = Some l →
  flush_executed_body lr s
  = if decide (scheduledOperation l = Delete)
    then match _id s !! object l with
         | Some id =>
             (with_links (<[lr := set_scheduledOperation OpNone l]>)
                (unlinked l id s), Return None)
         | None => (s, Throw TypeError)
         end
    else (with_links (<[lr := set_scheduledOperation OpNone l]>) s,
          Return None).
Proof.
  intros Hl. unfold flush_executed_body.
  rewrite bind_eq, (deref_eq _ _ _ Hl), bind_eq.
  destruct (decide _) as [Hop|Hop].
  - destruct (_id s !! object l) as [id|] eqn:Hid.
    + rewrite (_unlinkObject_eq _ _ _ _ Hl Hid).
      rewrite bind_eq. erewrite update_eq by by rewrite unlinked_links.
      reflexivity.
    + by rewrite (_unlinkObject_no_id _ _ _ Hl Hid).
  - cbn [ret]. by rewrite bind_eq, (update_eq _ _ _ _ Hl).
Qed.

Lemma unlinked_objectLinks l id s :
  _objectLinks (unlinked l id s) = delete (toString id) (_objectLinks s).
Proof. unfold unlinked. by destruct (decide _). Qed.

Lemma unlinked_id l id s :
  _id (unlinked l id s)
  = if decide (scheduledOperation l = Insert ∨ state l = Removed)
    then delete (object l) (_id s) else _id s.
Proof. unfold unlinked. by destruct (decide _). Qed.

(** The loop after [batch.execute] only takes keys and [_id]s away. *)
Lemma flush_executed_body_shrinks lr s k o :
  _objectLinks s !! k = None ∧ _id s !! o = None →
  _objectLinks (flush_executed_body lr s).1 !! k = None ∧
  _id (flush_executed_body lr s).1 !! o = None.
Proof.
  intros [Hk Ho].
  destruct (links s !! lr) as [l|] eqn:Hl;
    [|unfold flush_executed_body;
      by rewrite bind_eq, (deref_none _ _ Hl)].
  rewrite (flush_executed_body_eq _ _ _ Hl).
  destruct (decide _); [|done].
  destruct (_id s !! object l) as [id|]; [|done]. simpl.
  rewrite unlinked_objectLinks, unlinked_id. split.
  - by apply lookup_delete_None; right.
  - destruct (decide _); [|done]. by apply lookup_delete_None; right.
Qed.

Lemma flush_executed_all_none list : ∀ s s' r,
  wf s →
  for_each flush_executed_body list s = (s', Return r) →
  (∀ k lr l, _objectLinks s !! k = Some lr → links s !! lr = Some l →
     lr ∈ list ∨ scheduledOperation l = OpNone) →
  ∀ k lr l, _objectLinks s' !! k = Some lr → links s' !! lr = Some l →
    scheduledOperation l = OpNone.
Proof.
  induction list as [|lr0 rest IH]; intros s s' r Hwf Hrun Hpre.
  - unfold for_each, ret in Hrun. simplify_eq.
    intros k lr l Hk Hl. destruct (Hpre k lr l Hk Hl) as [Hin|]; [|done].
    by apply elem_of_nil in Hin.
  - rewrite for_each_cons in Hrun.
    pose proof (flush_executed_body_wf lr0 s Hwf) as Hwf1.
    destruct (flush_executed_body lr0 s) as [s1 [[c|]|e]] eqn:Hbody;
      [by apply flush_executed_body_result in Hbody| |done].
    simpl in Hwf1. apply (IH s1 s' r Hwf1 Hrun).
    intros k lr l Hk Hl.
    destruct (links s !! lr0) as [l0|] eqn:Hl0;
      [|unfold flush_executed_body in Hbody;
        by rewrite bind_eq, (deref_none _ _ Hl0) in Hbody].
    rewrite (flush_executed_body_eq _ _ _ Hl0) in Hbody.
    assert (links s1 = <[lr0 := set_scheduledOperation OpNone l0]> (links s)
            ∧ ∀ k', _objectLinks s1 !! k' = Some lr →
                    _objectLinks s !! k' = Some lr) as [Hlinks Htable].
    { destruct (decide _).
      - destruct (_id s !! object l0) as [id|]; [|done]. simplify_eq. simpl.
        rewrite unlinked_links, unlinked_objectLinks. split; [done|].
        intros k' Hk'. by apply lookup_delete_Some in Hk' as [_ ?].
      - by simplify_eq. }
    rewrite Hlinks in Hl.
    destruct (decide (lr = lr0)) as [->|Hne].
    + rewrite lookup_insert_eq in Hl. simplify_eq. by right.
    + rewrite lookup_insert_ne in Hl by done.
      destruct (Hpre k lr l (Htable k Hk) Hl) as [Hin|Hop]; [|by right].
      left. by apply elem_of_cons in Hin as [?|?].
Qed.

Lemma flush_executed_shrinks list s k o :
  _objectLinks s !! k = None ∧ _id s !! o = None →
  _objectLinks (for_each flush_executed_body list s).1 !! k = None ∧
  _id (for_each flush_executed_body list s).1 !! o = None.
Proof.
  apply (for_each_preserves
           (fun s => _objectLinks s !! k = None ∧ _id s !! o = None)).
  intros lr s0. apply flush_executed_body_shrinks.
Qed.

Lemma flush_executed_deletes list : ∀ s s' r,
  wf s → NoDup list →
  (∀ lr, lr ∈ list → ∃ k, _objectLinks s !! k = Some lr) →
  for_each flush_executed_body list s = (s', Return r) →
  ∀ k lr l, lr ∈ list → _objectLinks s !! k = Some lr →
    links s !! lr = Some l → scheduledOperation l = Delete →
    _objectLinks s' !! k = None ∧ _id s' !! object l = None.
Proof.
  induction list as [|lr0 rest IH]; intros s s' r Hwf Hnd Hin Hrun k lr l Hlr.
  { by apply elem_of_nil in Hlr. }
  intros Hk Hl Hop.
  apply NoDup_cons in Hnd as [Hnotin Hnd].
  rewrite for_each_cons in Hrun.
  pose proof (flush_executed_body_wf lr0 s Hwf) as Hwf1.
  destruct (Hin lr0) as [k0 Hk0]; [apply list_elem_of_here|].
  destruct (Hwf k0 lr0 Hk0) as (l0 & Hl0 & (id0 & Hid0 & Hkey0) & Hdel0 & _).
  rewrite (flush_executed_body_eq _ _ _ Hl0) in Hrun, Hwf1.
  destruct (decide (lr = lr0)) as [->|Hne].
  - assert (l0 = l) as -> by congruence.
    assert (k = k0) as -> by exact (wf_inj s k k0 lr0 Hwf Hk Hk0).
    rewrite decide_True in Hrun by done. rewrite Hid0 in Hrun.
    pose proof (flush_executed_shrinks rest
      (with_links (<[lr0 := set_scheduledOperation OpNone l]>)
         (unlinked l id0 s)) k0 (object l)) as Hshrink.
    rewrite Hrun in Hshrink. apply Hshrink. simpl.
    rewrite unlinked_objectLinks, unlinked_id, Hkey0, lookup_delete_eq.
    split; [done|].
    rewrite decide_True by (right; auto). apply lookup_delete_eq.
  - apply elem_of_cons in Hlr as [?|Hlr]; [done|].
    assert (k ≠ k0) as Hkne by (intros ->; simplify_eq).
    destruct (decide (scheduledOperation l0 = Delete)) as [Hop0|Hop0].
    + rewrite Hid0 in Hrun, Hwf1. simpl in Hwf1.
      apply (IH _ s' r Hwf1 Hnd) with (lr := lr); [|done|done| | |done].
      * intros lr' Hin'. destruct (Hin lr') as [k' Hk'];
          [by apply list_elem_of_further|].
        exists k'. simpl. rewrite unlinked_objectLinks, Hkey0.
        rewrite lookup_delete_ne; [done|]. intros ->. simplify_eq.
      * simpl. rewrite unlinked_objectLinks, Hkey0.
        by rewrite lookup_delete_ne.
      * simpl. rewrite unlinked_links. by rewrite lookup_insert_ne.
    + simpl in Hwf1.
      apply (IH _ s' r Hwf1 Hnd) with (lr := lr); [|done|done|done| |done].
      * intros lr' Hin'. apply Hin. by apply list_elem_of_further.
      * simpl. by rewrite lookup_insert_ne.
Qed.

Lemma flush_executed_body_object lr0 s lr o :
  (∀ l, links s !! lr = Some l → object l = o) →
  ∀ l, links (flush_executed_body lr0 s).1 !! lr = Some l → object l = o.
Proof.
  intros Hobj l.
  destruct (links s !! lr0) as [l0|] eqn:Hl0;
    [|unfold flush_executed_body;
      rewrite bind_eq, (deref_none _ _ Hl0); by apply Hobj].
  rewrite (flush_executed_body_eq _ _ _ Hl0).
  assert (<[lr0 := set_scheduledOperation OpNone l0]> (links s) !! lr = Some l
          → object l = o) as Hins.
  { destruct (decide (lr0 = lr)) as [->|Hne].
    - rewrite lookup_insert_eq. intros [= <-]. simpl. by apply Hobj.
    - rewrite lookup_insert_ne by done. apply Hobj. }
  destruct (decide _); [|done].
  destruct (_id s !! object l0); [|by apply Hobj].
  simpl. by rewrite unlinked_links.
Qed.

Lemma flush_completed env s s' batch v :
  _flush env s = (s', Return (batch, Completed v)) →
  ∃ s1, _flush_assemble (_getAllObjectLinks s) s = (s1, Return (batch, None)) ∧
        Batch_execute env batch = None ∧
        for_each flush_executed_body (_getAllObjectLinks s) s1
        = (s', Return None).
Proof.
  unfold _flush. rewrite bind_eq. cbn [gets]. rewrite bind_eq.
  destruct (_flush_assemble _ _) as [s1 [[b1 [e1|]]|e1]];
    [unfold ret; intros H; by simplify_eq| |done].
  destruct (Batch_execute env b1) eqn:Hexec;
    [unfold ret; intros H; by simplify_eq|].
  rewrite bind_eq.
  destruct (for_each _ _ _) as [s2 [r|e]] eqn:Hloop; [|done].
  pose proof (flush_executed_result _ _ _ _ Hloop) as ->.
  unfold ret. intros H. simplify_eq. by exists s1.
Qed.

(** In a well-formed session the loop after [batch.execute] runs to its
    end: no step of it throws. *)
Lemma flush_executed_runs list : ∀ s,
  wf s → NoDup list →
  (∀ lr, lr ∈ list → ∃ k, _objectLinks s !! k = Some lr) →
  ∃ s', for_each flush_executed_body list s = (s', Return None).
Proof.
  induction list as [|lr0 rest IH]; intros s Hwf Hnd Hin; [by exists s|].
  apply NoDup_cons in Hnd as [Hnotin Hnd].
  rewrite for_each_cons.
  pose proof (flush_executed_body_wf lr0 s Hwf) as Hwf1.
  destruct (Hin lr0) as [k0 Hk0]; [apply list_elem_of_here|].
  destruct (Hwf k0 lr0 Hk0) as (l0 & Hl0 & (id0 & Hid0 & Hkey0) & _).
  rewrite (flush_executed_body_eq _ _ _ Hl0) in Hwf1 |- *.
  destruct (decide (scheduledOperation l0 = Delete)) as [Hop0|Hop0].
  - rewrite Hid0 in Hwf1 |- *. simpl in Hwf1.
    apply IH; [done..|].
    intros lr' Hin'. destruct (Hin lr') as [k' Hk'];
      [by apply list_elem_of_further|].
    exists k'. simpl. rewrite unlinked_objectLinks, Hkey0.
    rewrite lookup_delete_ne; [done|]. intros ->.
    assert (lr' = lr0) as -> by congruence. done.
  - simpl in Hwf1. apply IH; [done..|].
    intros lr' Hin'. apply Hin. by apply list_elem_of_further.
Qed.

(** C3.  In a well-formed session (every reachable one is), a flush whose
    persister calls and whose [batch.execute] report no error completes
    without error.  After a flush that completed without error, every
    link still in the identity table has nothing scheduled; every link
    that was scheduled for [Delete] when the flush started has left the
    table, and the entity it linked has no [_id] any more. *)
Theorem successful_flush_reconciles env s :
  wf s →
  let list := _getAllObjectLinks s in
  (no_persister_error s list →
   Batch_execute env (expected_batch s list) = None →
   ∃ s', _flush env s
         = (s', Return (expected_batch s list, Completed VUndefined))) ∧
  ∀ s' batch v,
    _flush env s = (s', Return (batch, Completed v)) →
    Batch_execute env batch = None ∧
    (∀ k lr l, _objectLinks s' !! k = Some lr → links s' !! lr = Some l →
       scheduledOperation l = OpNone) ∧
    (∀ k lr l, _objectLinks s !! k = Some lr → links s !! lr = Some l →
       scheduledOperation l = Delete →
       _objectLinks s' !! k = None ∧
       (∀ k', _objectLinks s' !! k' ≠ Some lr) ∧
       _id s' !! object l = None).
Proof.
  intros Hwf list.
  pose proof (_flush_assemble_same list s) as Hsame.
  pose proof (_flush_assemble_wf list s Hwf) as Hwf1.
  split.
  { intros Hnone Hexec.
    destruct (_flush_assemble_run list s (list_links_NoDup s Hwf))
      as (s1 & batch & e & Hasm & _ & He & Hfull).
    { intros lr Hin. by apply list_links_Some. }
    rewrite (He Hnone) in Hasm, Hfull.
    destruct (Hfull eq_refl) as [-> _].
    rewrite Hasm in Hsame, Hwf1. simpl in Hsame, Hwf1.
    destruct Hsame as (Ht & _).
    destruct (flush_executed_runs list s1 Hwf1 (list_links_NoDup s Hwf))
      as [s' Hloop].
    { intros lr' (k' & Hk')%list_links_elem. exists k'. by rewrite Ht. }
    exists s'. unfold _flush. rewrite bind_eq. cbn [gets].
    fold list. by rewrite bind_eq, Hasm, Hexec, bind_eq, Hloop. }
  intros s' batch v Hflush.
  destruct (flush_completed _ _ _ _ _ Hflush) as (s1 & Hasm & Hexec & Hloop).
  split; [done|]. fold list in Hasm, Hloop.
  rewrite Hasm in Hsame, Hwf1. simpl in Hsame, Hwf1.
  pose proof Hsame as (Ht & _ & _ & _ & _).
  split.
  - apply (flush_executed_all_none _ s1 s' None Hwf1 Hloop).
    intros k lr l Hk Hl. left. apply list_links_elem. exists k.
    by rewrite <- Ht.
  - intros k lr l Hk Hl Hop.
    destruct (same_schedule_lookup _ _ _ _ Hsame Hl)
      as (l1 & Hl1 & Hst1 & Hop1 & Hobj1 & _).
    assert (_objectLinks s' !! k = None ∧ _id s' !! object l1 = None)
      as [Hgone Hid].
    { apply (flush_executed_deletes list s1 s' None Hwf1
               (list_links_NoDup s Hwf)) with (lr := lr);
        [|done| |by rewrite Ht|done|congruence].
      - intros lr' (k' & Hk')%list_links_elem. exists k'. by rewrite Ht.
      - apply list_links_elem. by exists k. }
    split; [done|]. split; [|by rewrite <- Hobj1].
    intros k' Hk'.
    pose proof (for_each_preserves wf flush_executed_body
                  flush_executed_body_wf list s1 Hwf1)
      as Hwf'.
    rewrite Hloop in Hwf'. simpl in Hwf'.
    destruct (Hwf' k' lr Hk') as (l' & Hl' & (id' & Hid' & _) & _).
    pose proof (for_each_preserves
                  (fun s0 => ∀ l2, links s0 !! lr = Some l2 →
                                   object l2 = object l1)
                  flush_executed_body
                  (fun lr0 s0 => flush_executed_body_object lr0 s0 lr
                                   (object l1))
                  list s1) as Hobj'.
    rewrite Hloop in Hobj'. simpl in Hobj'.
    rewrite (Hobj' (fun l2 Hl2 => f_equal object
                      (Some_inj _ _ (eq_trans (eq_sym Hl2) Hl1))) l' Hl')
      in Hid'.
    congruence.
Qed.

Lemma successful_flush_reconciles_witness :
  let env := demo_env DeferredExplicit None in
  let r := _flush env demo_busy in
  wf demo_busy ∧
  r.2 = Return ([CallDirtyCheck 1 (Some 1); CallInsert 2; CallRemove 3],
                Completed VUndefined) ∧
  (∀ k lr l, _objectLinks r.1 !! k = Some lr → links r.1 !! lr = Some l →
     scheduledOperation l = OpNone) ∧
  (∀ k lr l, _objectLinks demo_busy !! k = Some lr →
     links demo_busy !! lr = Some l →
     scheduledOperation l = Delete →
     _objectLinks r.1 !! k = None ∧
     (∀ k', _objectLinks r.1 !! k' ≠ Some lr) ∧
     _id r.1 !! object l = None).
Proof.
  intros env r.
  assert (wf demo_busy) as Hwf.
  { apply reachable_wf, run_all_reachable, reach_new. }
  split; [exact Hwf|]. split; [vm_compute; reflexivity|].
  apply (proj2 (successful_flush_reconciles env demo_busy Hwf) r.1
           [CallDirtyCheck 1 (Some 1); CallInsert 2; CallRemove 3]
           VUndefined).
  vm_compute. reflexivity.
Defined.

(** ** Removing an entity that was never inserted *)

Lemma wf_not_linked obj s : wf s → _id s !! obj = None → not_linked obj s.
Proof.
  intros Hwf Hid k lr l Hk Hl Hobj.
  destruct (wf_key s k lr l Hwf Hk Hl) as (id & Hid' & _). congruence.
Qed.

Lemma _removeEntities_body_id env obj s o :
  wf s → _id s !! o = None → _id (_removeEntities_body env obj s).1 !! o = None.
Proof.
  intros Hwf Ho. unfold _removeEntities_body. rewrite bind_eq.
  destruct (_getObjectLinks_case env obj s Hwf)
    as [Hid|id Hid Hk Hm|id lr l Hid Hk Hl Hok|id Hid Hk Hin
       |id m Hid Hk Hown Hm];
    [done|done| |done|].
  - rewrite bind_eq, (deref_eq _ _ _ Hl).
    destruct Hok as ((id' & Hid' & Hkey) & Hdel & Hdet).
    destruct (state l) eqn:Hst; [|done..].
    rewrite bind_eq. destruct (decide _).
    + rewrite (_unlinkObject_eq _ _ _ _ Hl Hid'). simpl.
      rewrite unlinked_id. destruct (decide _); [|done].
      by apply lookup_delete_None; right.
    + by rewrite (update_update_eq _ _ _ _ _ Hl).
  - rewrite bind_eq. erewrite deref_eq; [|apply detached_lookup]. simpl.
    by rewrite cached_id.
Qed.

Lemma _removeEntities_body_insert env obj s id lr l :
  _id s !! obj = Some id → _objectLinks s !! toString id = Some lr →
  links s !! lr = Some l → object l = obj →
  state l = Managed → scheduledOperation l = Insert →
  _removeEntities_body env obj s
  = (with_id (delete obj) (with_objectLinks (delete (toString id)) s),
     Return None).
Proof.
  intros Hid Hk Hl Hobj Hst Hop. unfold _removeEntities_body.
  rewrite bind_eq, (_getObjectLinks_found env obj id lr) by done.
  rewrite bind_eq, (deref_eq _ _ _ Hl), Hst, bind_eq.
  rewrite decide_True by done.
  rewrite (_unlinkObject_eq _ l id) by (by rewrite ?Hobj).
  unfold unlinked. rewrite decide_True by auto. by rewrite Hobj.
Qed.

Lemma rev_middle {A} (pre post : list A) x :
  rev (pre ++ x :: post) = rev post ++ x :: rev pre.
Proof. rewrite rev_app_distr. simpl. by rewrite <- app_assoc. Qed.

Lemma flush_batch_prefix env s s' batch c :
  wf s → _flush env s = (s', Return (batch, c)) →
  ∃ more, expected_batch s (_getAllObjectLinks s) = batch ++ more.
Proof.
  intros Hwf Hflush.
  destruct (_flush_assemble_run (_getAllObjectLinks s) s
              (list_links_NoDup s Hwf))
    as (s1 & b & e & Hrun & Hpre & _).
  { intros lr Hin. by apply list_links_Some. }
  by rewrite (_flush_batch _ _ _ _ _ _ _ _ Hrun Hflush).
Qed.

(** The calls of a flush are about entities linked in the table. *)
Lemma flush_calls_linked env s s' batch c call :
  wf s → _flush env s = (s', Return (batch, c)) → call ∈ batch →
  ∃ k lr l, _objectLinks s !! k = Some lr ∧ links s !! lr = Some l ∧
            call_object call = object l.
Proof.
  intros Hwf Hflush Hin.
  destruct (flush_batch_prefix env s s' batch c Hwf Hflush) as (more & Hmore).
  assert (call ∈ expected_batch s (_getAllObjectLinks s)) as Hexp.
  { rewrite Hmore. apply elem_of_app. by left. }
  unfold expected_batch in Hexp.
  assert (∀ test f, (∀ l, call_object (f l) = object l) →
            call ∈ omap (pass_call test f s) (_getAllObjectLinks s) →
            ∃ k lr l, _objectLinks s !! k = Some lr ∧ links s !! lr = Some l ∧
                      call_object call = object l) as Hcase.
  { intros test f Hf (lr & Hlr & Hcall)%list_elem_of_omap.
    apply list_links_elem in Hlr as [k Hk].
    unfold pass_call in Hcall.
    destruct (links s !! lr) as [l|] eqn:Hl; [|done].
    destruct (test l); [|done]. simplify_eq.
    exists k, lr, l. by rewrite Hf. }
  apply elem_of_app in Hexp as [Hexp|Hexp];
    [by apply (Hcase needs_dirtyCheck dirtyCheck_of)|].
  apply elem_of_app in Hexp as [Hexp|Hexp].
  - by apply (Hcase (scheduled Insert) insert_of).
  - by apply (Hcase (scheduled Delete) remove_of).
Qed.

(** C7.  [_removeEntities] visits the entities from the last to the
    first.  When the loop reaches an entity [obj] that is linked, [Managed]
    and scheduled for [Insert], that step deletes the key of the link from
    the identity table and the [_id] of the entity; when [_removeEntities]
    ends, however it ends, [obj] has no [_id] and no link of the table is
    a link to it.  A flush of that session, and of any later well-formed
    session in which [obj] still has no [_id], makes no call on its batch
    for [obj], hence no delete. *)
Theorem remove_unflushed_insert env pre obj post s s1 id lr l :
  wf s →
  for_each (_removeEntities_body env) (rev post) s = (s1, Return None) →
  _id s1 !! obj = Some id →
  _objectLinks s1 !! toString id = Some lr →
  links s1 !! lr = Some l →
  object l = obj → state l = Managed → scheduledOperation l = Insert →
  let s' := (_removeEntities env (pre ++ obj :: post) s).1 in
  _removeEntities_body env obj s1
  = (with_id (delete obj) (with_objectLinks (delete (toString id)) s1),
     Return None) ∧
  _id s' !! obj = None ∧
  not_linked obj s' ∧
  wf s' ∧
  (∀ env' t t' batch c call,
     wf t → _id t !! obj = None →
     _flush env' t = (t', Return (batch, c)) → call ∈ batch →
     call_object call ≠ obj).
Proof.
  intros Hwf Hpost Hid Hk Hl Hobj Hst Hop s'.
  pose proof (_removeEntities_body_insert env obj s1 id lr l
                Hid Hk Hl Hobj Hst Hop) as Hstep.
  split; [done|].
  assert (wf s1) as Hwf1.
  { pose proof (for_each_preserves wf _ (_removeEntities_body_wf env)
                  (rev post) s Hwf) as H. by rewrite Hpost in H. }
  set (s2 := with_id (delete obj) (with_objectLinks (delete (toString id)) s1))
    in *.
  assert (wf s2 ∧ _id s2 !! obj = None) as Hs2.
  { split.
    - pose proof (_removeEntities_body_wf env obj s1 Hwf1) as H.
      by rewrite Hstep in H.
    - subst s2. simpl. apply lookup_delete_eq. }
  assert (wf s' ∧ _id s' !! obj = None) as [Hwf' Hid'].
  { subst s'. unfold _removeEntities. rewrite bind_eq, rev_middle.
    rewrite for_each_app, Hpost, for_each_cons, Hstep.
    pose proof (for_each_preserves
                  (fun s0 => wf s0 ∧ _id s0 !! obj = None)
                  (_removeEntities_body env)) as Hloop.
    specialize (Hloop (fun x s0 H =>
      conj (_removeEntities_body_wf env x s0 (proj1 H))
           (_removeEntities_body_id env x s0 obj (proj1 H) (proj2 H)))
      (rev pre) s2 Hs2).
    by destruct (for_each _ (rev pre) s2) as [s3 [r|e]]. }
  split; [done|]. split; [by apply wf_not_linked|]. split; [done|].
  intros env' t t' batch c call Hwft Hidt Hflush Hin.
  destruct (flush_calls_linked env' t t' batch c call Hwft Hflush Hin)
    as (k & lr' & l' & Hk' & Hl' & ->).
  by apply (wf_not_linked obj t Hwft Hidt k lr').
Qed.

Lemma remove_unflushed_insert_witness :
  let env := demo_env DeferredImplicit None in
  let s' := (_removeEntities env ([5] ++ 1 :: [7]) demo_unflushed).1 in
  wf demo_unflushed ∧
  _objectLinks demo_unflushed !! "a" = Some 0 ∧
  _id s' !! 1 = None ∧
  not_linked 1 s' ∧
  wf s' ∧
  (∀ env' t t' batch c call,
     wf t → _id t !! 1 = None →
     _flush env' t = (t', Return (batch, c)) → call ∈ batch →
     call_object call ≠ 1).
Proof.
  intros env s'.
  assert (wf demo_unflushed) as Hwf.
  { apply reachable_wf, run_all_reachable, reach_new. }
  split; [exact Hwf|]. split; [vm_compute; reflexivity|].
  apply (remove_unflushed_insert env [5] 1 [7] demo_unflushed demo_unflushed
           (Id "a") 0 (new_link 1 (demo_persister DeferredImplicit) Insert)
           Hwf);
    vm_compute; reflexivity.
Defined.

(** ** Saving a new entity, and a detached one *)

Lemma _saveEntities_body_new env obj m s :
  _id s !! obj = None → getMappingForObject (factory env) obj = Some m →
  _objectLinks s
    !! toString (generate (Persister.identity (persister_of env m s))
                          (generated s)) = None →
  inherited (toString (generate (Persister.identity (persister_of env m s))
                                (generated s))) = false →
  _saveEntities_body env obj s = (saved_new env obj m s, Return None).
Proof.
  intros Hid Hm Hk Hown. unfold _saveEntities_body.
  rewrite bind_eq, _getObjectLinks_no_id by done.
  rewrite bind_eq, _getPersisterForObject_eq, Hm.
  mrun. rewrite cached_generated.
  erewrite _linkObject_eq;
    [done|simpl; apply lookup_insert_eq|simpl; by rewrite cached_objectLinks
    |done].
Qed.

(** When the generated identifier is the name of an inherited member,
    [_linkObject] throws after the entity has received its [_id]. *)
Lemma _saveEntities_body_refused env obj m s :
  _id s !! obj = None → getMappingForObject (factory env) obj = Some m →
  inherited (toString (generate (Persister.identity (persister_of env m s))
                                (generated s))) = true →
  _saveEntities_body env obj s
  = (with_id (<[obj := generate (Persister.identity (persister_of env m s))
                                (generated s)]>)
       (with_generated S (cached env m s)),
     Throw (already_linked
              (toString (generate (Persister.identity (persister_of env m s))
                                  (generated s))))).
Proof.
  intros Hid Hm Hin. unfold _saveEntities_body.
  rewrite bind_eq, _getObjectLinks_no_id by done.
  rewrite bind_eq, _getPersisterForObject_eq, Hm.
  mrun. rewrite cached_generated.
  erewrite _linkObject_inherited;
    [done|simpl; apply lookup_insert_eq|done].
Qed.

(** An entity that carries an identifier named like an inherited member,
    and has no link, is passed over by the three loops. *)
Lemma _saveEntities_body_member env obj id s :
  _id s !! obj = Some id → _objectLinks s !! toString id = None →
  inherited (toString id) = true →
  _saveEntities_body env obj s = (s, Return None).
Proof.
  intros Hid Hk Hin. unfold _saveEntities_body.
  by rewrite bind_eq, (_getObjectLinks_member env obj id).
Qed.

Lemma _removeEntities_body_member env obj id s :
  _id s !! obj = Some id → _objectLinks s !! toString id = None →
  inherited (toString id) = true →
  _removeEntities_body env obj s = (s, Return None).
Proof.
  intros Hid Hk Hin. unfold _removeEntities_body.
  by rewrite bind_eq, (_getObjectLinks_member env obj id).
Qed.

Lemma _detachEntities_body_member env obj id s :
  _id s !! obj = Some id → _objectLinks s !! toString id = None →
  inherited (toString id) = true →
  _detachEntities_body env obj s = (s, Return None).
Proof.
  intros Hid Hk Hin. unfold _detachEntities_body.
  by rewrite bind_eq, (_getObjectLinks_member env obj id).
Qed.

Lemma linked_as_saved_new env obj m s :
  linked_as obj (generate (Persister.identity (persister_of env m s))
                          (generated s)) Managed Insert
    (saved_new env obj m s).
Proof.
  unfold linked_as, saved_new. split; [simpl; apply lookup_insert_eq|].
  eexists _, _. split; [apply lookup_insert_eq|].
  split; [apply linked_lookup|done].
Qed.

Lemma _saveEntities_body_detached env obj id m s :
  _id s !! obj = Some id → _objectLinks s !! toString id = None →
  getMappingForObject (factory env) obj = Some m →
  inherited (toString id) = false →
  _saveEntities_body env obj s
  = (linked id (detached_link obj (persister_of env m s)) (cached env m s),
     Return (Some (Failed detached_save))).
Proof.
  intros Hid Hk Hm Hown. unfold _saveEntities_body.
  rewrite bind_eq, (_getObjectLinks_detached env obj id m) by done.
  rewrite bind_eq. by erewrite deref_eq by apply detached_lookup.
Qed.

Lemma _removeEntities_body_detached env obj id m s :
  _id s !! obj = Some id → _objectLinks s !! toString id = None →
  getMappingForObject (factory env) obj = Some m →
  inherited (toString id) = false →
  _removeEntities_body env obj s
  = (linked id (detached_link obj (persister_of env m s)) (cached env m s),
     Return (Some (Failed detached_remove))).
Proof.
  intros Hid Hk Hm Hown. unfold _removeEntities_body.
  rewrite bind_eq, (_getObjectLinks_detached env obj id m) by done.
  rewrite bind_eq. by erewrite deref_eq by apply detached_lookup.
Qed.

Lemma linked_as_detached env obj id m s :
  _id s !! obj = Some id →
  linked_as obj id Detached OpNone
    (linked id (detached_link obj (persister_of env m s)) (cached env m s)).
Proof.
  intros Hid. split; [by rewrite linked_id, cached_id|].
  eexists _, _. split; [apply lookup_insert_eq|].
  split; [apply linked_lookup|done].
Qed.








(** ** After a failed flush *)

(** An example for C6.  [batch.execute] reports an error, the callback
    of [flush] receives it, and the [save] dispatched next is executed:
    its callback receives no error and the entity is in the session. *)
Lemma save_after_failed_flush_executes :
  let env := demo_env DeferredImplicit (Some "E11000 duplicate key"%string) in
  let flushed := run env flush demo_unflushed in
  let saved := run env (save 2) flushed.1 in
  flushed.2 = Return (Failed "E11000 duplicate key") ∧
  saved.2 = Return (Completed VUndefined) ∧
  contains 2 saved.1 = true ∧
  linked_as 2 (Id "aa") Managed Insert saved.1.
Proof.
  intros env flushed saved.
  split; [vm_compute; reflexivity|]. split; [vm_compute; reflexivity|].
  split; [vm_compute; reflexivity|].
  split; [vm_compute; reflexivity|].
  exists 1, (new_link 2 (demo_persister DeferredImplicit) Insert).
  vm_compute. done.
Qed.

(** C6.  The session is not poisoned by a failed batch, although the
    comments of [_flush] say it should be.  When [batch.execute] reports
    an error, the callback of [_flush] receives that error and nothing
    else is done: a task dispatched next is executed, it does not fail
    fast.  In particular the [save] of an entity without [_id], of a
    mapped class, whose generated identifier is free (not a key of the
    table nor the name of a member it inherits), links it, [Managed] and
    scheduled for [Insert], and completes without error. *)
Theorem failed_batch_does_not_poison env s s1 batch err :
  _flush_assemble (_getAllObjectLinks s) s = (s1, Return (batch, None)) →
  Batch_execute env batch = Some err →
  _flush env s = (s1, Return (batch, Failed err)) ∧
  ∀ obj m,
    _id s !! obj = None →
    getMappingForObject (factory env) obj = Some m →
    walk env m obj PropertyFlags.CascadeSave = inr [obj] →
    let g := generate (Persister.identity (persister_of env m s))
                      (generated s) in
    _objectLinks s !! toString g = None →
    inherited (toString g) = false →
    ∃ s2, run env (save obj) s1 = (s2, Return (Completed VUndefined)) ∧
          linked_as obj g Managed Insert s2.
Proof.
  intros Hasm Hexec. split.
  { unfold _flush. rewrite bind_eq. cbn [gets].
    by rewrite bind_eq, Hasm, Hexec. }
  intros obj m Hid Hm Hwalk g Hfree Hown.
  pose proof (_flush_assemble_same (_getAllObjectLinks s) s) as Hsame.
  rewrite Hasm in Hsame. destruct Hsame as (Ht & Hc & Hi & Hg & _).
  simpl in Ht, Hc, Hi, Hg.
  assert (persister_of env m s1 = persister_of env m s) as Hp
    by (unfold persister_of; by rewrite Hc).
  exists (saved_new env obj m s1). split.
  - unfold run, save, _queue_add, _execute, _save, _findReferencedEntities.
    cbn [action arg]. rewrite Hm, Hwalk. unfold _saveEntities.
    rewrite bind_eq, for_each_cons.
    rewrite (_saveEntities_body_new env obj m s1);
      [done|by rewrite Hi|done|by rewrite Hp, Hg, Ht|by rewrite Hp, Hg].
  - subst g. rewrite <- Hp, <- Hg. apply linked_as_saved_new.
Qed.

Lemma failed_batch_does_not_poison_witness :
  let env := demo_env DeferredImplicit (Some "E11000 duplicate key"%string) in
  let s1 := (_flush_assemble (_getAllObjectLinks demo_unflushed)
               demo_unflushed).1 in
  Batch_execute env [CallInsert 1] = Some "E11000 duplicate key"%string ∧
  _flush env demo_unflushed
    = (s1, Return ([CallInsert 1], Failed "E11000 duplicate key")) ∧
  ∃ s2, run env (save 2) s1 = (s2, Return (Completed VUndefined)) ∧
        linked_as 2 (Id "aa") Managed Insert s2.
Proof.
  intros env s1. split; [reflexivity|].
  destruct (failed_batch_does_not_poison env demo_unflushed s1
              [CallInsert 1] "E11000 duplicate key") as [Hflush Hsave];
    [vm_compute; reflexivity|reflexivity|].
  split; [exact Hflush|].
  apply (Hsave 2 demo_mapping); vm_compute; reflexivity.
Defined.

(** ** Detached entities *)

(** C2 (counterexample).  Entity 9 carries the identifier "z" and the
    session has never seen it.  [save] reports the detached-object error,
    and the session it leaves, a reachable one, holds under "z" a link to
    entity 9 in state [Detached]. *)
Lemma detached_link_in_table :
  let env := demo_env DeferredImplicit None in
  let r := run env (save 9) (new_session {[9 := Id "z"]}) in
  reachable r.1 ∧
  r.2 = Return (Failed detached_save) ∧
  ∃ lr l, _objectLinks r.1 !! "z" = Some lr ∧ links r.1 !! lr = Some l ∧
          state l = Detached ∧ object l = 9.
Proof.
  intros env r. split; [apply reach_execute, reach_new|].
  split; [vm_compute; reflexivity|].
  exists 0, (detached_link 9 (demo_persister DeferredImplicit)).
  vm_compute. done.
Qed.

(** C2 (amended).  In every reachable session a link of the identity
    table in state [Detached] has nothing scheduled.  When [save] or
    [remove] meets an entity that has an [_id] but no link, whose class
    is mapped and whose identifier is not the name of a member the table
    inherits from [Object.prototype], the callback receives the
    detached-object error and the entity is then in the table, linked
    under its identifier in state [Detached]. *)
Theorem detached_links_are_stored env s :
  reachable s →
  (∀ k lr l, _objectLinks s !! k = Some lr → links s !! lr = Some l →
     state l = Detached → scheduledOperation l = OpNone) ∧
  ∀ obj id m,
    _id s !! obj = Some id → _objectLinks s !! toString id = None →
    inherited (toString id) = false →
    getMappingForObject (factory env) obj = Some m →
    (∀ rest, ∃ s',
       _saveEntities env (obj :: rest) s
         = (s', Return (Failed detached_save)) ∧
       linked_as obj id Detached OpNone s') ∧
    (∀ rest, ∃ s',
       _removeEntities env (rest ++ [obj]) s
         = (s', Return (Failed detached_remove)) ∧
       linked_as obj id Detached OpNone s').
Proof.
  intros Hwf%reachable_wf. split.
  { intros k lr l Hk Hl Hst.
    destruct (Hwf k lr Hk) as (l' & Hl' & _ & _ & Hdet). simplify_eq.
    by apply Hdet. }
  intros obj id m Hid Hk Hown Hm. split; intros rest; eexists; split.
  - unfold _saveEntities. rewrite bind_eq, for_each_cons.
    by rewrite (_saveEntities_body_detached env obj id m).
  - by apply linked_as_detached.
  - unfold _removeEntities. rewrite bind_eq, rev_app_distr.
    cbn [rev app]. rewrite for_each_cons.
    by rewrite (_removeEntities_body_detached env obj id m).
  - by apply linked_as_detached.
Qed.

Lemma detached_links_are_stored_witness :
  let env := demo_env DeferredImplicit None in
  let s := new_session {[9 := Id "z"]} in
  reachable s ∧
  ∃ s', _saveEntities env [9] s = (s', Return (Failed detached_save)) ∧
        linked_as 9 (Id "z") Detached OpNone s'.
Proof.
  intros env s. split; [apply reach_new|].
  destruct (detached_links_are_stored env s (reach_new _)) as [_ Hdet].
  destruct (Hdet 9 (Id "z") demo_mapping) as [Hsave _];
    [vm_compute; reflexivity..|].
  exact (Hsave []).
Defined.

(** ** State and scheduled operation of the links *)

Lemma schedules_ok_sub s s' :
  (∀ k lr, _objectLinks s' !! k = Some lr → _objectLinks s !! k = Some lr) →
  links s' = links s → schedules_ok s → schedules_ok s'.
Proof.
  intros Ht Hl Hok k lr l Hk Hlr. rewrite Hl in Hlr.
  by apply (Hok k lr l (Ht k lr Hk)).
Qed.

Lemma schedules_ok_cached env m s : schedules_ok s → schedules_ok (cached env m s).
Proof.
  apply schedules_ok_sub; [|apply cached_links].
  intros k lr. by rewrite cached_objectLinks.
Qed.

Lemma schedules_ok_unlinked l id s :
  schedules_ok s → schedules_ok (unlinked l id s).
Proof.
  apply schedules_ok_sub; [|apply unlinked_links].
  intros k lr. rewrite unlinked_objectLinks.
  by intros [_ ?]%lookup_delete_Some.
Qed.

Lemma schedules_ok_update s lr l' :
  schedules_ok s →
  ((∃ k, _objectLinks s !! k = Some lr) → schedule_ok l') →
  schedules_ok (with_links (<[lr := l']>) s).
Proof.
  intros Hok Hl' k lr0 l0 Hk Hl0. simpl in *.
  destruct (decide (lr = lr0)) as [<-|Hne].
  - rewrite lookup_insert_eq in Hl0. simplify_eq. apply Hl'. by exists k.
  - rewrite lookup_insert_ne in Hl0 by done. by apply (Hok k lr0).
Qed.

Lemma schedules_ok_update2 s lr l1 l2 :
  schedules_ok s →
  ((∃ k, _objectLinks s !! k = Some lr) → schedule_ok l2) →
  schedules_ok (with_links (<[lr := l2]>) (with_links (<[lr := l1]>) s)).
Proof.
  intros Hok Hl2.
  apply (schedules_ok_sub (with_links (<[lr := l2]>) s));
    [done|simpl; apply insert_insert_eq|].
  by apply schedules_ok_update.
Qed.

Lemma schedules_ok_linked s id l :
  wf s → schedules_ok s → schedule_ok l → schedules_ok (linked id l s).
Proof.
  intros Hwf Hok Hl k lr l0 Hk Hl0.
  rewrite linked_objectLinks in Hk. rewrite linked_links in Hl0.
  destruct (decide (lr = fresh (dom (links s)))) as [->|Hne].
  - rewrite lookup_insert_eq in Hl0. by simplify_eq.
  - rewrite lookup_insert_ne in Hl0 by done.
    destruct (decide (toString id = k)) as [<-|Hk'].
    + rewrite lookup_insert_eq in Hk. by simplify_eq.
    + rewrite lookup_insert_ne in Hk by done. by apply (Hok k lr).
Qed.

Lemma schedule_ok_new_link obj p op :
  op = OpNone ∨ op = Insert → schedule_ok (new_link obj p op).
Proof. intros [->| ->]; repeat split; simpl; congruence. Qed.

Lemma schedule_ok_detached_link obj p : schedule_ok (detached_link obj p).
Proof. repeat split; simpl; congruence. Qed.

Lemma schedule_ok_document d l :
  schedule_ok l → schedule_ok (set_originalDocument d l).
Proof. by intros (? & ? & ?). Qed.

Lemma _saveEntities_body_schedules env obj s :
  wf s ∧ schedules_ok s →
  wf (_saveEntities_body env obj s).1 ∧
  schedules_ok (_saveEntities_body env obj s).1.
Proof.
  intros [Hwf Hok]. split; [by apply _saveEntities_body_wf|].
  unfold _saveEntities_body. rewrite bind_eq.
  destruct (_getObjectLinks_case env obj s Hwf)
    as [Hid|id Hid Hk Hm|id lr l Hid Hk Hl Hok'|id Hid Hk Hin
       |id m Hid Hk Hown Hm].
  - rewrite bind_eq, _getPersisterForObject_eq.
    destruct (getMappingForObject (factory env) obj) as [m|]; [|done].
    mrun. set (g := generate _ _). set (s2 := with_id _ _).
    assert (wf s2) as Hwf2.
    { apply wf_assign; [|by simpl; rewrite cached_id].
      apply (wf_ext (cached env m s)); [done..|]. by apply wf_cached. }
    assert (schedules_ok s2) as Hok2.
    { apply (schedules_ok_sub (cached env m s)); [done..|].
      by apply schedules_ok_cached. }
    assert (_id s2 !! obj = Some g) as Hg by apply lookup_insert_eq.
    destruct (_objectLinks s2 !! toString g) as [lr'|] eqn:Hk'.
    + by erewrite _linkObject_taken.
    + destruct (inherited (toString g)) eqn:Hing;
        [by erewrite _linkObject_inherited|].
      erewrite _linkObject_eq by done. simpl.
      apply schedules_ok_linked; [done..|]. apply schedule_ok_new_link; auto.
  - by rewrite bind_eq, _getPersisterForObject_eq, Hm.
  - rewrite bind_eq, (deref_eq _ _ _ Hl).
    destruct (Hok _ _ _ Hk Hl) as (Hrem & Hins & Hupd).
    destruct (state l) eqn:Hst.
    + rewrite bind_eq. destruct (decide _); [|done].
      destruct (op_falsy _); [|done].
      rewrite (update_eq _ _ _ _ Hl). simpl.
      apply schedules_ok_update; [done|]. intros _.
      repeat split; simpl; congruence.
    + done.
    + rewrite bind_eq, (update_eq _ _ _ _ Hl).
      rewrite bind_eq. erewrite update_eq; [|simpl; apply lookup_insert_eq].
      simpl. apply schedules_ok_update2; [done|]. intros _.
      repeat split; simpl; congruence.
  - done.
  - rewrite bind_eq. erewrite deref_eq; [|apply detached_lookup]. simpl.
    apply schedules_ok_linked; [by apply wf_cached
                               |by apply schedules_ok_cached|].
    apply schedule_ok_detached_link.
Qed.

Lemma _removeEntities_body_schedules env obj s :
  wf s ∧ schedules_ok s →
  wf (_removeEntities_body env obj s).1 ∧
  schedules_ok (_removeEntities_body env obj s).1.
Proof.
  intros [Hwf Hok]. split; [by apply _removeEntities_body_wf|].
  unfold _removeEntities_body. rewrite bind_eq.
  destruct (_getObjectLinks_case env obj s Hwf)
    as [Hid|id Hid Hk Hm|id lr l Hid Hk Hl Hok'|id Hid Hk Hin
       |id m Hid Hk Hown Hm];
    [done|done| |done|].
  - rewrite bind_eq, (deref_eq _ _ _ Hl).
    destruct Hok' as ((id' & Hid' & Hkey) & _).
    destruct (state l) eqn:Hst; [|done..].
    rewrite bind_eq. destruct (decide _).
    + rewrite (_unlinkObject_eq _ _ _ _ Hl Hid'). simpl.
      by apply schedules_ok_unlinked.
    + rewrite (update_update_eq _ _ _ _ _ Hl). simpl.
      apply schedules_ok_update; [done|]. intros _.
      destruct (Hok _ _ _ Hk Hl) as (_ & _ & Hupd).
      repeat split; simpl; congruence.
  - rewrite bind_eq. erewrite deref_eq; [|apply detached_lookup]. simpl.
    apply schedules_ok_linked; [by apply wf_cached
                               |by apply schedules_ok_cached|].
    apply schedule_ok_detached_link.
Qed.

Lemma _detachEntities_body_schedules env obj s :
  wf s ∧ schedules_ok s →
  wf (_detachEntities_body env obj s).1 ∧
  schedules_ok (_detachEntities_body env obj s).1.
Proof.
  intros [Hwf Hok]. split; [by apply _detachEntities_body_wf|].
  unfold _detachEntities_body. rewrite bind_eq.
  destruct (_getObjectLinks_case env obj s Hwf)
    as [Hid|id Hid Hk Hm|id lr l Hid Hk Hl Hok'|id Hid Hk Hin
       |id m Hid Hk Hown Hm];
    [done|done| |done|].
  - rewrite bind_eq, (deref_eq _ _ _ Hl).
    destruct Hok' as ((id' & Hid' & Hkey) & _).
    rewrite bind_eq. destruct (decide _); [|done].
    rewrite (_unlinkObject_eq _ _ _ _ Hl Hid'). simpl.
    by apply schedules_ok_unlinked.
  - rewrite bind_eq. erewrite deref_eq; [|apply detached_lookup]. simpl.
    apply schedules_ok_linked; [by apply wf_cached
                               |by apply schedules_ok_cached|].
    apply schedule_ok_detached_link.
Qed.

Lemma flush_executed_body_schedules lr s :
  wf s ∧ schedules_ok s →
  wf (flush_executed_body lr s).1 ∧
  schedules_ok (flush_executed_body lr s).1.
Proof.
  intros [Hwf Hok]. split; [by apply flush_executed_body_wf|].
  destruct (links s !! lr) as [l|] eqn:Hl;
    [|unfold flush_executed_body;
      by rewrite bind_eq, (deref_none _ _ Hl)].
  rewrite (flush_executed_body_eq _ _ _ Hl).
  destruct (decide (scheduledOperation l = Delete)) as [Hop|Hop].
  - destruct (_id s !! object l) as [id|] eqn:Hid; [|done]. simpl.
    apply schedules_ok_update; [by apply schedules_ok_unlinked|].
    intros [k Hk]. simpl in Hk. rewrite unlinked_objectLinks in Hk.
    apply lookup_delete_Some in Hk as [Hne Hk].
    destruct (wf_key s k lr l Hwf Hk Hl) as (id' & Hid' & Hkey).
    congruence.
  - simpl. apply schedules_ok_update; [done|]. intros [k Hk].
    destruct (Hok _ _ _ Hk Hl) as (Hrem & _ & _).
    repeat split; simpl; [|congruence..]. intros Hst. by apply Hrem in Hst.
Qed.

Lemma call_pass_schedules test call result list : ∀ batch s,
  schedules_ok s → schedules_ok (call_pass test call result list batch s).1.
Proof.
  induction list as [|lr rest IH]; intros batch s Hok; [done|].
  cbn [call_pass]. rewrite bind_eq.
  destruct (links s !! lr) as [l|] eqn:Hl;
    [rewrite (deref_eq _ _ _ Hl)|by rewrite (deref_none _ _ Hl)].
  destruct (test l); [|by apply IH].
  destruct (error _); [done|].
  rewrite bind_eq, (update_eq _ _ _ _ Hl). apply IH.
  apply schedules_ok_update; [done|]. intros [k Hk].
  apply schedule_ok_document. by apply (Hok k lr).
Qed.

Lemma _flush_assemble_schedules list s :
  schedules_ok s → schedules_ok (_flush_assemble list s).1.
Proof.
  intros Hok. unfold _flush_assemble. rewrite bind_eq, dirtyCheck_pass_eq.
  pose proof (call_pass_schedules needs_dirtyCheck dirtyCheck_of
                dirtyCheck_result list [] s Hok) as H1.
  destruct (call_pass _ _ _ _ _ _) as [s1 [[b1 [e1|]]|e1]]; simpl in H1;
    [done| |done].
  rewrite bind_eq, insert_pass_eq.
  pose proof (call_pass_schedules (scheduled Insert) insert_of
                insert_result list b1 s1 H1) as H2.
  destruct (call_pass _ _ _ _ _ _) as [s2 [[b2 [e2|]]|e2]]; simpl in H2;
    [done| |done].
  rewrite bind_eq.
  pose proof (remove_pass_state list b2 s2) as H3.
  by destruct (remove_pass _ _ _) as [s3 [b3|e3]]; simpl in H3; subst s3.
Qed.

Lemma _flush_schedules env s :
  wf s ∧ schedules_ok s → wf (_flush env s).1 ∧ schedules_ok (_flush env s).1.
Proof.
  intros [Hwf Hok]. split; [by apply _flush_wf|].
  unfold _flush. rewrite bind_eq. cbn [gets]. rewrite bind_eq.
  pose proof (_flush_assemble_wf (_getAllObjectLinks s) s Hwf) as Hwf1.
  pose proof (_flush_assemble_schedules (_getAllObjectLinks s) s Hok) as H1.
  destruct (_flush_assemble _ _) as [s1 [[b1 [e1|]]|e1]];
    simpl in H1, Hwf1; [done| |done].
  destruct (Batch_execute env b1); [done|].
  rewrite bind_eq.
  pose proof (for_each_preserves _ flush_executed_body
                flush_executed_body_schedules (_getAllObjectLinks s) s1
                (conj Hwf1 H1)) as [_ H4].
  by destruct (for_each _ _ _) as [s4 [r|e]].
Qed.

Lemma then_callback_preserves {A} (I : Session → Prop) (m : M A)
    (f : A → Completion) s :
  I (m s).1 → I (bind m (fun r => ret (f r)) s).1.
Proof. rewrite bind_eq. by destruct (m s) as [s' [r|e]]. Qed.

Lemma _execute_schedules env a x s :
  wf s ∧ schedules_ok s →
  wf (_execute env a x s).1 ∧ schedules_ok (_execute env a x s).1.
Proof.
  intros H. pose proof H as [Hwf Hok].
  split; [by apply _execute_wf|].
  assert (schedules_ok (with_objectLinks (fun _ => ∅) s)) as Hclear.
  { intros k lr l Hk. simpl in Hk. by rewrite lookup_empty in Hk. }
  destruct a, x; simpl; try done;
    try (apply (then_callback_preserves schedules_ok (_flush env) snd);
         by apply _flush_schedules).
  - unfold _save. destruct (_findReferencedEntities _ _ _); [done|].
    apply (then_callback_preserves schedules_ok).
    by apply (for_each_preserves _ _ (_saveEntities_body_schedules env)).
  - unfold _remove. destruct (_findReferencedEntities _ _ _); [done|].
    apply (then_callback_preserves schedules_ok).
    by apply (for_each_preserves _ _ (_removeEntities_body_schedules env)).
  - unfold _detach. destruct (_findReferencedEntities _ _ _); [done|].
    apply (then_callback_preserves schedules_ok).
    by apply (for_each_preserves _ _ (_detachEntities_body_schedules env)).
  - unfold _find. rewrite bind_eq. unfold _getPersisterForConstructor.
    destruct (getMappingForConstructor _ _); [|done].
    rewrite bind_eq, getPersister_eq. simpl. by apply schedules_ok_cached.
Qed.

Lemma registerManaged_schedules p entity document s :
  wf s → schedules_ok s →
  schedules_ok (registerManaged p entity document s).1.
Proof.
  intros Hwf Hok. unfold registerManaged. rewrite bind_eq.
  destruct (_id s !! entity) as [id|] eqn:Hid;
    [|by rewrite _linkObject_no_id].
  destruct (_objectLinks s !! toString id) as [lr|] eqn:Hk;
    [by erewrite _linkObject_taken|].
  destruct (inherited (toString id)) eqn:Hin;
    [by erewrite _linkObject_inherited|].
  rewrite (_linkObject_eq _ _ _ id) by done.
  erewrite update_eq by apply linked_lookup. simpl.
  apply schedules_ok_update.
  - apply schedules_ok_linked; [done..|]. apply schedule_ok_new_link; auto.
  - intros _. apply schedule_ok_document, schedule_ok_new_link. auto.
Qed.

Lemma reachable_schedules s : reachable s → schedules_ok s.
Proof.
  induction 1 as [ids|env a x s Hs IH|p e d s Hs IH|obj id s Hs IH Hid].
  - intros k lr l Hk. simpl in Hk. by rewrite lookup_empty in Hk.
  - by apply _execute_schedules; split; [apply reachable_wf|].
  - apply registerManaged_schedules; [by apply reachable_wf|done].
  - by apply (schedules_ok_sub s).
Qed.

(** X1.  In every reachable session, each key of the identity table leads
    to a link whose entity carries an identifier that stringifies to that
    key, so an entity has at most one link; the link is [Removed] exactly
    when it is scheduled for [Delete], only a [Managed] link is scheduled
    for [Insert], a [Detached] link has nothing scheduled, and [Update] is
    never scheduled. *)
Theorem reachable_session_consistent s :
  reachable s →
  (∀ k lr, _objectLinks s !! k = Some lr →
     ∃ l id, links s !! lr = Some l ∧
             _id s !! object l = Some id ∧ toString id = k ∧
             (state l = Removed ↔ scheduledOperation l = Delete) ∧
             (scheduledOperation l = Insert → state l = Managed) ∧
             (state l = Detached → scheduledOperation l = OpNone) ∧
             scheduledOperation l ≠ Update) ∧
  (∀ k1 k2 lr1 lr2 l1 l2,
     _objectLinks s !! k1 = Some lr1 → _objectLinks s !! k2 = Some lr2 →
     links s !! lr1 = Some l1 → links s !! lr2 = Some l2 →
     object l1 = object l2 → k1 = k2 ∧ lr1 = lr2).
Proof.
  intros Hs. pose proof (reachable_wf s Hs) as Hwf.
  pose proof (reachable_schedules s Hs) as Hok. split.
  - intros k lr Hk.
    destruct (Hwf k lr Hk) as (l & Hl & (id & Hid & Hkey) & Hdel & Hdet).
    destruct (Hok k lr l Hk Hl) as (Hrem & Hins & Hupd).
    exists l, id. repeat split; auto.
  - intros k1 k2 lr1 lr2 l1 l2 Hk1 Hk2 Hl1 Hl2 Hobj.
    destruct (wf_key s k1 lr1 l1 Hwf Hk1 Hl1) as (id1 & Hid1 & <-).
    destruct (wf_key s k2 lr2 l2 Hwf Hk2 Hl2) as (id2 & Hid2 & <-).
    rewrite Hobj in Hid1. simplify_eq. split; [done|]. congruence.
Qed.

Lemma reachable_session_consistent_witness :
  reachable demo_busy ∧
  ∀ k lr, _objectLinks demo_busy !! k = Some lr →
    ∃ l id, links demo_busy !! lr = Some l ∧
            _id demo_busy !! object l = Some id ∧ toString id = k ∧
            (state l = Removed ↔ scheduledOperation l = Delete) ∧
            (scheduledOperation l = Insert → state l = Managed) ∧
            (state l = Detached → scheduledOperation l = OpNone) ∧
            scheduledOperation l ≠ Update.
Proof.
  assert (reachable demo_busy) as Hs by apply run_all_reachable, reach_new.
  split; [exact Hs|].
  exact (proj1 (reachable_session_consistent demo_busy Hs)).
Defined.

(** ** One entity at a time *)

Lemma for_each_single {A} (body : A → M (option Completion)) x s s' r :
  body x s = (s', Return r) → for_each body [x] s = (s', Return r).
Proof. intros H. rewrite for_each_cons, H. by destruct r. Qed.

Lemma _saveEntities_single env obj s s' r :
  _saveEntities_body env obj s = (s', Return r) →
  _saveEntities env [obj] s = (s', Return (then_callback r)).
Proof.
  intros H. unfold _saveEntities.
  by rewrite bind_eq, (for_each_single _ _ _ _ _ H).
Qed.

Lemma _removeEntities_single env obj s s' r :
  _removeEntities_body env obj s = (s', Return r) →
  _removeEntities env [obj] s = (s', Return (then_callback r)).
Proof.
  intros H. unfold _removeEntities. cbn [rev app].
  by rewrite bind_eq, (for_each_single _ _ _ _ _ H).
Qed.

Lemma _detachEntities_single env obj s s' r :
  _detachEntities_body env obj s = (s', Return r) →
  _detachEntities env [obj] s = (s', Return (then_callback r)).
Proof.
  intros H. unfold _detachEntities.
  by rewrite bind_eq, (for_each_single _ _ _ _ _ H).
Qed.

Lemma _removeEntities_body_persisted env obj id lr l s :
  _id s !! obj = Some id → _objectLinks s !! toString id = Some lr →
  links s !! lr = Some l → state l = Managed →
  scheduledOperation l ≠ Insert →
  _removeEntities_body env obj s
  = (with_links
       (<[lr := set_state Removed (set_scheduledOperation Delete l)]>) s,
     Return None).
Proof.
  intros Hid Hk Hl Hst Hop. unfold _removeEntities_body.
  rewrite bind_eq, (_getObjectLinks_found env obj id lr) by done.
  rewrite bind_eq, (deref_eq _ _ _ Hl), Hst, bind_eq.
  rewrite decide_False by done.
  by rewrite (update_update_eq _ _ _ _ _ Hl).
Qed.

Lemma _removeEntities_body_removed env obj id lr l s :
  _id s !! obj = Some id → _objectLinks s !! toString id = Some lr →
  links s !! lr = Some l → state l = Removed →
  _removeEntities_body env obj s = (s, Return None).
Proof.
  intros Hid Hk Hl Hst. unfold _removeEntities_body.
  rewrite bind_eq, (_getObjectLinks_found env obj id lr) by done.
  by rewrite bind_eq, (deref_eq _ _ _ Hl), Hst.
Qed.

Lemma _saveEntities_body_removed env obj id lr l s :
  _id s !! obj = Some id → _objectLinks s !! toString id = Some lr →
  links s !! lr = Some l → state l = Removed →
  _saveEntities_body env obj s
  = (with_links
       (<[lr := set_state Managed (set_scheduledOperation OpNone l)]>) s,
     Return None).
Proof.
  intros Hid Hk Hl Hst. unfold _saveEntities_body.
  rewrite bind_eq, (_getObjectLinks_found env obj id lr) by done.
  rewrite bind_eq, (deref_eq _ _ _ Hl), Hst.
  rewrite bind_eq, (update_eq _ _ _ _ Hl).
  rewrite bind_eq. erewrite update_eq by (simpl; apply lookup_insert_eq).
  unfold ret, with_links. simpl. by rewrite insert_insert_eq.
Qed.

(** ** What the session answers about a linked entity *)

Lemma linked_as_queries env obj id st op s :
  linked_as obj id st op s →
  contains obj s = bool_decide (st ≠ Removed) ∧
  getObject id s = (if decide (st = Removed) then VNull else VEntity obj) ∧
  ∀ ctr, getReference env ctr (IdValue id) s
         = if decide (st = Removed)
           then TReference
                  {| ref_mapping := getMappingForConstructor (factory env) ctr;
                     ref_id := id |}
           else TEntity obj.
Proof.
  intros (Hid & lr & l & Hk & Hl & Hobj & Hst & Hop).
  unfold getReference, getReferenceInternal, contains, getObject.
  rewrite Hid, Hk, Hl, Hst, Hobj.
  repeat split; intros; by destruct (decide (st = Removed)).
Qed.

Lemma demo_persisted_linked : linked_as 1 (Id "a") Managed OpNone demo_persisted.
Proof.
  split; [vm_compute; reflexivity|]. eexists 0, _.
  split; [vm_compute; reflexivity|]. split; [vm_compute; reflexivity|].
  vm_compute. done.
Qed.

(** X2.  Removing a [Managed] entity that is not waiting for its insert
    keeps its link in the identity table, now [Removed] and scheduled for
    [Delete], and keeps its [_id]; from then on [contains] answers false,
    [getObject] answers [null] and [getReference] builds a new reference
    instead of returning the entity. *)
Theorem remove_hides_persisted_entity env obj id op s :
  linked_as obj id Managed op s → op ≠ Insert →
  ∃ s', _removeEntities env [obj] s = (s', Return (Completed VUndefined)) ∧
        linked_as obj id Removed Delete s' ∧
        _objectLinks s' = _objectLinks s ∧ _id s' = _id s ∧
        contains obj s = true ∧ contains obj s' = false ∧
        getObject id s = VEntity obj ∧ getObject id s' = VNull ∧
        ∀ ctr, getReference env ctr (IdValue id) s'
               = TReference
                   {| ref_mapping := getMappingForConstructor (factory env) ctr;
                      ref_id := id |}.
Proof.
  intros Hlinked Hop.
  pose proof Hlinked as (Hid & lr & l & Hk & Hl & Hobj & Hst & Hopl).
  eexists. split.
  { apply (_removeEntities_single env obj s _ None).
    apply (_removeEntities_body_persisted env obj id lr l); congruence. }
  assert (linked_as obj id Removed Delete
            (with_links
               (<[lr := set_state Removed (set_scheduledOperation Delete l)]>)
               s)) as Hlinked'.
  { split; [done|]. eexists lr, _. split; [done|].
    split; [simpl; apply lookup_insert_eq|done]. }
  destruct (linked_as_queries env _ _ _ _ _ Hlinked) as (Hc & Hg & _).
  destruct (linked_as_queries env _ _ _ _ _ Hlinked') as (Hc' & Hg' & Hr').
  rewrite Hc, Hc', Hg, Hg'. split; [exact Hlinked'|].
  repeat split; done.
Qed.

Lemma remove_hides_persisted_entity_witness :
  let env := demo_env DeferredExplicit None in
  linked_as 1 (Id "a") Managed OpNone demo_persisted ∧
  ∃ s', _removeEntities env [1] demo_persisted
        = (s', Return (Completed VUndefined)) ∧
        linked_as 1 (Id "a") Removed Delete s' ∧
        contains 1 s' = false ∧ getObject (Id "a") s' = VNull.
Proof.
  intros env. split; [exact demo_persisted_linked|].
  destruct (remove_hides_persisted_entity env 1 (Id "a") OpNone
              demo_persisted demo_persisted_linked)
    as (s' & Hrun & Hl & _ & _ & _ & Hc & _ & Hg & _); [done|].
  by exists s'.
Defined.

(** X3.  A [save] cancels a pending removal: the [Removed] link becomes
    [Managed] again with nothing scheduled, no identifier is generated and
    the table keeps its keys.  So removing and then saving a [Managed]
    entity, whatever was scheduled for it before (but for an insert),
    leaves it [Managed] with nothing scheduled; a dirty check that was
    scheduled before the removal is not scheduled again. *)
Theorem save_cancels_pending_delete env obj id op s :
  linked_as obj id Managed op s → op ≠ Insert →
  ∃ s1 s2,
    _removeEntities env [obj] s = (s1, Return (Completed VUndefined)) ∧
    _saveEntities env [obj] s1 = (s2, Return (Completed VUndefined)) ∧
    linked_as obj id Managed OpNone s2 ∧
    contains obj s2 = true ∧
    _objectLinks s2 = _objectLinks s ∧ _id s2 = _id s ∧
    generated s2 = generated s.
Proof.
  intros Hlinked Hop.
  pose proof Hlinked as (Hid & lr & l & Hk & Hl & Hobj & Hst & Hopl).
  eexists _, _. split.
  { apply (_removeEntities_single env obj s _ None).
    apply (_removeEntities_body_persisted env obj id lr l); congruence. }
  split.
  { apply (_saveEntities_single env obj _ _ None).
    eapply (_saveEntities_body_removed env obj id lr); simpl;
      [done|done|apply lookup_insert_eq|done]. }
  assert (linked_as obj id Managed OpNone
    (with_links
       (<[lr := set_state Managed (set_scheduledOperation OpNone
                  (set_state Removed (set_scheduledOperation Delete l)))]>)
       (with_links
          (<[lr := set_state Removed (set_scheduledOperation Delete l)]>) s)))
    as Hlinked'.
  { split; [done|]. eexists lr, _. split; [done|].
    split; [simpl; apply lookup_insert_eq|done]. }
  split; [done|].
  destruct (linked_as_queries env _ _ _ _ _ Hlinked') as (Hc' & _).
  by rewrite Hc'.
Qed.

Lemma save_cancels_pending_delete_witness :
  let env := demo_env DeferredExplicit None in
  linked_as 1 (Id "a") Managed OpNone demo_persisted ∧
  ∃ s1 s2,
    _removeEntities env [1] demo_persisted
      = (s1, Return (Completed VUndefined)) ∧
    _saveEntities env [1] s1 = (s2, Return (Completed VUndefined)) ∧
    linked_as 1 (Id "a") Managed OpNone s2.
Proof.
  intros env. split; [exact demo_persisted_linked|].
  destruct (save_cancels_pending_delete env 1 (Id "a") OpNone
              demo_persisted demo_persisted_linked)
    as (s1 & s2 & Hrm & Hsv & Hl & _); [done|].
  by exists s1, s2.
Defined.

(** ** Saving an entity the session already manages *)

Lemma _saveEntities_body_managed env obj id lr l s :
  _id s !! obj = Some id → _objectLinks s !! toString id = Some lr →
  links s !! lr = Some l → state l = Managed →
  _saveEntities_body env obj s
  = (if bool_decide (Persister.changeTracking (persister l) = DeferredExplicit)
        && op_falsy (scheduledOperation l)
     then with_links (<[lr := set_scheduledOperation DirtyCheck l]>) s
     else s,
     Return None).
Proof.
  intros Hid Hk Hl Hst. unfold _saveEntities_body.
  rewrite bind_eq, (_getObjectLinks_found env obj id lr) by done.
  rewrite bind_eq, (deref_eq _ _ _ Hl), Hst, bind_eq.
  destruct (decide _) as [He|He].
  - rewrite bool_decide_eq_true_2 by done. simpl.
    destruct (op_falsy _); [|done]. by rewrite (update_eq _ _ _ _ Hl).
  - by rewrite bool_decide_eq_false_2.
Qed.

(** X4.  Saving twice inserts once: when [_saveEntities] meets a new
    entity a second time in its list, the second visit changes nothing, so
    one identifier is generated and one link created. *)
Theorem save_twice_inserts_once env obj m rest s :
  _id s !! obj = None →
  getMappingForObject (factory env) obj = Some m →
  _objectLinks s
    !! toString (generate (Persister.identity (persister_of env m s))
                          (generated s)) = None →
  _saveEntities env (obj :: obj :: rest) s = _saveEntities env (obj :: rest) s ∧
  generated (_saveEntities env [obj; obj] s).1 = S (generated s).
Proof.
  intros Hid Hm Hfree.
  destruct (inherited (toString (generate
              (Persister.identity (persister_of env m s)) (generated s))))
    eqn:Hin.
  { pose proof (_saveEntities_body_refused env obj m s Hid Hm Hin) as Hthrow.
    unfold _saveEntities. split.
    - by rewrite !bind_eq, (for_each_cons _ obj (obj :: rest)),
        (for_each_cons _ obj rest), !Hthrow.
    - rewrite bind_eq, (for_each_cons _ obj [obj]), Hthrow. simpl.
      by rewrite cached_generated. }
  pose proof (_saveEntities_body_new env obj m s Hid Hm Hfree Hin) as Hnew.
  destruct (linked_as_saved_new env obj m s)
    as (Hid' & lr & l & Hk & Hl & Hobj & Hst & Hop).
  pose proof (_saveEntities_body_managed env obj _ lr l _ Hid' Hk Hl Hst)
    as Hagain.
  rewrite Hop, andb_false_r in Hagain.
  assert (∀ rest, for_each (_saveEntities_body env) (obj :: obj :: rest) s
                  = for_each (_saveEntities_body env) (obj :: rest) s) as Hfor.
  { intros rest'.
    by rewrite (for_each_cons _ obj (obj :: rest')), Hnew,
      (for_each_cons _ obj rest' (saved_new env obj m s)), Hagain,
      (for_each_cons _ obj rest' s), Hnew. }
  split.
  - unfold _saveEntities. by rewrite !bind_eq, Hfor.
  - unfold _saveEntities.
    rewrite bind_eq, Hfor, (for_each_single _ _ _ _ _ Hnew). cbn [ret fst].
    unfold saved_new. simpl. by rewrite cached_generated.
Qed.

Lemma save_twice_inserts_once_witness :
  let env := demo_env DeferredImplicit None in
  _saveEntities env [7; 7] (new_session ∅)
    = _saveEntities env [7] (new_session ∅) ∧
  generated (_saveEntities env [7; 7] (new_session ∅)).1 = 1.
Proof.
  intros env.
  apply (save_twice_inserts_once env 7 demo_mapping [] (new_session ∅));
    vm_compute; reflexivity.
Defined.

(** X5.  Saving an entity whose link is [Managed] changes the session in
    one case only: under [DeferredExplicit] tracking with nothing
    scheduled, the link is scheduled for [DirtyCheck].  In every other
    case (another tracking mode, or something already scheduled) the
    session is left exactly as it was, and the callback receives no
    error. *)
Theorem save_of_managed_entity env obj id lr l s :
  _id s !! obj = Some id → _objectLinks s !! toString id = Some lr →
  links s !! lr = Some l → state l = Managed →
  (Persister.changeTracking (persister l) = DeferredExplicit →
   scheduledOperation l = OpNone →
   _saveEntities env [obj] s
   = (with_links (<[lr := set_scheduledOperation DirtyCheck l]>) s,
      Return (Completed VUndefined))) ∧
  (Persister.changeTracking (persister l) ≠ DeferredExplicit ∨
   scheduledOperation l ≠ OpNone →
   _saveEntities env [obj] s = (s, Return (Completed VUndefined))).
Proof.
  intros Hid Hk Hl Hst.
  pose proof (_saveEntities_body_managed env obj id lr l s Hid Hk Hl Hst)
    as Hbody.
  split.
  - intros Htr Hop. rewrite bool_decide_eq_true_2, Hop in Hbody by done.
    by apply (_saveEntities_single env obj s _ None).
  - intros Hnot. apply (_saveEntities_single env obj s s None).
    rewrite Hbody. destruct Hnot as [Htr|Hop].
    + by rewrite bool_decide_eq_false_2.
    + destruct (scheduledOperation l); try done; by rewrite andb_false_r.
Qed.

Lemma save_of_managed_entity_witness :
  let env := demo_env DeferredExplicit None in
  ∃ l, links demo_persisted !! 0 = Some l ∧
       _saveEntities env [1] demo_persisted
       = (with_links (<[0 := set_scheduledOperation DirtyCheck l]>)
            demo_persisted,
          Return (Completed VUndefined)).
Proof.
  intros env. eexists. split; [vm_compute; reflexivity|].
  apply (proj1 (save_of_managed_entity env 1 (Id "a") 0 _ demo_persisted
                  eq_refl eq_refl eq_refl eq_refl));
    reflexivity.
Defined.

(** ** Entities the session does not know *)

Lemma for_each_skip {A} (body : A → M (option Completion)) l s :
  Forall (fun x => body x s = (s, Return None)) l →
  for_each body l s = (s, Return None).
Proof.
  induction 1 as [|x l Hx _ IH]; [done|]. by rewrite for_each_cons, Hx.
Qed.

Lemma _removeEntities_body_no_id env obj s :
  _id s !! obj = None → _removeEntities_body env obj s = (s, Return None).
Proof.
  intros Hid. unfold _removeEntities_body.
  by rewrite bind_eq, _getObjectLinks_no_id.
Qed.

Lemma _detachEntities_body_no_id env obj s :
  _id s !! obj = None → _detachEntities_body env obj s = (s, Return None).
Proof.
  intros Hid. unfold _detachEntities_body.
  by rewrite bind_eq, _getObjectLinks_no_id.
Qed.

(** X6.  [remove] and [detach] pass over entities that have no [_id]:
    a list of such entities leaves the session exactly as it was and the
    callback receives no error, whether or not their classes are
    mapped. *)
Theorem remove_and_detach_skip_unsaved env entities s :
  Forall (fun obj => _id s !! obj = None) entities →
  _removeEntities env entities s = (s, Return (Completed VUndefined)) ∧
  _detachEntities env entities s = (s, Return (Completed VUndefined)).
Proof.
  intros Hall. unfold _removeEntities, _detachEntities. split.
  - rewrite bind_eq, for_each_skip; [done|].
    apply Forall_rev. eapply Forall_impl; [exact Hall|].
    intros obj Hid. by apply _removeEntities_body_no_id.
  - rewrite bind_eq, for_each_skip; [done|].
    eapply Forall_impl; [exact Hall|].
    intros obj Hid. by apply _detachEntities_body_no_id.
Qed.

Lemma remove_and_detach_skip_unsaved_witness :
  let env := demo_env DeferredImplicit None in
  _removeEntities env [2; 5] demo_persisted
    = (demo_persisted, Return (Completed VUndefined)) ∧
  _detachEntities env [2; 5] demo_persisted
    = (demo_persisted, Return (Completed VUndefined)).
Proof.
  intros env. apply (remove_and_detach_skip_unsaved env [2; 5] demo_persisted).
  repeat constructor.
Defined.

(** ** What [remove] and [detach] can answer *)

Lemma for_each_returns {A} (I : Session → Prop) (P : Completion → Prop)
    (body : A → M (option Completion)) :
  (∀ x s, I s → ∃ s' r, body x s = (s', Return r) ∧ I s' ∧
                        ∀ c, r = Some c → P c) →
  ∀ l s, I s → ∃ s' r, for_each body l s = (s', Return r) ∧ I s' ∧
                       ∀ c, r = Some c → P c.
Proof.
  intros Hbody l. induction l as [|x l IH]; intros s Hs.
  - exists s, None. by split.
  - rewrite for_each_cons.
    destruct (Hbody x s Hs) as (s1 & [c|] & -> & Hs1 & Hc).
    + by exists s1, (Some c).
    + by apply IH.
Qed.

Lemma _detachEntities_body_returns env obj s :
  wf s → ∃ s' r, _detachEntities_body env obj s = (s', Return r) ∧ wf s' ∧
                 ∀ c, r = Some c → False.
Proof.
  intros Hwf. pose proof (_detachEntities_body_wf env obj s Hwf) as Hwf'.
  revert Hwf'. unfold _detachEntities_body. rewrite bind_eq.
  destruct (_getObjectLinks_case env obj s Hwf)
    as [Hid|id Hid Hk Hm|id lr l Hid Hk Hl Hok|id Hid Hk Hin
       |id m Hid Hk Hown Hm].
  - by exists s, None.
  - by exists s, None.
  - rewrite bind_eq, (deref_eq _ _ _ Hl).
    destruct Hok as ((id' & Hid' & Hkey) & Hdel & Hdet).
    rewrite bind_eq. destruct (decide _); [|by exists s, None].
    rewrite (_unlinkObject_eq _ _ _ _ Hl Hid'). simpl.
    by eexists _, None.
  - by exists s, None.
  - rewrite bind_eq. erewrite deref_eq; [|apply detached_lookup]. simpl.
    by eexists _, None.
Qed.

Lemma _removeEntities_body_returns env obj s :
  wf s → ∃ s' r, _removeEntities_body env obj s = (s', Return r) ∧ wf s' ∧
                 ∀ c, r = Some c → c = Failed detached_remove.
Proof.
  intros Hwf. pose proof (_removeEntities_body_wf env obj s Hwf) as Hwf'.
  revert Hwf'. unfold _removeEntities_body. rewrite bind_eq.
  destruct (_getObjectLinks_case env obj s Hwf)
    as [Hid|id Hid Hk Hm|id lr l Hid Hk Hl Hok|id Hid Hk Hin
       |id m Hid Hk Hown Hm].
  - by exists s, None.
  - by exists s, None.
  - rewrite bind_eq, (deref_eq _ _ _ Hl).
    destruct Hok as ((id' & Hid' & Hkey) & Hdel & Hdet).
    destruct (state l) eqn:Hst.
    + rewrite bind_eq. destruct (decide _).
      * rewrite (_unlinkObject_eq _ _ _ _ Hl Hid'). simpl.
        by eexists _, None.
      * rewrite (update_update_eq _ _ _ _ _ Hl). simpl.
        by eexists _, None.
    + intros _. exists s, (Some (Failed detached_remove)).
      split; [done|]. split; [done|]. by intros c [= <-].
    + by exists s, None.
  - by exists s, None.
  - rewrite bind_eq. erewrite deref_eq; [|apply detached_lookup]. simpl.
    intros Hwf'. eexists _, (Some (Failed detached_remove)).
    split; [done|]. split; [done|]. by intros c [= <-].
Qed.

(** X7.  In a session reached through the session's operations, [detach]
    of any list of entities completes without error, and [remove] of any
    list of entities either completes without error or reports "Cannot
    remove a detached object."; neither throws. *)
Theorem remove_and_detach_answers env entities s :
  reachable s →
  (∃ s', _detachEntities env entities s
         = (s', Return (Completed VUndefined))) ∧
  (∃ s' c, _removeEntities env entities s = (s', Return c) ∧
           (c = Completed VUndefined ∨ c = Failed detached_remove)).
Proof.
  intros Hwf%reachable_wf. split.
  - destruct (for_each_returns wf (fun _ => False) (_detachEntities_body env)
                (_detachEntities_body_returns env) entities s Hwf)
      as (s' & r & Hrun & _ & Hr).
    exists s'. unfold _detachEntities. rewrite bind_eq, Hrun.
    destruct r as [c|]; [by destruct (Hr c)|done].
  - destruct (for_each_returns wf (fun c => c = Failed detached_remove)
                (_removeEntities_body env)
                (_removeEntities_body_returns env) (rev entities) s Hwf)
      as (s' & r & Hrun & _ & Hr).
    exists s', (then_callback r). unfold _removeEntities.
    rewrite bind_eq, Hrun. split; [done|].
    destruct r as [c|]; [right; by apply Hr|by left].
Qed.

Lemma remove_and_detach_answers_witness :
  let env := demo_env DeferredExplicit None in
  (∃ s', _detachEntities env [3; 1; 2] demo_busy
         = (s', Return (Completed VUndefined))) ∧
  (∃ s' c, _removeEntities env [3; 1; 2] demo_busy = (s', Return c) ∧
           (c = Completed VUndefined ∨ c = Failed detached_remove)).
Proof.
  intros env. apply (remove_and_detach_answers env [3; 1; 2] demo_busy).
  apply run_all_reachable, reach_new.
Defined.

(** ** Detaching *)

Lemma _detachEntities_body_managed env obj id lr l s :
  _id s !! obj = Some id → _objectLinks s !! toString id = Some lr →
  links s !! lr = Some l → object l = obj → state l = Managed →
  _detachEntities_body env obj s = (unlinked l id s, Return None).
Proof.
  intros Hid Hk Hl Hobj Hst. unfold _detachEntities_body.
  rewrite bind_eq, (_getObjectLinks_found env obj id lr) by done.
  rewrite bind_eq, (deref_eq _ _ _ Hl), bind_eq, decide_True by done.
  by rewrite (_unlinkObject_eq _ l id) by (by rewrite ?Hobj).
Qed.

Lemma _detachEntities_body_other env obj id lr l s :
  _id s !! obj = Some id → _objectLinks s !! toString id = Some lr →
  links s !! lr = Some l → state l ≠ Managed →
  _detachEntities_body env obj s = (s, Return None).
Proof.
  intros Hid Hk Hl Hst. unfold _detachEntities_body.
  rewrite bind_eq, (_getObjectLinks_found env obj id lr) by done.
  by rewrite bind_eq, (deref_eq _ _ _ Hl), bind_eq, decide_False.
Qed.

(** X8.  Detaching a [Managed] entity that is not waiting for its insert
    takes its key out of the identity table and leaves its [_id]: the
    session does not contain it any more and [getObject] does not know its
    identifier.  Because the [_id] stays, a later [save] of the entity
    reports "Cannot save a detached object." and a later [remove] reports
    "Cannot remove a detached object.".  The key is not the name of a
    member the table object inherits: [_linkObject] stores no link under
    such a name, so no reachable session has such a key
    ([reachable_own_keys]). *)
Theorem detach_forgets_entity env obj id op m s :
  linked_as obj id Managed op s → op ≠ Insert →
  getMappingForObject (factory env) obj = Some m →
  inherited (toString id) = false →
  ∃ s', _detachEntities env [obj] s = (s', Return (Completed VUndefined)) ∧
        _objectLinks s' = delete (toString id) (_objectLinks s) ∧
        _id s' = _id s ∧
        contains obj s = true ∧ contains obj s' = false ∧
        getObject id s' = VUndefined ∧
        (_saveEntities env [obj] s').2 = Return (Failed detached_save) ∧
        (_removeEntities env [obj] s').2 = Return (Failed detached_remove).
Proof.
  intros Hlinked Hop Hm Hown.
  pose proof Hlinked as (Hid & lr & l & Hk & Hl & Hobj & Hst & Hopl).
  destruct (linked_as_queries env _ _ _ _ _ Hlinked) as (Hc & _).
  exists (unlinked l id s).
  assert (_id (unlinked l id s) = _id s) as Hid'.
  { rewrite unlinked_id, decide_False; [done|].
    intros [?|?]; congruence. }
  assert (_objectLinks (unlinked l id s) !! toString id = None) as Hk'.
  { rewrite unlinked_objectLinks. apply lookup_delete_eq. }
  split.
  { apply (_detachEntities_single env obj s _ None).
    by apply (_detachEntities_body_managed env obj id lr l). }
  split; [apply unlinked_objectLinks|]. split; [done|].
  split; [by rewrite Hc|].
  split; [unfold contains; by rewrite Hid', Hid, Hk'|].
  split; [unfold getObject; by rewrite Hk'|].
  assert (_id (unlinked l id s) !! obj = Some id) as Hid'' by congruence.
  split.
  - by rewrite (_saveEntities_single _ _ _ _ _
                  (_saveEntities_body_detached env obj id m _ Hid'' Hk' Hm
                     Hown)).
  - by rewrite (_removeEntities_single _ _ _ _ _
                  (_removeEntities_body_detached env obj id m _ Hid'' Hk' Hm
                     Hown)).
Qed.

Lemma detach_forgets_entity_witness :
  let env := demo_env DeferredExplicit None in
  ∃ s', _detachEntities env [1] demo_persisted
        = (s', Return (Completed VUndefined)) ∧
        contains 1 s' = false ∧
        (_saveEntities env [1] s').2 = Return (Failed detached_save).
Proof.
  intros env.
  destruct (detach_forgets_entity env 1 (Id "a") OpNone demo_mapping
              demo_persisted demo_persisted_linked)
    as (s' & Hrun & _ & _ & _ & Hc & _ & Hsave & _);
    [done|reflexivity|vm_compute; reflexivity|].
  by exists s'.
Defined.

(** ** Clearing the session *)

(** X10.  [clear] empties the identity table and nothing else: the
    entities keep their [_id] and the persisters stay cached.  Afterwards
    [getObject] knows no identifier and a flush assembles an empty batch,
    so an insert or delete that was scheduled and not flushed is dropped.
    What [contains] and a later [save] answer for an entity that carries
    an [_id] depends on the identifier.  When it is not the name of a
    member the emptied table inherits, the session does not contain the
    entity and, if its class is mapped, [save] refuses it with "Cannot
    save a detached object.", whatever its link was before.  When it is
    such a name, [contains] answers true and [save] completes without
    error and without a change.  An entity without [_id] is not
    contained. *)
Theorem clear_detaches_everything env obj id m s :
  _id s !! obj = Some id → getMappingForObject (factory env) obj = Some m →
  ∃ s', _clear s = (s', Return (Completed VUndefined)) ∧
        _objectLinks s' = ∅ ∧ links s' = links s ∧ _id s' = _id s ∧
        _persisterByMapping s' = _persisterByMapping s ∧
        (∀ o, contains o s'
              = match _id s !! o with
                | Some i => inherited (toString i)
                | None => false
                end) ∧
        (∀ i, getObject i s' = VUndefined) ∧
        (∃ c, _flush env s' = (s', Return ([], c))) ∧
        (inherited (toString id) = false →
         (_saveEntities env [obj] s').2 = Return (Failed detached_save)) ∧
        (inherited (toString id) = true →
         _saveEntities env [obj] s' = (s', Return (Completed VUndefined))).
Proof.
  intros Hid Hm. eexists. split; [reflexivity|]. simpl.
  do 4 (split; [done|]).
  split; [intros o; reflexivity|].
  split; [done|]. split; [|split].
  - unfold _flush, _getAllObjectLinks. rewrite bind_eq. simpl.
    rewrite map_to_list_empty. simpl.
    rewrite bind_eq. unfold _flush_assemble. simpl.
    destruct (Batch_execute env []); by eexists.
  - intros Hown.
    by rewrite (_saveEntities_single _ _ _ _ _
                  (_saveEntities_body_detached env obj id m
                     (with_objectLinks (fun _ => ∅) s) Hid
                     (lookup_empty _) Hm Hown)).
  - intros Hin.
    apply (_saveEntities_single env obj
             (with_objectLinks (fun _ => ∅) s) _ None).
    by apply (_saveEntities_body_member env obj id).
Qed.

Lemma clear_detaches_everything_witness :
  let env := demo_env DeferredImplicit None in
  contains 1 demo_unflushed = true ∧
  ∃ s', _clear demo_unflushed = (s', Return (Completed VUndefined)) ∧
        contains 1 s' = false ∧
        (∃ c, _flush env s' = (s', Return ([], c))) ∧
        (_saveEntities env [1] s').2 = Return (Failed detached_save).
Proof.
  intros env. split; [vm_compute; reflexivity|].
  destruct (clear_detaches_everything env 1 (Id "a") demo_mapping
              demo_unflushed)
    as (s' & Hrun & _ & _ & _ & _ & Hc & _ & Hflush & Hsave & _);
    [vm_compute; reflexivity..|].
  exists s'. rewrite Hc. do 3 (split; [done|]). by apply Hsave.
Defined.

(** ** Entities registered by a persister *)

(** X11.  [registerManaged] of an entity that carries an [_id]: when the
    identity table already has a link under that identifier, whatever
    its state, or when the identifier is the name of a member the table
    object inherits, even in a table with no link at all, it throws
    "Session already contains a managed entity with identifier ..." and
    the session is unchanged.  Otherwise the entity is linked as
    [Managed] with nothing scheduled, the given persister and the given
    document as its [originalDocument]; the session then contains it and
    [getObject] returns it for its identifier; the other keys of the
    table and the [_id]s are as before. *)
Theorem registerManaged_links_entity p entity document id s :
  _id s !! entity = Some id →
  match _objectLinks s !! toString id, inherited (toString id) with
  | None, false =>
      ∃ s', registerManaged p entity document s = (s', Return tt) ∧
            linked_as entity id Managed OpNone s' ∧
            (∃ lr l, _objectLinks s' !! toString id = Some lr ∧
                     links s' !! lr = Some l ∧
                     originalDocument l = Some document ∧ persister l = p) ∧
            contains entity s' = true ∧ getObject id s' = VEntity entity ∧
            (∀ k, k ≠ toString id → _objectLinks s' !! k = _objectLinks s !! k) ∧
            _id s' = _id s
  | _, _ =>
      registerManaged p entity document s
      = (s, Throw (already_linked (toString id)))
  end.
Proof.
  intros Hid. unfold registerManaged.
  destruct (_objectLinks s !! toString id) as [lr|] eqn:Hk;
    [by rewrite bind_eq, (_linkObject_taken _ _ _ id lr)|].
  destruct (inherited (toString id)) eqn:Hin.
  - by rewrite bind_eq, (_linkObject_inherited _ _ _ id).
  - rewrite bind_eq, (_linkObject_eq _ _ _ id) by done.
    erewrite update_eq by apply linked_lookup.
    eexists. split; [reflexivity|].
    match goal with |- linked_as _ _ _ _ ?s1 ∧ _ =>
      assert (linked_as entity id Managed OpNone s1) as Hlinked
    end.
    { split; [done|]. eexists _, _. simpl.
      split; [apply lookup_insert_eq|].
      split; [apply lookup_insert_eq|done]. }
    destruct (linked_as_queries (demo_env Observe None) _ _ _ _ _ Hlinked)
      as (Hc & Hg & _).
    split; [exact Hlinked|]. split.
    { eexists _, _. simpl. split; [apply lookup_insert_eq|].
      split; [apply lookup_insert_eq|done]. }
    split; [by rewrite Hc|]. split; [by rewrite Hg|].
    split; [|done].
    intros k Hne. simpl. by rewrite lookup_insert_ne.
Qed.

Lemma registerManaged_links_entity_witness :
  (∃ s', registerManaged (demo_persister DeferredImplicit) 4 40
           (new_session {[ 4 := Id "x" ]}) = (s', Return tt) ∧
         contains 4 s' = true ∧ getObject (Id "x") s' = VEntity 4) ∧
  registerManaged (demo_persister DeferredImplicit) 4 40
    (new_session {[ 4 := Id "toString" ]})
  = (new_session {[ 4 := Id "toString" ]},
     Throw (already_linked "toString")).
Proof.
  split.
  - pose proof (registerManaged_links_entity (demo_persister DeferredImplicit)
                  4 40 (Id "x") (new_session {[ 4 := Id "x" ]}) eq_refl) as H.
    simpl in H. destruct H as (s' & Hrun & _ & _ & Hc & Hg & _).
    by exists s'.
  - exact (registerManaged_links_entity (demo_persister DeferredImplicit)
             4 40 (Id "toString") (new_session {[ 4 := Id "toString" ]})
             eq_refl).
Defined.

(** ** A generated identifier that is already in the table *)

Lemma _saveEntities_body_taken env obj m lr s :
  _id s !! obj = None →
  getMappingForObject (factory env) obj = Some m →
  let g := generate (Persister.identity (persister_of env m s)) (generated s) in
  _objectLinks s !! toString g = Some lr →
  _saveEntities_body env obj s
  = (with_id (<[obj := g]>) (with_generated S (cached env m s)),
     Throw (already_linked (toString g))).
Proof.
  intros Hid Hm g Hk. unfold _saveEntities_body.
  rewrite bind_eq, _getObjectLinks_no_id by done.
  rewrite bind_eq, _getPersisterForObject_eq, Hm.
  mrun. rewrite cached_generated. fold g.
  erewrite (_linkObject_taken _ _ _ g lr);
    [done|simpl; apply lookup_insert_eq|simpl; by rewrite cached_objectLinks].
Qed.

(** X12.  When [_saveEntities] reaches a new entity of a mapped class and
    the identifier generated for it is already a key of the identity
    table, [_linkObject] throws: the callback is never invoked, the
    entities after it are not visited, and the table keeps its keys.  The
    identifier has been stored on the entity by then, so from that moment
    the session takes the entity for the one linked under that
    identifier. *)
Theorem save_with_taken_identifier env obj m lr rest s :
  _id s !! obj = None →
  getMappingForObject (factory env) obj = Some m →
  let g := generate (Persister.identity (persister_of env m s)) (generated s) in
  _objectLinks s !! toString g = Some lr →
  ∃ s', _saveEntities env (obj :: rest) s
        = (s', Throw (already_linked (toString g))) ∧
        _id s' = <[obj := g]> (_id s) ∧
        _objectLinks s' = _objectLinks s ∧ links s' = links s ∧
        generated s' = S (generated s) ∧
        _getObjectLinks env obj s' = (s', Return (Some (Linked lr))).
Proof.
  intros Hid Hm g Hk.
  exists (with_id (<[obj := g]>) (with_generated S (cached env m s))).
  split.
  - unfold _saveEntities.
    by rewrite bind_eq, for_each_cons,
      (_saveEntities_body_taken env obj m lr s Hid Hm Hk).
  - simpl. rewrite cached_id, cached_objectLinks, cached_links,
      cached_generated.
    repeat (split; [done|]).
    apply (_getObjectLinks_found env obj g lr); simpl;
      rewrite ?cached_objectLinks; [apply lookup_insert_eq|done].
Qed.

Lemma save_with_taken_identifier_witness :
  let env := demo_env DeferredImplicit None in
  let s := (registerManaged (demo_persister DeferredImplicit) 5 50
              (new_session {[ 5 := Id "a" ]})).1 in
  ∃ s', _saveEntities env [2; 3] s = (s', Throw (already_linked "a")) ∧
        _id s' !! 2 = Some (Id "a") ∧ contains 2 s' = true.
Proof.
  intros env s.
  destruct (save_with_taken_identifier env 2 demo_mapping 0 [3] s)
    as (s' & Hrun & Hid & Hk & Hl & _ & _);
    [vm_compute; reflexivity..|].
  exists s'. split; [exact Hrun|].
  split; [by rewrite Hid, lookup_insert_eq|].
  unfold contains. rewrite Hid, lookup_insert_eq, Hk, Hl.
  vm_compute. reflexivity.
Defined.

(** ** Objects of a class that is not mapped *)

(** X13.  [save], [remove], [detach] and [_refresh] of an object whose
    class has no mapping pass "Object type is not mapped as an entity." to
    the callback and leave the session exactly as it was; nothing is
    walked and no identifier is generated.  [find] does the same for a
    constructor that has no mapping. *)
Theorem unmapped_object_is_rejected env obj s :
  getMappingForObject (factory env) obj = None →
  run env (save obj) s = (s, Return (Failed not_mapped)) ∧
  run env (remove obj) s = (s, Return (Failed not_mapped)) ∧
  run env (detach obj) s = (s, Return (Failed not_mapped)) ∧
  _refresh env obj s = (s, Return (Failed not_mapped)) ∧
  ∀ ctr id, getMappingForConstructor (factory env) ctr = None →
    run env (find ctr id) s = (s, Return (Failed not_mapped)).
Proof.
  intros Hm.
  unfold run, save, remove, detach, find, _queue_add, _execute, _save,
    _remove, _detach, _refresh, _find, _findReferencedEntities,
    _getPersisterForConstructor. simpl.
  rewrite Hm. repeat (split; [done|]).
  intros ctr id Hc. by rewrite bind_eq, Hc.
Qed.

Lemma unmapped_object_is_rejected_witness :
  run demo_partial_env (save 0) demo_unflushed
  = (demo_unflushed, Return (Failed not_mapped)).
Proof.
  apply (proj1 (unmapped_object_is_rejected demo_partial_env 0 demo_unflushed
                  eq_refl)).
Defined.

(** ** More about flushes *)

(** In a well-formed session [_flush] always returns: it never throws. *)
Lemma _flush_returns env s :
  wf s →
  ∃ s' batch c,
    _flush env s = (s', Return (batch, c)) ∧
    (no_persister_error s (_getAllObjectLinks s) →
     batch = expected_batch s (_getAllObjectLinks s) ∧
     c = match Batch_execute env batch with
         | Some err => Failed err
         | None => Completed VUndefined
         end).
Proof.
  intros Hwf. set (list := _getAllObjectLinks s).
  pose proof (_flush_assemble_same list s) as Hsame.
  pose proof (_flush_assemble_wf list s Hwf) as Hwf1.
  destruct (_flush_assemble_run list s (list_links_NoDup s Hwf))
    as (s1 & batch & e & Hasm & _ & He & Hfull).
  { intros lr Hin. by apply list_links_Some. }
  rewrite Hasm in Hsame, Hwf1. simpl in Hsame, Hwf1.
  unfold _flush. rewrite bind_eq. cbn [gets]. fold list.
  rewrite bind_eq, Hasm.
  destruct e as [err|].
  { exists s1, batch, (Failed err). split; [done|].
    intros Hnone. by specialize (He Hnone). }
  destruct (Hfull eq_refl) as [-> _].
  destruct (Batch_execute env (expected_batch s list)) as [err|] eqn:Hexec.
  { exists s1, (expected_batch s list), (Failed err).
    split; [done|]. intros _. by rewrite Hexec. }
  destruct Hsame as (Ht & _).
  destruct (flush_executed_runs list s1 Hwf1 (list_links_NoDup s Hwf))
    as [s' Hloop].
  { intros lr' (k' & Hk')%list_links_elem. exists k'. by rewrite Ht. }
  exists s', (expected_batch s list), (Completed VUndefined).
  rewrite bind_eq, Hloop. split; [done|]. intros _. by rewrite Hexec.
Qed.

(** Every call of a flush is the call one of the three loops makes for a
    link of the table. *)
Lemma flush_calls_scheduled env s s' batch c call :
  wf s → _flush env s = (s', Return (batch, c)) → call ∈ batch →
  ∃ k lr l, _objectLinks s !! k = Some lr ∧ links s !! lr = Some l ∧
            ((call = dirtyCheck_of l ∧ needs_dirtyCheck l = true) ∨
             (call = insert_of l ∧ scheduledOperation l = Insert) ∨
             (call = remove_of l ∧ scheduledOperation l = Delete)).
Proof.
  intros Hwf Hflush Hin.
  destruct (flush_batch_prefix env s s' batch c Hwf Hflush) as (more & Hmore).
  assert (call ∈ expected_batch s (_getAllObjectLinks s)) as Hexp.
  { rewrite Hmore. apply elem_of_app. by left. }
  unfold expected_batch in Hexp.
  assert (∀ test f,
            call ∈ omap (pass_call test f s) (_getAllObjectLinks s) →
            ∃ k lr l, _objectLinks s !! k = Some lr ∧ links s !! lr = Some l ∧
                      call = f l ∧ test l = true) as Hcase.
  { intros test f (lr & Hlr & Hcall)%list_elem_of_omap.
    apply list_links_elem in Hlr as [k Hk].
    unfold pass_call in Hcall.
    destruct (links s !! lr) as [l|] eqn:Hl; [|done].
    destruct (test l) eqn:Htest; [|done]. simplify_eq.
    by exists k, lr, l. }
  apply elem_of_app in Hexp as [Hexp|Hexp].
  { destruct (Hcase _ _ Hexp) as (k & lr & l & Hk & Hl & -> & Ht).
    exists k, lr, l. do 2 (split; [done|]). by left. }
  apply elem_of_app in Hexp as [Hexp|Hexp].
  - destruct (Hcase _ _ Hexp) as (k & lr & l & Hk & Hl & -> & Ht).
    exists k, lr, l. apply bool_decide_eq_true_1 in Ht.
    do 2 (split; [done|]). right. by left.
  - destruct (Hcase _ _ Hexp) as (k & lr & l & Hk & Hl & -> & Ht).
    exists k, lr, l. apply bool_decide_eq_true_1 in Ht.
    do 2 (split; [done|]). right. by right.
Qed.

Lemma expected_batch_elem s k lr l :
  _objectLinks s !! k = Some lr → links s !! lr = Some l →
  (needs_dirtyCheck l = true →
   dirtyCheck_of l ∈ expected_batch s (_getAllObjectLinks s)) ∧
  (scheduledOperation l = Insert →
   insert_of l ∈ expected_batch s (_getAllObjectLinks s)) ∧
  (scheduledOperation l = Delete →
   remove_of l ∈ expected_batch s (_getAllObjectLinks s)).
Proof.
  intros Hk Hl.
  assert (lr ∈ _getAllObjectLinks s) as Hin
    by (apply list_links_elem; by exists k).
  assert (∀ test f, test l = true →
            f l ∈ omap (pass_call test f s) (_getAllObjectLinks s)) as Hcase.
  { intros test f Ht. apply list_elem_of_omap. exists lr. split; [done|].
    unfold pass_call. by rewrite Hl, Ht. }
  unfold expected_batch. repeat split; intros H.
  - apply elem_of_app. left. by apply Hcase.
  - apply elem_of_app. right. apply elem_of_app. left.
    apply Hcase. by apply bool_decide_eq_true_2.
  - apply elem_of_app. right. apply elem_of_app. right.
    apply Hcase. by apply bool_decide_eq_true_2.
Qed.

(** The records after the three loops of a flush that met no persister
    error. *)
Lemma _flush_assembled_links list s s' batch :
  NoDup list → (∀ lr, lr ∈ list → is_Some (links s !! lr)) →
  _flush_assemble list s = (s', Return (batch, None)) →
  ∀ lr l, lr ∈ list → links s !! lr = Some l →
    links s' !! lr = Some (flush_snapshot l).
Proof.
  intros Hnd Hsome. unfold _flush_assemble.
  rewrite bind_eq, dirtyCheck_pass_eq.
  destruct (call_pass_run needs_dirtyCheck dirtyCheck_of dirtyCheck_result
              list [] s Hnd Hsome)
    as (s1 & b1 & e1 & -> & _ & _ & Hpost1).
  destruct e1 as [err|]; [unfold ret; intros H; by simplify_eq|].
  destruct Hpost1 as [-> Hlinks1].
  assert (∀ lr, lr ∈ list → is_Some (links s1 !! lr)) as Hsome1.
  { intros lr Hin. destruct (Hsome lr Hin) as [l Hl].
    rewrite (Hlinks1 lr l Hin Hl). by eexists. }
  rewrite bind_eq, insert_pass_eq.
  destruct (call_pass_run (scheduled Insert) insert_of insert_result
              list ([] ++ omap (pass_call needs_dirtyCheck dirtyCheck_of s) list)
              s1 Hnd Hsome1)
    as (s2 & b2 & e2 & -> & _ & _ & Hpost2).
  destruct e2 as [err|]; [unfold ret; intros H; by simplify_eq|].
  destruct Hpost2 as [-> Hlinks2].
  assert (∀ lr, lr ∈ list → is_Some (links s2 !! lr)) as Hsome2.
  { intros lr Hin. destruct (Hsome1 lr Hin) as [l Hl].
    rewrite (Hlinks2 lr l Hin Hl). by eexists. }
  rewrite bind_eq, remove_pass_eq by done. unfold ret. intros Heq.
  assert (s' = s2) as -> by congruence.
  intros lr l Hin Hl.
  rewrite (Hlinks2 lr _ Hin (Hlinks1 lr l Hin Hl)). unfold flush_snapshot.
  destruct (needs_dirtyCheck l) eqn:Hn.
  - by rewrite needs_dirtyCheck_not_insert.
  - by destruct (scheduled Insert l).
Qed.

(** The loop after [batch.execute] keeps the links that were not
    scheduled for [Delete], with nothing scheduled any more. *)
Lemma flush_executed_keeps list : ∀ s s' r,
  wf s → NoDup list →
  (∀ lr, lr ∈ list → ∃ k, _objectLinks s !! k = Some lr) →
  for_each flush_executed_body list s = (s', Return r) →
  ∀ k lr l, _objectLinks s !! k = Some lr → links s !! lr = Some l →
    scheduledOperation l ≠ Delete →
    _objectLinks s' !! k = Some lr ∧
    links s' !! lr
    = Some (if decide (lr ∈ list) then set_scheduledOperation OpNone l else l).
Proof.
  induction list as [|lr0 rest IH]; intros s s' r Hwf Hnd Hin Hrun k lr l.
  { unfold for_each, ret in Hrun. simplify_eq. intros Hk Hl _.
    rewrite decide_False; [done|]. apply not_elem_of_nil. }
  intros Hk Hl Hop.
  apply NoDup_cons in Hnd as [Hnotin Hnd].
  rewrite for_each_cons in Hrun.
  pose proof (flush_executed_body_wf lr0 s Hwf) as Hwf1.
  destruct (Hin lr0) as [k0 Hk0]; [apply list_elem_of_here|].
  destruct (Hwf k0 lr0 Hk0) as (l0 & Hl0 & (id0 & Hid0 & Hkey0) & Hdel0 & _).
  rewrite (flush_executed_body_eq _ _ _ Hl0) in Hrun, Hwf1.
  destruct (decide (lr = lr0)) as [->|Hne].
  - assert (l0 = l) as -> by congruence.
    rewrite decide_False in Hrun, Hwf1 by done. simpl in Hwf1.
    rewrite (decide_True (P := lr0 ∈ lr0 :: rest))
      by apply list_elem_of_here.
    destruct (IH _ s' r Hwf1 Hnd) with (k := k) (lr := lr0)
      (l := set_scheduledOperation OpNone l) as [Hk' Hl']; [|done|done| |done|].
    + intros lr' Hin'. apply Hin. by apply list_elem_of_further.
    + simpl. apply lookup_insert_eq.
    + split; [done|]. by rewrite decide_False in Hl'.
  - assert (k ≠ k0) as Hkne by (intros ->; simplify_eq).
    assert ((if decide (lr ∈ lr0 :: rest)
             then set_scheduledOperation OpNone l else l)
            = if decide (lr ∈ rest)
              then set_scheduledOperation OpNone l else l) as ->.
    { destruct (decide (lr ∈ rest)) as [Hr|Hr].
      - rewrite decide_True; [done|]. by apply list_elem_of_further.
      - rewrite decide_False; [done|].
        intros [?|?]%elem_of_cons; done. }
    destruct (decide (scheduledOperation l0 = Delete)) as [Hop0|Hop0].
    + rewrite Hid0 in Hrun, Hwf1. simpl in Hwf1.
      apply (IH _ s' r Hwf1 Hnd); [|done| | |done].
      * intros lr' Hin'. destruct (Hin lr') as [k' Hk'];
          [by apply list_elem_of_further|].
        exists k'. simpl. rewrite unlinked_objectLinks, Hkey0.
        rewrite lookup_delete_ne; [done|]. intros ->. simplify_eq.
      * simpl. rewrite unlinked_objectLinks, Hkey0.
        by rewrite lookup_delete_ne.
      * simpl. rewrite unlinked_links. by rewrite lookup_insert_ne.
    + simpl in Hwf1.
      apply (IH _ s' r Hwf1 Hnd); [|done|done| |done].
      * intros lr' Hin'. apply Hin. by apply list_elem_of_further.
      * simpl. by rewrite lookup_insert_ne.
Qed.

Lemma flush_snapshot_same l : same_link l (flush_snapshot l).
Proof.
  unfold flush_snapshot.
  destruct (needs_dirtyCheck l); [done|]. by destruct (scheduled Insert l).
Qed.

(** X14.  Under [DeferredExplicit] change tracking a flush makes no call
    for a [Managed] entity that has nothing scheduled: its changes are
    not looked at.  After a [save] of the entity, the flush dirty-checks
    it against its [originalDocument]. *)
Theorem explicit_tracking_needs_save env obj id lr l s :
  wf s →
  _id s !! obj = Some id → _objectLinks s !! toString id = Some lr →
  links s !! lr = Some l → object l = obj → state l = Managed →
  scheduledOperation l = OpNone →
  Persister.changeTracking (persister l) = DeferredExplicit →
  (∀ env' s' batch c call,
     _flush env' s = (s', Return (batch, c)) → call ∈ batch →
     call_object call ≠ obj) ∧
  ∃ s1, _saveEntities env [obj] s = (s1, Return (Completed VUndefined)) ∧
        ∀ env', no_persister_error s1 (_getAllObjectLinks s1) →
          ∃ s2 batch c, _flush env' s1 = (s2, Return (batch, c)) ∧
                        CallDirtyCheck obj (originalDocument l) ∈ batch.
Proof.
  intros Hwf Hid Hk Hl Hobj Hst Hop Htr. split.
  - intros env' s' batch c call Hflush Hin Hcall.
    destruct (flush_calls_scheduled env' s s' batch c call Hwf Hflush Hin)
      as (k' & lr' & l' & Hk' & Hl' & Hcases).
    assert (call_object call = object l') as Hco
      by (destruct Hcases as [[-> _]|[[-> _]|[-> _]]]; done).
    destruct (wf_key s k' lr' l' Hwf Hk' Hl') as (id' & Hid' & Hkey').
    assert (id' = id) as -> by congruence.
    assert (lr' = lr) as -> by congruence.
    assert (l' = l) as -> by congruence.
    destruct Hcases as [[_ Hn]|[[_ Hn]|[_ Hn]]]; [|congruence..].
    unfold needs_dirtyCheck in Hn.
    rewrite Hop, Htr, !bool_decide_eq_false_2 in Hn by done. done.
  - pose proof (_saveEntities_body_managed env obj id lr l s Hid Hk Hl Hst)
      as Hbody.
    rewrite bool_decide_eq_true_2, Hop in Hbody by done. simpl in Hbody.
    pose proof (_saveEntities_body_wf env obj s Hwf) as Hwf1.
    rewrite Hbody in Hwf1. simpl in Hwf1.
    eexists. split; [by apply (_saveEntities_single env obj s _ None)|].
    intros env' Hnone.
    destruct (_flush_returns env' _ Hwf1) as (s2 & batch & c & Hrun & Hfull).
    destruct (Hfull Hnone) as [-> _].
    eexists s2, _, c. split; [exact Hrun|].
    match goal with |- _ ∈ expected_batch ?s1 _ =>
      destruct (expected_batch_elem s1 (toString id) lr
                  (set_scheduledOperation DirtyCheck l)) as [Hdc _]
    end; [done|simpl; apply lookup_insert_eq|].
    rewrite <- Hobj. apply Hdc. unfold needs_dirtyCheck.
    by rewrite bool_decide_eq_true_2.
Qed.

Lemma explicit_tracking_needs_save_witness :
  let env := demo_env DeferredExplicit None in
  (_flush env demo_persisted).2 = Return ([], Completed VUndefined) ∧
  (∀ env' s' batch c call,
     _flush env' demo_persisted = (s', Return (batch, c)) → call ∈ batch →
     call_object call ≠ 1) ∧
  ∃ s1, _saveEntities env [1] demo_persisted
        = (s1, Return (Completed VUndefined)) ∧
        ∀ env', no_persister_error s1 (_getAllObjectLinks s1) →
          ∃ s2 batch c, _flush env' s1 = (s2, Return (batch, c)) ∧
                        CallDirtyCheck 1 (Some 1) ∈ batch.
Proof.
  intros env. split; [vm_compute; reflexivity|].
  apply (explicit_tracking_needs_save env 1 (Id "a") 0
           (set_originalDocument (Some 1)
              (set_scheduledOperation OpNone
                 (new_link 1 (demo_persister DeferredExplicit) Insert)))
           demo_persisted);
    [apply reachable_wf, run_all_reachable, reach_new
    |vm_compute; reflexivity..].
Defined.

Lemma flush_leaves_nothing_scheduled env s s' batch v :
  wf s → _flush env s = (s', Return (batch, Completed v)) →
  ∀ k lr l, _objectLinks s' !! k = Some lr → links s' !! lr = Some l →
    scheduledOperation l = OpNone.
Proof.
  intros Hwf Hflush.
  pose proof (_flush_assemble_same (_getAllObjectLinks s) s) as Hsame.
  pose proof (_flush_assemble_wf (_getAllObjectLinks s) s Hwf) as Hwf1.
  destruct (flush_completed _ _ _ _ _ Hflush) as (s1 & Hasm & Hexec & Hloop).
  rewrite Hasm in Hsame, Hwf1. simpl in Hsame, Hwf1.
  pose proof Hsame as (Ht & _).
  apply (flush_executed_all_none _ s1 s' None Hwf1 Hloop).
  intros k lr l Hk Hl. left. apply list_links_elem. exists k.
  by rewrite <- Ht.
Qed.

(** X15.  A flush that follows a flush which completed without error
    returns, and inserts and deletes nothing: every call of its batch is
    the dirty check of a link of the table whose persister tracks changes
    as [DeferredImplicit]. *)
Theorem flush_after_flush env env' s s1 b1 v :
  wf s → _flush env s = (s1, Return (b1, Completed v)) →
  (∃ s2 b2 c, _flush env' s1 = (s2, Return (b2, c))) ∧
  ∀ s2 b2 c call,
    _flush env' s1 = (s2, Return (b2, c)) → call ∈ b2 →
    ∃ k lr l, _objectLinks s1 !! k = Some lr ∧ links s1 !! lr = Some l ∧
              call = CallDirtyCheck (object l) (originalDocument l) ∧
              Persister.changeTracking (persister l) = DeferredImplicit.
Proof.
  intros Hwf Hflush.
  pose proof (_flush_wf env s Hwf) as Hwf1. rewrite Hflush in Hwf1.
  simpl in Hwf1.
  pose proof (flush_leaves_nothing_scheduled env s s1 b1 v Hwf Hflush)
    as Hnone.
  split.
  - destruct (_flush_returns env' s1 Hwf1) as (s2 & b2 & c & Hrun & _).
    by exists s2, b2, c.
  - intros s2 b2 c call Hrun Hin.
    destruct (flush_calls_scheduled env' s1 s2 b2 c call Hwf1 Hrun Hin)
      as (k & lr & l & Hk & Hl & Hcases).
    pose proof (Hnone k lr l Hk Hl) as Hop.
    exists k, lr, l. do 2 (split; [done|]).
    destruct Hcases as [[-> Hn]|[[_ Hn]|[_ Hn]]]; [|congruence..].
    split; [done|]. unfold needs_dirtyCheck in Hn.
    rewrite Hop, bool_decide_eq_false_2 in Hn by done. simpl in Hn.
    apply andb_true_iff in Hn as [Hn _].
    by apply bool_decide_eq_true_1 in Hn.
Qed.

Lemma flush_after_flush_witness :
  let env := demo_env DeferredExplicit None in
  let s1 := (_flush env demo_busy).1 in
  (∃ s2 b2 c, _flush env s1 = (s2, Return (b2, c))) ∧
  ∀ s2 b2 c call,
    _flush env s1 = (s2, Return (b2, c)) → call ∈ b2 →
    ∃ k lr l, _objectLinks s1 !! k = Some lr ∧ links s1 !! lr = Some l ∧
              call = CallDirtyCheck (object l) (originalDocument l) ∧
              Persister.changeTracking (persister l) = DeferredImplicit.
Proof.
  intros env s1.
  apply (flush_after_flush env env demo_busy s1
           [CallDirtyCheck 1 (Some 1); CallInsert 2; CallRemove 3]
           VUndefined);
    [apply reachable_wf, run_all_reachable, reach_new
    |vm_compute; reflexivity].
Defined.

(** X16.  After a flush that completed without error, every link that
    was in the identity table and not scheduled for [Delete] is still
    there under its key, with its state, entity and persister, with
    nothing scheduled, and with the value returned by the persister as
    [originalDocument]: that of [dirtyCheck] if it was dirty-checked, that
    of [insert] if it was inserted, and the document it had otherwise. *)
Theorem successful_flush_keeps_links env s s' batch v :
  wf s → _flush env s = (s', Return (batch, Completed v)) →
  ∀ k lr l, _objectLinks s !! k = Some lr → links s !! lr = Some l →
    scheduledOperation l ≠ Delete →
    _objectLinks s' !! k = Some lr ∧
    links s' !! lr
    = Some {| state := state l;
              scheduledOperation := OpNone;
              object := object l;
              originalDocument :=
                if needs_dirtyCheck l
                then value (Persister.dirtyCheck (persister l) (object l)
                              (originalDocument l))
                else if decide (scheduledOperation l = Insert)
                     then value (Persister.insert (persister l) (object l))
                     else originalDocument l;
              persister := persister l |}.
Proof.
  intros Hwf Hflush k lr l Hk Hl Hop.
  set (list := _getAllObjectLinks s).
  pose proof (_flush_assemble_same list s) as Hsame.
  pose proof (_flush_assemble_wf list s Hwf) as Hwf1.
  destruct (flush_completed _ _ _ _ _ Hflush) as (s1 & Hasm & Hexec & Hloop).
  fold list in Hasm, Hloop.
  rewrite Hasm in Hsame, Hwf1. simpl in Hsame, Hwf1.
  pose proof Hsame as (Ht & _).
  assert (lr ∈ list) as Hin by (apply list_links_elem; by exists k).
  assert (links s1 !! lr = Some (flush_snapshot l)) as Hl1.
  { apply (_flush_assembled_links list s s1 batch (list_links_NoDup s Hwf));
      [|done..]. intros lr' Hin'. by apply list_links_Some. }
  destruct (flush_snapshot_same l) as (Hst & Hop' & Hobj & Hper).
  destruct (flush_executed_keeps list s1 s' None Hwf1
              (list_links_NoDup s Hwf)) with (k := k) (lr := lr)
    (l := flush_snapshot l) as [Hk' Hl']; [|done|by rewrite Ht|done| |].
  { intros lr' (k' & Hk')%list_links_elem. exists k'. by rewrite Ht. }
  { by rewrite Hop'. }
  split; [done|]. rewrite Hl', decide_True by done. f_equal.
  unfold flush_snapshot, scheduled, dirtyCheck_result, insert_result.
  destruct (needs_dirtyCheck l); [done|].
  destruct (decide (scheduledOperation l = Insert)).
  - by rewrite bool_decide_eq_true_2.
  - rewrite bool_decide_eq_false_2 by done. by destruct l.
Qed.

Lemma successful_flush_keeps_links_witness :
  let env := demo_env DeferredExplicit None in
  let s' := (_flush env demo_busy).1 in
  _objectLinks s' !! "a"%string = Some 0 ∧
  links s' !! 0
  = Some {| state := Managed; scheduledOperation := OpNone; object := 1;
            originalDocument := Some 101;
            persister := demo_persister DeferredExplicit |}.
Proof.
  intros env s'.
  apply (successful_flush_keeps_links env demo_busy s'
           [CallDirtyCheck 1 (Some 1); CallInsert 2; CallRemove 3]
           VUndefined
           (reachable_wf _ (run_all_reachable _ _ _ (reach_new ∅)))
           eq_refl "a"%string 0
           (set_scheduledOperation DirtyCheck
              (set_originalDocument (Some 1)
                 (set_scheduledOperation OpNone
                    (new_link 1 (demo_persister DeferredExplicit) Insert)))));
    vm_compute; done.
Defined.

(** X17.  When no persister call reports an error and [batch.execute]
    does, the error goes to the callback of [_flush] and the table and
    the [_id]s are as before, but the link records already carry the new
    snapshots: a dirty-checked or inserted link has the value its
    persister returned as [originalDocument], although nothing was
    written. *)
Theorem failed_batch_keeps_new_snapshots env s err :
  wf s →
  no_persister_error s (_getAllObjectLinks s) →
  Batch_execute env (expected_batch s (_getAllObjectLinks s)) = Some err →
  ∃ s', _flush env s
        = (s', Return (expected_batch s (_getAllObjectLinks s), Failed err)) ∧
        _objectLinks s' = _objectLinks s ∧ _id s' = _id s ∧
        ∀ k lr l, _objectLinks s !! k = Some lr → links s !! lr = Some l →
          links s' !! lr = Some (flush_snapshot l).
Proof.
  intros Hwf Hnone Hexec. set (list := _getAllObjectLinks s) in *.
  pose proof (_flush_assemble_same list s) as Hsame.
  destruct (_flush_assemble_run list s (list_links_NoDup s Hwf))
    as (s1 & batch & e & Hasm & _ & He & Hfull).
  { intros lr Hin. by apply list_links_Some. }
  rewrite (He Hnone) in Hasm, Hfull.
  destruct (Hfull eq_refl) as [-> _].
  rewrite Hasm in Hsame. simpl in Hsame.
  destruct Hsame as (Ht & _ & Hi & _).
  exists s1. split.
  { unfold _flush. rewrite bind_eq. cbn [gets]. fold list.
    by rewrite bind_eq, Hasm, Hexec. }
  do 2 (split; [done|]).
  intros k lr l Hk Hl.
  apply (_flush_assembled_links list s s1 (expected_batch s list)
           (list_links_NoDup s Hwf));
    [|done| |done].
  - intros lr' Hin'. by apply list_links_Some.
  - apply list_links_elem. by exists k.
Qed.

Lemma failed_batch_keeps_new_snapshots_witness :
  let env := demo_env DeferredExplicit (Some "E11000 duplicate key"%string) in
  ∃ s', (_flush env demo_busy).1 = s' ∧
        (_flush env demo_busy).2
        = Return ([CallDirtyCheck 1 (Some 1); CallInsert 2; CallRemove 3],
                  Failed "E11000 duplicate key") ∧
        (originalDocument <$> links demo_busy !! 0) = Some (Some 1) ∧
        (originalDocument <$> links s' !! 0) = Some (Some 101).
Proof.
  intros env.
  destruct (failed_batch_keeps_new_snapshots env demo_busy
              "E11000 duplicate key"
              (reachable_wf _ (run_all_reachable _ _ _ (reach_new ∅))))
    as (s' & Hrun & _ & _ & Hlinks).
  - intros lr l Hin Hl. vm_compute in Hin.
    do 3 (apply elem_of_cons in Hin as [->|Hin];
          [vm_compute in Hl; injection Hl as <-;
           split; intros _; vm_compute; reflexivity|]).
    apply elem_of_nil in Hin. destruct Hin.
  - vm_compute. reflexivity.
  - exists s'. rewrite Hrun. split; [done|].
    split; [vm_compute; reflexivity|]. split; [vm_compute; reflexivity|].
    assert (links s' !! 0
            = Some (flush_snapshot
                      (set_scheduledOperation DirtyCheck
                         (set_originalDocument (Some 1)
                            (set_scheduledOperation OpNone
                               (new_link 1 (demo_persister DeferredExplicit)
                                  Insert))))))
      as -> by (apply (Hlinks "a"%string); vm_compute; reflexivity).
    vm_compute. reflexivity.
Defined.

(** ** The cache of persisters *)

Lemma keeps_ret {A} I (a : A) : keeps I (ret a).
Proof. by intros s. Qed.

Lemma keeps_throw {A} I e : keeps I (throw (A := A) e).
Proof. by intros s. Qed.

Lemma keeps_gets {A} I (f : Session → A) : keeps I (gets f).
Proof. by intros s. Qed.

Lemma keeps_bind {A B} I (m : M A) (f : A → M B) :
  keeps I m → (∀ a, keeps I (f a)) → keeps I (bind m f).
Proof.
  intros Hm Hf s Hs. rewrite bind_eq. specialize (Hm s Hs).
  destruct (m s) as [s1 [a|e]]; [by apply Hf|done].
Qed.

Lemma keeps_for_each {A} I (body : A → M (option Completion)) l :
  (∀ x, keeps I (body x)) → keeps I (for_each body l).
Proof. intros Hbody s Hs. by apply for_each_preserves. Qed.

Lemma keeps_modify c f :
  (∀ s, _persisterByMapping (f s) = _persisterByMapping s) →
  keeps (caches c) (modify f).
Proof. intros Hf s Hs k p Hk. simpl. rewrite Hf. by apply Hs. Qed.

Lemma keeps_getPersister c env m : keeps (caches c) (getPersister env m).
Proof.
  intros s Hs k p Hk. rewrite getPersister_eq. unfold cached. simpl.
  destruct (_persisterByMapping s !! mapping_id m) eqn:Hm; [by apply Hs|].
  simpl. rewrite lookup_insert_ne; [by apply Hs|].
  intros <-. by rewrite (Hs _ _ Hk) in Hm.
Qed.

Ltac keeps_step :=
  first
    [ apply keeps_ret
    | apply keeps_throw
    | apply keeps_gets
    | apply keeps_getPersister
    | apply keeps_modify; reflexivity
    | apply keeps_bind; [|intros ?]
    | apply keeps_for_each; intros ?
    | match goal with
      | |- keeps _ (match ?x with _ => _ end) => destruct x
      end ].

Lemma keeps_deref c lr : keeps (caches c) (deref lr).
Proof. intros s Hs. unfold deref. by destruct (links s !! lr). Qed.

Lemma keeps_update c lr f : keeps (caches c) (update lr f).
Proof.
  unfold update. apply keeps_bind; [apply keeps_deref|intros l].
  by apply keeps_modify.
Qed.

Lemma keeps__linkObject c obj p op : keeps (caches c) (_linkObject obj p op).
Proof. unfold _linkObject, alloc. repeat keeps_step. Qed.

Lemma keeps__unlinkObject c lr : keeps (caches c) (_unlinkObject lr).
Proof.
  unfold _unlinkObject. apply keeps_bind; [apply keeps_deref|intros l].
  repeat keeps_step.
Qed.

Lemma keeps__getPersisterForObject c env obj :
  keeps (caches c) (_getPersisterForObject env obj).
Proof. unfold _getPersisterForObject. repeat keeps_step. Qed.

Lemma keeps__getObjectLinks c env obj :
  keeps (caches c) (_getObjectLinks env obj).
Proof.
  unfold _getObjectLinks.
  repeat first [apply keeps__getPersisterForObject | apply keeps__linkObject
               | apply keeps_update | keeps_step].
Qed.

Ltac keeps_session :=
  repeat first
    [ apply keeps__getObjectLinks | apply keeps__getPersisterForObject
    | apply keeps__linkObject | apply keeps__unlinkObject
    | apply keeps_update | apply keeps_deref | keeps_step ].

Lemma keeps__saveEntities c env entities :
  keeps (caches c) (_saveEntities env entities).
Proof. unfold _saveEntities, _saveEntities_body. keeps_session. Qed.

Lemma keeps__removeEntities c env entities :
  keeps (caches c) (_removeEntities env entities).
Proof. unfold _removeEntities, _removeEntities_body. keeps_session. Qed.

Lemma keeps__detachEntities c env entities :
  keeps (caches c) (_detachEntities env entities).
Proof. unfold _detachEntities, _detachEntities_body. keeps_session. Qed.

Lemma keeps_call_pass c test call result list : ∀ batch,
  keeps (caches c) (call_pass test call result list batch).
Proof.
  induction list as [|lr rest IH]; intros batch; cbn [call_pass];
    [apply keeps_ret|].
  apply keeps_bind; [apply keeps_deref|intros l].
  destruct (test l); [|apply IH].
  destruct (error (result l)); [apply keeps_ret|].
  apply keeps_bind; [apply keeps_update|intros _; apply IH].
Qed.

Lemma keeps__flush c env : keeps (caches c) (_flush env).
Proof.
  unfold _flush. apply keeps_bind; [apply keeps_gets|intros list].
  apply keeps_bind.
  - intros s Hs. unfold _flush_assemble. rewrite bind_eq, dirtyCheck_pass_eq.
    pose proof (keeps_call_pass c needs_dirtyCheck dirtyCheck_of
                  dirtyCheck_result list [] s Hs) as H1.
    destruct (call_pass _ _ _ _ _ _) as [s1 [[b1 [e1|]]|e1]]; [done| |done].
    rewrite bind_eq, insert_pass_eq.
    pose proof (keeps_call_pass c (scheduled Insert) insert_of insert_result
                  list b1 s1 H1) as H2.
    destruct (call_pass _ _ _ _ _ _) as [s2 [[b2 [e2|]]|e2]]; [done| |done].
    rewrite bind_eq.
    pose proof (remove_pass_state list b2 s2) as H3.
    destruct (remove_pass _ _ _) as [s3 [b3|e3]]; simpl in H3; by subst s3.
  - intros [batch [err|]]; [apply keeps_ret|].
    destruct (Batch_execute env batch); [apply keeps_ret|].
    unfold flush_executed_body. keeps_session.
Qed.

Lemma keeps__execute c env a x : keeps (caches c) (_execute env a x).
Proof.
  destruct a, x; cbn [_execute];
    try apply keeps_ret; try apply keeps_throw;
    unfold _save, _remove, _detach, _clear, _find,
      _getPersisterForConstructor;
    repeat first
      [ apply keeps__saveEntities | apply keeps__removeEntities
      | apply keeps__detachEntities | apply keeps__flush | keeps_step ].
Qed.

Lemma keeps_registerManaged c p entity document :
  keeps (caches c) (registerManaged p entity document).
Proof. unfold registerManaged. keeps_session. Qed.

Lemma caches_lookup env m p s :
  _persisterByMapping s !! mapping_id m = Some p →
  getPersister env m s = (s, Return p).
Proof.
  intros Hp. rewrite getPersister_eq. unfold cached, persister_of.
  by rewrite Hp.
Qed.

(** X18.  One persister per mapping: the persister [getPersister]
    answers for a mapping is the one it answers ever after, under any
    session factory: no task of the session takes a persister out of the
    cache or replaces it ([clear] does not either), nor does
    [registerManaged], and a later [getPersister] for that mapping leaves
    the session as it is. *)
Theorem persister_is_created_once env m s :
  let s1 := (getPersister env m s).1 in
  let p := persister_of env m s in
  getPersister env m s = (s1, Return p) ∧
  (∀ env' a x env'',
     getPersister env'' m (_execute env' a x s1).1
     = ((_execute env' a x s1).1, Return p)) ∧
  (∀ p' entity document env'',
     getPersister env'' m (registerManaged p' entity document s1).1
     = ((registerManaged p' entity document s1).1, Return p)) ∧
  ∀ env' tasks env'',
    getPersister env'' m (run_all env' tasks s1)
    = (run_all env' tasks s1, Return p).
Proof.
  intros s1 p. subst s1 p. rewrite getPersister_eq. cbn [fst].
  set (p := persister_of env m s).
  assert (caches {[ mapping_id m := p ]} (cached env m s)) as Hc.
  { intros k p' [<- <-]%lookup_singleton_Some. unfold cached, p, persister_of.
    destruct (_persisterByMapping s !! mapping_id m) eqn:Hm; [done|].
    simpl. apply lookup_insert_eq. }
  assert (∀ s', caches {[ mapping_id m := p ]} s' →
            ∀ env'', getPersister env'' m s' = (s', Return p)) as Hget.
  { intros s' Hs' env''. apply caches_lookup, Hs', lookup_singleton_eq. }
  split; [done|]. split.
  { intros env' a x env''. by apply Hget, keeps__execute. }
  split.
  { intros p' entity document env''. by apply Hget, keeps_registerManaged. }
  intros env' tasks env''. apply Hget.
  generalize (cached env m s) Hc. clear.
  induction tasks as [|t tasks IH]; intros s0 Hs0; [done|].
  apply IH. by apply keeps__execute.
Qed.

(** ** The keys of the identity table

    [_linkObject] is the only place where a key is added, and it throws
    for the name of an inherited member: no session reached through the
    operations has such a key. *)

Lemma own_keys_modify f :
  (∀ s k lr, _objectLinks (f s) !! k = Some lr →
             _objectLinks s !! k = Some lr) →
  keeps own_keys (modify f).
Proof. intros Hf s Hs k lr Hk. by apply (Hs k lr), Hf. Qed.

Lemma own_keys_getPersister env m : keeps own_keys (getPersister env m).
Proof.
  intros s Hs k lr. rewrite getPersister_eq. cbn [fst].
  rewrite cached_objectLinks. apply Hs.
Qed.

Lemma own_keys_deref lr : keeps own_keys (deref lr).
Proof. intros s Hs. unfold deref. by destruct (links s !! lr). Qed.

Ltac own_keys_step :=
  first
    [ apply keeps_ret
    | apply keeps_throw
    | apply keeps_gets
    | apply own_keys_getPersister
    | apply own_keys_deref
    | apply own_keys_modify; intros ? ? ?; simpl;
      first [ done
            | by intros [_ ?]%lookup_delete_Some
            | by rewrite lookup_empty ]
    | apply keeps_bind; [|intros ?]
    | apply keeps_for_each; intros ?
    | match goal with
      | |- keeps _ (match ?x with _ => _ end) => destruct x
      end ].

Lemma own_keys_update lr f : keeps own_keys (update lr f).
Proof. unfold update. repeat own_keys_step. Qed.

Lemma own_keys__linkObject obj p op : keeps own_keys (_linkObject obj p op).
Proof.
  intros s Hs. destruct (_id s !! obj) as [id|] eqn:Hid;
    [|by rewrite _linkObject_no_id].
  destruct (_objectLinks s !! toString id) as [lr|] eqn:Hk;
    [by erewrite _linkObject_taken|].
  destruct (inherited (toString id)) eqn:Hin;
    [by erewrite _linkObject_inherited|].
  rewrite (_linkObject_eq _ _ _ id) by done. cbn [fst].
  intros k lr. rewrite linked_objectLinks.
  destruct (decide (k = toString id)) as [->|Hne]; [done|].
  rewrite lookup_insert_ne by done. apply Hs.
Qed.

Lemma own_keys__unlinkObject lr : keeps own_keys (_unlinkObject lr).
Proof. unfold _unlinkObject. repeat own_keys_step. Qed.

Lemma own_keys__getPersisterForObject env obj :
  keeps own_keys (_getPersisterForObject env obj).
Proof. unfold _getPersisterForObject. repeat own_keys_step. Qed.

Lemma own_keys__getObjectLinks env obj :
  keeps own_keys (_getObjectLinks env obj).
Proof.
  unfold _getObjectLinks.
  repeat first
    [ apply own_keys__getPersisterForObject | apply own_keys__linkObject
    | apply own_keys_update | own_keys_step ].
Qed.

Ltac own_keys_session :=
  repeat first
    [ apply own_keys__getObjectLinks | apply own_keys__getPersisterForObject
    | apply own_keys__linkObject | apply own_keys__unlinkObject
    | apply own_keys_update | own_keys_step ].

Lemma own_keys__saveEntities env entities :
  keeps own_keys (_saveEntities env entities).
Proof. unfold _saveEntities, _saveEntities_body. own_keys_session. Qed.

Lemma own_keys__removeEntities env entities :
  keeps own_keys (_removeEntities env entities).
Proof. unfold _removeEntities, _removeEntities_body. own_keys_session. Qed.

Lemma own_keys__detachEntities env entities :
  keeps own_keys (_detachEntities env entities).
Proof. unfold _detachEntities, _detachEntities_body. own_keys_session. Qed.

Lemma own_keys__flush env : keeps own_keys (_flush env).
Proof.
  unfold _flush. apply keeps_bind; [apply keeps_gets|intros list].
  apply keeps_bind.
  - intros s Hs k lr.
    destruct (_flush_assemble_same list s) as (-> & _). apply Hs.
  - intros [batch [err|]]; [apply keeps_ret|].
    destruct (Batch_execute env batch); [apply keeps_ret|].
    unfold flush_executed_body. own_keys_session.
Qed.

Lemma own_keys__execute env a x : keeps own_keys (_execute env a x).
Proof.
  destruct a, x; cbn [_execute];
    try apply keeps_ret; try apply keeps_throw;
    unfold _save, _remove, _detach, _clear, _find,
      _getPersisterForConstructor;
    repeat first
      [ apply own_keys__saveEntities | apply own_keys__removeEntities
      | apply own_keys__detachEntities | apply own_keys__flush
      | own_keys_step ].
Qed.

Lemma reachable_own_keys s : reachable s → own_keys s.
Proof.
  induction 1 as [ids|env a x s _ IH|p entity document s _ IH|obj id s _ IH _].
  - intros k lr Hk. simpl in Hk. by rewrite lookup_empty in Hk.
  - by apply own_keys__execute.
  - unfold registerManaged. revert s IH. fold (keeps own_keys
      (let* lr := _linkObject entity p OpNone in
       update lr (set_originalDocument (Some document)))).
    own_keys_session.
  - exact IH.
Qed.

(** ** Looking up a saved entity *)

(** X19.  Once [_saveEntities] has linked a new entity, the session
    answers for it: [getId] returns the generated identifier, [contains]
    is true, and [getObject] and [getReference] with that identifier
    return the entity itself, not a reference; the identifiers and links
    of the other entities are untouched.  The entity is linked when the
    generated identifier is neither a key of the identity table nor the
    name of a member the table object inherits; for such a name
    [_linkObject] throws "Session already contains a managed entity with
    identifier ...", the callback is never invoked and the entity keeps
    the identifier without a link. *)
Theorem saved_entity_is_found env obj m s :
  _id s !! obj = None →
  getMappingForObject (factory env) obj = Some m →
  let g := generate (Persister.identity (persister_of env m s)) (generated s) in
  _objectLinks s !! toString g = None →
  if inherited (toString g)
  then ∃ s', _saveEntities env [obj] s
             = (s', Throw (already_linked (toString g))) ∧
             getId obj s' = Some g ∧ _objectLinks s' = _objectLinks s ∧
             links s' = links s
  else
  ∃ s', _saveEntities env [obj] s = (s', Return (Completed VUndefined)) ∧
        getId obj s' = Some g ∧ contains obj s' = true ∧
        getObject g s' = VEntity obj ∧
        (∀ ctr, getReference env ctr (IdValue g) s' = TEntity obj) ∧
        (∀ o, o ≠ obj → getId o s' = getId o s) ∧
        (∀ k, k ≠ toString g → _objectLinks s' !! k = _objectLinks s !! k) ∧
        (∀ lr l, links s !! lr = Some l → links s' !! lr = Some l).
Proof.
  intros Hid Hm g Hk. destruct (inherited (toString g)) eqn:Hin.
  { eexists. split.
    - unfold _saveEntities.
      by rewrite bind_eq, for_each_cons,
        (_saveEntities_body_refused env obj m s Hid Hm Hin).
    - simpl. rewrite cached_objectLinks, cached_links. unfold getId. simpl.
      by rewrite lookup_insert_eq. }
  exists (saved_new env obj m s).
  pose proof (linked_as_saved_new env obj m s) as Hlinked. fold g in Hlinked.
  destruct (linked_as_queries env _ _ _ _ _ Hlinked) as (Hc & Hg & Hr).
  split.
  { apply (_saveEntities_single env obj s _ None).
    by apply _saveEntities_body_new. }
  split; [exact (proj1 Hlinked)|]. split; [by rewrite Hc|].
  split; [by rewrite Hg|]. split; [intros ctr; by rewrite Hr|].
  unfold saved_new, getId. fold g.
  rewrite linked_id, linked_objectLinks, linked_links. simpl.
  rewrite ?cached_id, ?cached_objectLinks, ?cached_links.
  split; [intros o Ho; by apply lookup_insert_ne|].
  split; [intros k Hne; by apply lookup_insert_ne|].
  intros lr l Hl. rewrite lookup_insert_ne; [done|].
  intros <-. by rewrite fresh_link in Hl.
Qed.

Lemma saved_entity_is_found_witness :
  let env := demo_env DeferredImplicit None in
  ∃ s', _saveEntities env [2] demo_persisted
        = (s', Return (Completed VUndefined)) ∧
        getId 2 s' = Some (Id "aa") ∧ contains 2 s' = true ∧
        getObject (Id "aa") s' = VEntity 2.
Proof.
  intros env.
  pose proof (saved_entity_is_found env 2 demo_mapping demo_persisted
                eq_refl eq_refl eq_refl) as H.
  change (inherited _) with false in H.
  destruct H as (s' & Hrun & Hid & Hc & Hg & _).
  exists s'. split; [exact Hrun|]. split; [exact Hid|]. by split.
Defined.

(** ** Fetching without paths *)

(** X20.  [fetch] completes only when it is given no path.  With a
    callback, [undefined] or an empty array in the place of the paths,
    the callback receives the entity given, or the entity its reference
    resolved to, or the error of the reference.  A single path given as a
    string is wrapped into an array of one path, and then, as for any
    other non-empty array, the callback is never invoked once the target
    is an entity.  This is about what the callback receives; what
    resolving a reference does to the session is the work of
    [Reference.fetch] and is not stated. *)
Theorem fetch_completes_without_paths env obj pathsOrCallback s :
  (run env (fetch obj pathsOrCallback) s).2
  = Return
          match obj with
          | TEntity o =>
              match pathsOrCallback with
              | PCallback | PUndefined | PArray [] => Completed (VEntity o)
              | PString _ | PArray (_ :: _) => NotCalled
              end
          | TReference r =>
              match Reference_fetch env r with
              | inl err => Failed err
              | inr entity =>
                  match pathsOrCallback with
                  | PCallback | PUndefined | PArray [] =>
                      Completed (VEntity entity)
                  | PString _ | PArray (_ :: _) => NotCalled
                  end
              end
          end.
Proof.
  unfold run, fetch, _queue_add, _execute, _fetch, ret. cbn [action arg].
  destruct obj as [o|r]; [|destruct (Reference_fetch env r)];
    destruct pathsOrCallback as [|str|[|p ps]|]; reflexivity.
Qed.

(** ** PropertyFlags *)

(** X21.  Every flag of [PropertyFlags] other than [None] and
    [CascadeAll] is a single bit, no two flags share a bit, and
    [CascadeAll] is exactly the five [Cascade] flags: it contains
    [CascadeSave], [CascadeRemove], [CascadeDetach], [CascadeRefresh] and
    [CascadeMerge], and none of [Ignored], [InverseSide], [Nullable],
    [OrphanRemoval] and [Dereference]. *)
Theorem PropertyFlags_are_bits :
  (∀ flag bit, (flag, bit) ∈ PropertyFlags_bits → flag = Z.shiftl 1 bit) ∧
  (∀ f1 b1 f2 b2,
     (f1, b1) ∈ PropertyFlags_bits → (f2, b2) ∈ PropertyFlags_bits →
     f1 ≠ f2 → Z.land f1 f2 = 0%Z) ∧
  (∀ flag bit, (flag, bit) ∈ PropertyFlags_bits →
     Z.land PropertyFlags.CascadeAll flag
     = if ((1 <=? bit) && (bit <=? 5))%Z then flag else 0%Z).
Proof.
  assert (∀ P : Z * Z → Prop, Forall P PropertyFlags_bits →
            ∀ flag bit, (flag, bit) ∈ PropertyFlags_bits → P (flag, bit))
    as Hall.
  { intros P HP flag bit Hin. by eapply Forall_forall in HP. }
  split; [|split].
  - apply (Hall (fun fb => fb.1 = Z.shiftl 1 fb.2)).
    repeat constructor.
  - intros f1 b1 f2 b2 H1. revert f2 b2.
    revert f1 b1 H1.
    apply (Hall (fun fb1 => ∀ f2 b2, (f2, b2) ∈ PropertyFlags_bits →
                              fb1.1 ≠ f2 → Z.land fb1.1 f2 = 0%Z)).
    repeat constructor; simpl;
      apply (Hall (fun fb2 => _ ≠ fb2.1 → Z.land _ fb2.1 = 0%Z));
      repeat constructor; simpl; intros Hne; try reflexivity;
      by destruct Hne.
  - apply (Hall (fun fb => Z.land PropertyFlags.CascadeAll fb.1
                           = if ((1 <=? fb.2) && (fb.2 <=? 5))%Z
                             then fb.1 else 0%Z)).
    repeat constructor.
Qed.

(** ** BooleanMapping *)

(** X22.  [read] and [write] of [BooleanMapping] do the same: a boolean
    is returned as it is and [null] and [undefined] are both returned as
    [null], the context receiving no error; for any other value the
    context receives exactly one error, "Expected boolean.", after those
    it had, and [undefined] is returned.  So the value returned is always
    [null], [undefined] or a boolean, and it is [undefined] exactly when
    an error was reported. *)
Theorem BooleanMapping_read_write context value :
  BooleanMapping.write context value = BooleanMapping.read context value ∧
  match value with
  | BooleanMapping.JsBoolean b =>
      BooleanMapping.read context value
      = (context, BooleanMapping.JsBoolean b)
  | BooleanMapping.JsNull | BooleanMapping.JsUndefined =>
      BooleanMapping.read context value = (context, BooleanMapping.JsNull)
  | _ =>
      BooleanMapping.read context value
      = (context ++ ["Expected boolean."%string], BooleanMapping.JsUndefined)
  end ∧
  ((BooleanMapping.read context value).2 = BooleanMapping.JsUndefined ↔
   (BooleanMapping.read context value).1 ≠ context).
Proof.
  split; [reflexivity|]. split.
  - by destruct value.
  - assert (context ++ ["Expected boolean."%string] ≠ context) as Hne.
    { intros Heq. apply (f_equal length) in Heq.
      rewrite length_app in Heq. simpl in Heq. lia. }
    destruct value; simpl; split; intros H; try done;
      by destruct H.
Qed.

(** X23.  What [write] returns without reporting an error, [read] gives
    back unchanged and without an error: a boolean survives the round
    trip, and [undefined] comes back as [null]. *)
Theorem BooleanMapping_round_trip context value written :
  BooleanMapping.write context value = (context, written) →
  BooleanMapping.read context written = (context, written) ∧
  (written = value ∨
   (value = BooleanMapping.JsUndefined ∧ written = BooleanMapping.JsNull)).
Proof.
  assert (context ++ ["Expected boolean."%string] ≠ context) as Hne.
  { intros Heq. apply (f_equal length) in Heq.
    rewrite length_app in Heq. simpl in Heq. lia. }
  destruct value; simpl; intros H;
    first [ injection H as Hc Hw; by destruct (Hne Hc)
          | injection H as <-; auto ].
Qed.

Lemma BooleanMapping_round_trip_witness :
  BooleanMapping.read [] (BooleanMapping.JsBoolean true)
  = ([], BooleanMapping.JsBoolean true).
Proof.
  apply (BooleanMapping_round_trip [] (BooleanMapping.JsBoolean true)
           (BooleanMapping.JsBoolean true) eq_refl).
Defined.

(** ** The earlier session: the count of links and the flush *)

Section LegacyFacts.

Import Legacy.

Lemma legacy_bind_eq {A B} (m : M A) (f : A → M B) s :
  bind m f s = match m s with
               | (s', Return a) => f a s'
               | (s', Throw e) => (s', Throw e)
               end.
Proof. reflexivity. Qed.

Lemma legacy_deref_eq lr l s :
  links s !! lr = Some l → deref lr s = (s, Return l).
Proof. intros H. unfold deref. by rewrite H. Qed.

Lemma legacy_update_eq lr f l s :
  links s !! lr = Some l →
  update lr f s = (with_links (<[lr := f l]>) s, Return tt).
Proof.
  intros H. unfold update. by rewrite legacy_bind_eq, (legacy_deref_eq _ _ _ H).
Qed.



Lemma legacy_linkObject_eq env obj m operation id s :
  _id s !! obj = Some id →
  _linkObject env obj (Some m) operation s
  = (linked id (new_link obj m operation) s, Return (fresh (dom (links s)))).
Proof.
  intros Hid. unfold _linkObject, alloc, bind, ret, modify, gets.
  simpl. by rewrite Hid.
Qed.

Lemma legacy_linkObject_lookup env obj m id s :
  getMappingForObject env obj = Some m → _id s !! obj = Some id →
  _linkObject env obj None OpNone s
  = (linked id (new_link obj m OpNone) s, Return (fresh (dom (links s)))).
Proof.
  intros Hm Hid. rewrite <- (legacy_linkObject_eq env obj m OpNone id s Hid).
  unfold _linkObject. by rewrite Hm.
Qed.

Lemma legacy_linkObject_unmapped env obj operation s :
  getMappingForObject env obj = None →
  _linkObject env obj None operation s = (s, Throw not_mapped).
Proof. intros Hm. unfold _linkObject. by rewrite legacy_bind_eq, Hm. Qed.




Lemma legacy_getObjectLinks_member env obj id s :
  _id s !! obj = Some id → _objectLinks s !! toString id = None →
  inherited (toString id) = true →
  _getObjectLinks env obj s = (s, Return (Some (Member (toString id)))).
Proof.
  intros Hid Hk Hin. unfold _getObjectLinks. rewrite legacy_bind_eq.
  cbn [gets]. rewrite Hid, legacy_bind_eq. cbn [gets]. by rewrite Hk, Hin.
Qed.

Lemma legacy_getObjectLinks_unmapped env obj id s :
  _id s !! obj = Some id → _objectLinks s !! toString id = None →
  getMappingForObject env obj = None →
  inherited (toString id) = false →
  _getObjectLinks env obj s = (s, Throw not_mapped).
Proof.
  intros Hid Hk Hm Hown. unfold _getObjectLinks. rewrite legacy_bind_eq.
  cbn [gets]. rewrite Hid, legacy_bind_eq. cbn [gets]. rewrite Hk, Hown.
  by rewrite legacy_bind_eq, legacy_linkObject_unmapped.
Qed.

Lemma legacy_getObjectLinks_detached env obj id m s :
  _id s !! obj = Some id → _objectLinks s !! toString id = None →
  getMappingForObject env obj = Some m →
  inherited (toString id) = false →
  _getObjectLinks env obj s
  = (linked id (set_state Detached (new_link obj m OpNone)) s,
     Return (Some (Linked (fresh (dom (links s)))))).
Proof.
  intros Hid Hk Hm Hown. unfold _getObjectLinks. rewrite legacy_bind_eq.
  cbn [gets]. rewrite Hid, legacy_bind_eq. cbn [gets]. rewrite Hk, Hown.
  rewrite legacy_bind_eq, (legacy_linkObject_lookup env obj m id) by done.
  rewrite legacy_bind_eq.
  erewrite legacy_update_eq by (unfold linked; simpl; apply lookup_insert_eq).
  unfold linked, ret, with_links, with_objectLinks, with_objectLinksCount.
  simpl. by rewrite insert_insert_eq.
Qed.






Lemma legacy_linked_lookup id l s :
  links (linked id l s) !! fresh (dom (links s)) = Some l.
Proof. unfold linked. simpl. apply lookup_insert_eq. Qed.




















(** X27.  In the earlier session, an entity that carries an identifier
    the table has no link for.  When the identifier is the name of a
    member the table object inherits, the lookup returns that member:
    [_persist], [remove] and [detach] return normally and leave the
    session as it was, whether the class is mapped or not.  Otherwise
    the entity is taken for detached, and errors are thrown, not passed
    to a callback.  If its class is not mapped, [_persist], [remove] and
    [detach] all throw "Object is not mapped as a document type." and
    leave the session as it was.  If its class is mapped, the entity is
    linked as [Detached] (and counted); then [detach] returns normally,
    [_persist] throws "Cannot persist a detached object." and [remove]
    throws "Cannot remove a detached object.". *)
Theorem legacy_unknown_identifier env obj id s :
  _id s !! obj = Some id → _objectLinks s !! toString id = None →
  if inherited (toString id)
  then _persist env obj s = (s, Return tt) ∧
       remove env obj s = (s, Return tt) ∧
       detach env obj s = (s, Return tt)
  else
  match getMappingForObject env obj with
  | None =>
      _persist env obj s = (s, Throw not_mapped) ∧
      remove env obj s = (s, Throw not_mapped) ∧
      detach env obj s = (s, Throw not_mapped)
  | Some m =>
      let s' := linked id (set_state Detached (new_link obj m OpNone)) s in
      _persist env obj s = (s', Throw detached_persist) ∧
      remove env obj s = (s', Throw detached_remove) ∧
      detach env obj s = (s', Return tt) ∧
      _objectLinksCount s' = (_objectLinksCount s + 1)%Z
  end.
Proof.
  intros Hid Hk. unfold _persist, remove, detach.
  destruct (inherited (toString id)) eqn:Hin.
  { by rewrite !legacy_bind_eq,
      (legacy_getObjectLinks_member env obj id). }
  destruct (getMappingForObject env obj) as [m|] eqn:Hm.
  - rewrite !legacy_bind_eq,
      (legacy_getObjectLinks_detached env obj id m) by done.
    rewrite !legacy_bind_eq,
      (legacy_deref_eq _ _ _ (legacy_linked_lookup _ _ _)).
    done.
  - by rewrite !legacy_bind_eq,
      (legacy_getObjectLinks_unmapped env obj id).
Qed.

Lemma legacy_unknown_identifier_witness :
  let s := new_session {[ 4 := Id "x" ]} in
  let t := new_session {[ 4 := Id "constructor" ]} in
  remove demo_env 4 s
  = (linked (Id "x") (set_state Detached (new_link 4 demo_mapping OpNone)) s,
     Throw detached_remove) ∧
  _persist demo_env 4 t = (t, Return tt) ∧ remove demo_env 4 t = (t, Return tt).
Proof.
  intros s t. split.
  - pose proof (legacy_unknown_identifier demo_env 4 (Id "x") s
                  eq_refl eq_refl) as H.
    simpl in H. exact (proj1 (proj2 H)).
  - pose proof (legacy_unknown_identifier demo_env 4 (Id "constructor") t
                  eq_refl eq_refl) as H.
    simpl in H. split; [exact (proj1 H)|exact (proj1 (proj2 H))].
Defined.

End LegacyFacts.

(** ** What a refused [save] or [remove] leaves behind *)

(** A link stored under the key of its entity is met by a flush whose
    persister calls report no error. *)
Lemma flush_makes_calls env s k lr l :
  wf s → no_persister_error s (_getAllObjectLinks s) →
  _objectLinks s !! k = Some lr → links s !! lr = Some l →
  ∃ s' batch c,
    _flush env s = (s', Return (batch, c)) ∧
    (needs_dirtyCheck l = true → dirtyCheck_of l ∈ batch) ∧
    (scheduledOperation l = Insert → insert_of l ∈ batch) ∧
    (scheduledOperation l = Delete → remove_of l ∈ batch).
Proof.
  intros Hwf Hnone Hk Hl.
  destruct (_flush_returns env s Hwf) as (s' & batch & c & Hrun & Hfull).
  destruct (Hfull Hnone) as [-> _].
  exists s'. eexists _, c. split; [exact Hrun|].
  by apply (expected_batch_elem s k lr l).
Qed.

(** X28.  After [save] has refused a detached entity (one that carries
    an [_id] which is neither a key of the table nor the name of a member
    the table object inherits) with "Cannot save a detached object.", the
    session answers as if it managed the entity: [contains], which was
    false, is true, and [getObject] returns the entity for its
    identifier, because the link stored for it is [Detached], not
    [Removed].  Under [DeferredImplicit] change tracking the next flush
    dirty-checks the entity, against no original document. *)
Theorem refused_save_links_detached_entity env obj id m s :
  wf s →
  _id s !! obj = Some id → _objectLinks s !! toString id = None →
  inherited (toString id) = false →
  getMappingForObject (factory env) obj = Some m →
  contains obj s = false ∧
  ∃ s', _saveEntities env [obj] s = (s', Return (Failed detached_save)) ∧
        contains obj s' = true ∧ getObject id s' = VEntity obj ∧
        (Persister.changeTracking (persister_of env m s) = DeferredImplicit →
         ∀ env', no_persister_error s' (_getAllObjectLinks s') →
           ∃ s2 batch c, _flush env' s' = (s2, Return (batch, c)) ∧
                         CallDirtyCheck obj None ∈ batch).
Proof.
  intros Hwf Hid Hk Hown Hm.
  split; [unfold contains; by rewrite Hid, Hk|].
  pose proof (_saveEntities_body_detached env obj id m s Hid Hk Hm Hown)
    as Hbody.
  pose proof (linked_as_detached env obj id m s Hid) as Hlinked.
  pose proof (wf_detached env obj id m s Hwf Hid) as Hwf'.
  destruct (linked_as_queries env _ _ _ _ _ Hlinked) as (Hc & Hg & _).
  eexists. split; [by rewrite (_saveEntities_single _ _ _ _ _ Hbody)|].
  split; [by rewrite Hc|]. split; [by rewrite Hg|].
  intros Htr env' Hnone.
  destruct (flush_makes_calls env' _ (toString id) (fresh (dom (links s)))
              (detached_link obj (persister_of env m s)) Hwf' Hnone)
    as (s2 & batch & c & Hrun & Hdc & _);
    [rewrite linked_objectLinks, cached_links; apply lookup_insert_eq
    |apply detached_lookup|].
  exists s2, batch, c. split; [exact Hrun|]. apply Hdc.
  unfold needs_dirtyCheck. simpl.
  by rewrite (bool_decide_eq_true_2 _ Htr).
Qed.

Lemma refused_save_links_detached_entity_witness :
  let env := demo_env DeferredImplicit None in
  let s := new_session {[ 4 := Id "x" ]} in
  contains 4 s = false ∧
  ∃ s', _saveEntities env [4] s = (s', Return (Failed detached_save)) ∧
        contains 4 s' = true ∧ getObject (Id "x") s' = VEntity 4.
Proof.
  intros env s.
  destruct (refused_save_links_detached_entity env 4 (Id "x") demo_mapping s)
    as (Hc & s' & Hrun & Hc' & Hg & _);
    [apply wf_new|reflexivity..|].
  split; [exact Hc|]. by exists s'.
Defined.



(** ** An entity removed and flushed is a new entity *)

Lemma flush_deletes env s s' batch v k lr l :
  wf s → _flush env s = (s', Return (batch, Completed v)) →
  _objectLinks s !! k = Some lr → links s !! lr = Some l →
  scheduledOperation l = Delete →
  remove_of l ∈ batch ∧
  _objectLinks s' !! k = None ∧ _id s' !! object l = None.
Proof.
  intros Hwf Hflush Hk Hl Hop.
  set (list := _getAllObjectLinks s).
  pose proof (_flush_assemble_same list s) as Hsame.
  pose proof (_flush_assemble_wf list s Hwf) as Hwf1.
  destruct (flush_completed _ _ _ _ _ Hflush) as (s1 & Hasm & Hexec & Hloop).
  fold list in Hasm, Hloop.
  split.
  { destruct (_flush_assemble_run list s (list_links_NoDup s Hwf))
      as (s0 & b0 & e0 & Hrun & _ & _ & Hfull).
    { intros lr' Hin. by apply list_links_Some. }
    rewrite Hasm in Hrun. simplify_eq.
    destruct (Hfull eq_refl) as [-> _].
    by apply (expected_batch_elem s k lr l). }
  rewrite Hasm in Hsame, Hwf1. simpl in Hsame, Hwf1.
  pose proof Hsame as (Ht & _).
  destruct (same_schedule_lookup _ _ _ _ Hsame Hl)
    as (l1 & Hl1 & Hst1 & Hop1 & Hobj1 & _).
  rewrite <- Hobj1.
  apply (flush_executed_deletes list s1 s' None Hwf1
           (list_links_NoDup s Hwf)) with (lr := lr);
    [|done| |by rewrite Ht|done|congruence].
  - intros lr' (k' & Hk')%list_links_elem. exists k'. by rewrite Ht.
  - apply list_links_elem. by exists k.
Qed.

(** X30.  An entity that was removed and then deleted by a flush that
    completed without error is a new entity for the session: the flush
    made the delete call for it, its [_id] is gone, the session does not
    contain it and [getObject] does not know its old identifier; a later
    [save] gives it a newly generated identifier and schedules it for
    [Insert], when that identifier is neither a key of the table nor the
    name of a member the table object inherits. *)
Theorem removed_entity_becomes_new env obj id op m s s2 batch v :
  wf s → linked_as obj id Managed op s → op ≠ Insert →
  getMappingForObject (factory env) obj = Some m →
  _flush env (_removeEntities env [obj] s).1
  = (s2, Return (batch, Completed v)) →
  let g := generate (Persister.identity (persister_of env m s2))
                    (generated s2) in
  _objectLinks s2 !! toString g = None →
  inherited (toString g) = false →
  CallRemove obj ∈ batch ∧
  getId obj s2 = None ∧ contains obj s2 = false ∧
  getObject id s2 = VUndefined ∧
  ∃ s3, _saveEntities env [obj] s2 = (s3, Return (Completed VUndefined)) ∧
        linked_as obj g Managed Insert s3.
Proof.
  intros Hwf Hlinked Hop Hm Hflush g Hfresh Hown.
  pose proof Hlinked as (Hid & lr & l & Hk & Hl & Hobj & Hst & Hopl).
  pose proof (_removeEntities_body_persisted env obj id lr l s Hid Hk Hl Hst)
    as Hbody.
  rewrite Hopl in Hbody. specialize (Hbody Hop).
  pose proof (_removeEntities_body_wf env obj s Hwf) as Hwf1.
  rewrite Hbody in Hwf1. simpl in Hwf1.
  rewrite (_removeEntities_single _ _ _ _ _ Hbody) in Hflush. simpl in Hflush.
  destruct (flush_deletes env _ s2 batch v (toString id) lr
              (set_state Removed (set_scheduledOperation Delete l))
              Hwf1 Hflush) as (Hcall & Hgone & Hnoid);
    [done|simpl; apply lookup_insert_eq|done|].
  simpl in Hcall, Hnoid. rewrite Hobj in Hnoid.
  unfold remove_of in Hcall. simpl in Hcall. rewrite Hobj in Hcall.
  split; [exact Hcall|]. split; [exact Hnoid|].
  split; [unfold contains; by rewrite Hnoid|].
  split; [unfold getObject; by rewrite Hgone|].
  exists (saved_new env obj m s2). split.
  - apply (_saveEntities_single env obj s2 _ None).
    by apply _saveEntities_body_new.
  - apply linked_as_saved_new.
Qed.

Lemma removed_entity_becomes_new_witness :
  let env := demo_env DeferredExplicit None in
  let s2 := (_flush env (_removeEntities env [1] demo_persisted).1).1 in
  getId 1 s2 = None ∧ contains 1 s2 = false ∧
  ∃ s3, _saveEntities env [1] s2 = (s3, Return (Completed VUndefined)) ∧
        linked_as 1 (Id "aa") Managed Insert s3.
Proof.
  intros env s2.
  destruct (removed_entity_becomes_new env 1 (Id "a") OpNone demo_mapping
              demo_persisted s2 [CallRemove 1] VUndefined)
    as (_ & Hid & Hc & _ & Hsave).
  - apply reachable_wf, run_all_reachable, reach_new.
  - exact demo_persisted_linked.
  - done.
  - reflexivity.
  - vm_compute. reflexivity.
  - vm_compute. reflexivity.
  - vm_compute. reflexivity.
  - split; [exact Hid|]. split; [exact Hc|]. exact Hsave.
Defined.

(** ** Detaching an entity that was removed *)

(** X9.  Detaching does nothing to an entity whose link is not
    [Managed]: the session is left exactly as it was and the callback
    receives no error.  So an entity removed earlier stays in the table,
    [Removed] and scheduled for [Delete], although it was detached, and
    the next flush deletes it. *)
Theorem detach_keeps_pending_delete env obj id lr l s :
  wf s →
  _id s !! obj = Some id → _objectLinks s !! toString id = Some lr →
  links s !! lr = Some l → state l ≠ Managed →
  _detachEntities env [obj] s = (s, Return (Completed VUndefined)) ∧
  (scheduledOperation l = Delete →
   ∀ env', no_persister_error s (_getAllObjectLinks s) →
     ∃ s2 batch c, _flush env' s = (s2, Return (batch, c)) ∧
                   CallRemove (object l) ∈ batch).
Proof.
  intros Hwf Hid Hk Hl Hst. split.
  - apply (_detachEntities_single env obj s s None).
    by apply (_detachEntities_body_other env obj id lr l).
  - intros Hop env' Hnone.
    destruct (flush_makes_calls env' s (toString id) lr l Hwf Hnone Hk Hl)
      as (s2 & batch & c & Hrun & _ & _ & Hdel).
    exists s2, batch, c. split; [exact Hrun|]. by apply Hdel.
Qed.

Lemma detach_keeps_pending_delete_witness :
  let env := demo_env DeferredExplicit None in
  (state <$> links demo_busy !! 1) = Some Removed ∧
  _detachEntities env [3] demo_busy
  = (demo_busy, Return (Completed VUndefined)).
Proof.
  intros env. split; [vm_compute; reflexivity|].
  destruct (detach_keeps_pending_delete env 3 (Id "aa") 1
              {| state := Removed; scheduledOperation := Delete; object := 3;
                 originalDocument := Some 3;
                 persister := demo_persister DeferredExplicit |}
              demo_busy) as [Hrun _];
    [apply reachable_wf, run_all_reachable, reach_new
    |vm_compute; reflexivity..|done|exact Hrun].
Defined.
